(** * A tool-calling chat client: the orchestration loop of
      [chatbot_mcp_multi.py] and [chatbot_mcp_tools.py]

    The two Python classes are embedded as programs of a small state and
    exception monad.  Everything outside the process (the model API, the tool
    servers, the configuration file) is an oracle over an abstract world; each
    oracle call, with its arguments and its result, is recorded in a trace, so
    that statements about what was dispatched, and in which order, are
    statements about the trace.

    Python objects that are shared by reference are kept in a heap: the
    [assistant_content] list of the multi-server client is appended to the
    transcript by reference and is extended afterwards, so a message of the
    transcript holds a location, not a value.

    [logger] calls and the fixed banner and status lines written with [print]
    are not modelled.  The events kept are the external calls, the display of
    the text of a text block, the iteration-ceiling warning and the error line
    of the chat loop.  Writing to the standard output is taken to succeed: a
    [print] that raises (a closed pipe, a character the terminal cannot
    encode) is outside the model, and nothing below says which exceptions a
    failing output would add. *)

From stdpp Require Import gmap strings list.

Open Scope string_scope.
Open Scope list_scope.

(** ** Data *)

(** The identity of a [ClientSession] object. *)
Definition Session := nat.

(** The identity of the pair of streams a [stdio_client] context yields. *)
Definition Transport := nat.

(** A context manager that has been entered and is still to be exited. *)
Inductive Resource :=
| TransportCtx (t : Transport)
| SessionCtx (s : Session).

(** A tool as advertised by a server ([response.tools]); schemas and other
    JSON values are kept as text. *)
Record Tool := {
  tool_name : string;
  tool_description : string;
  tool_inputSchema : string;
}.

(** [class ToolDefinition(TypedDict)] *)
Record ToolDefinition := {
  name : string;
  description : string;
  input_schema : string;
}.

(** The catalog entry both clients make of an advertised tool. *)
Definition definition_of (tool : Tool) : ToolDefinition :=
  {| name := tool_name tool;
     description := tool_description tool;
     input_schema := tool_inputSchema tool |}.

(** A content block of a model response, discriminated by [content.type]:
    ['text'], ['tool_use'], or anything else (which both clients skip). *)
Inductive ContentBlock :=
| TextBlock (text : string)
| ToolUseBlock (id tname input : string)
| OtherBlock.

Definition is_tool_use (b : ContentBlock) : bool :=
  match b with ToolUseBlock _ _ _ => true | _ => false end.

Definition is_text (b : ContentBlock) : bool :=
  match b with TextBlock _ => true | _ => false end.

(** Exceptions: the [KeyError] of a failed dictionary lookup, the
    [AttributeError] of a method call on [None], any other instance of
    [Exception] an external call raised ([Error]), and the exceptions that
    derive from [BaseException] without being instances of [Exception]. *)
Inductive Exn :=
| KeyError (key : string)
| AttributeError
| Error (msg : string)
| KeyboardInterrupt
| CancelledError
| SystemExit.

(** [isinstance(e, Exception)]: what an [except Exception] clause catches. *)
Definition is_Exception (e : Exn) : bool :=
  match e with
  | KeyError _ | AttributeError | Error _ => true
  | KeyboardInterrupt | CancelledError | SystemExit => false
  end.

(** The value [session.call_tool] returns: its content, kept as text, and
    the flag by which a server reports that the tool failed. *)
Record CallToolResult := {
  result_content : string;
  isError : bool;
}.

(** A location of a Python list of content blocks. *)
Definition loc := nat.

(** An entry of the [messages] list.  The content of an assistant message is
    a reference to a list object. *)
Inductive Message :=
| UserMessage (content : string)
| AssistantMessage (content : loc)
| ToolResultMessage (tool_use_id : string) (content : string).

(** A message as it is read through the heap (and sent to the model). *)
Inductive Rendered :=
| RUser (content : string)
| RAssistant (content : list ContentBlock)
| RToolResult (tool_use_id : string) (content : string).

(** External calls and output, with their results. *)
Inductive Event :=
| EvReadConfig (r : Exn + list (string * string))
| EvStdioClient (server_config : string) (r : Exn + Transport)
| EvClientSession (t : Transport) (r : Exn + Session)
| EvExit (res : Resource) (pending : option Exn) (r : Exn + bool)
| EvInput (r : Exn + string)
| EvError (e : Exn)
| EvInitialize (s : Session) (r : Exn + unit)
| EvListTools (s : Session) (r : Exn + list Tool)
| EvCreate (tools : list ToolDefinition) (msgs : list Rendered)
           (r : Exn + list ContentBlock)
| EvCallTool (s : Session) (tname args : string) (r : Exn + CallToolResult)
| EvPrint (text : string)
| EvWarning.

(** The outside of the process.  [read_config] stands for opening and parsing
    [server_config.json] and taking its ["mcpServers"] items in order;
    [stdio_client] for building the [StdioServerParameters] and entering the
    [stdio_client] context; [client_session] for entering the [ClientSession]
    context on its streams; [exit_context] for the [__aexit__] of an entered
    context, called with the exception that is pending (if any), which raises
    or answers whether the exception is suppressed; [input] for reading a
    line.  [strip] and [lower] are Python's [str.strip] and [str.lower]. *)
Record Outside := {
  World : Type;
  read_config : World -> World * (Exn + list (string * string));
  stdio_client : World -> string -> World * (Exn + Transport);
  client_session : World -> Transport -> World * (Exn + Session);
  exit_context : World -> Resource -> option Exn -> World * (Exn + bool);
  input : World -> World * (Exn + string);
  strip : string -> string;
  lower : string -> string;
  initialize : World -> Session -> World * (Exn + unit);
  list_tools : World -> Session -> World * (Exn + list Tool);
  messages_create : World -> list ToolDefinition -> list Rendered ->
                    World * (Exn + list ContentBlock);
  call_tool : World -> Session -> string -> string ->
              World * (Exn + CallToolResult);
}.

(** ** The monad *)

Inductive Result (A : Type) :=
| Return (a : A)
| Raise (e : Exn)
| OutOfFuel.
Arguments Return {A} a.
Arguments Raise {A} e.
Arguments OutOfFuel {A}.

Section Machine.
Context {E : Outside} {B : Type}.

(** The state of a run: the world, the trace, the heap of list objects, the
    [messages] list of the current [process_query] call and the client
    object [self]. *)
Record Machine := {
  world : World E;
  trace : list Event;
  heap : list (list ContentBlock);
  messages : list Message;
  self : B;
}.

Definition M (A : Type) : Type := Machine -> Machine * Result A.

Definition ret {A} (a : A) : M A := fun m => (m, Return a).

Definition bind {A C} (c : M A) (k : A -> M C) : M C :=
  fun m =>
    match c m with
    | (m', Return a) => k a m'
    | (m', Raise e) => (m', Raise e)
    | (m', OutOfFuel) => (m', OutOfFuel)
    end.

Definition raise {A} (e : Exn) : M A := fun m => (m, Raise e).

Definition out_of_fuel {A} : M A := fun m => (m, OutOfFuel).

(** [try: body finally: final] *)
Definition try_finally {A} (body : M A) (final : M unit) : M A :=
  fun m =>
    match body m with
    | (m', Return a) =>
        match final m' with
        | (m'', Return _) => (m'', Return a)
        | (m'', Raise e') => (m'', Raise e')
        | (m'', OutOfFuel) => (m'', OutOfFuel)
        end
    | (m', Raise e) =>
        match final m' with
        | (m'', Return _) => (m'', Raise e)
        | (m'', Raise e') => (m'', Raise e')
        | (m'', OutOfFuel) => (m'', OutOfFuel)
        end
    | (m', OutOfFuel) => (m', OutOfFuel)
    end.

(** [try: body except Exception as e: handler e]; an exception that is not
    an instance of [Exception] passes through. *)
Definition try_except {A} (body : M A) (handler : Exn -> M A) : M A :=
  fun m =>
    match body m with
    | (m', Raise e) => if is_Exception e then handler e m' else (m', Raise e)
    | other => other
    end.

Definition set_world (w : World E) (m : Machine) : Machine :=
  {| world := w; trace := trace m; heap := heap m;
     messages := messages m; self := self m |}.

Definition set_trace (t : list Event) (m : Machine) : Machine :=
  {| world := world m; trace := t; heap := heap m;
     messages := messages m; self := self m |}.

Definition set_heap (h : list (list ContentBlock)) (m : Machine) : Machine :=
  {| world := world m; trace := trace m; heap := h;
     messages := messages m; self := self m |}.

Definition set_messages (ms : list Message) (m : Machine) : Machine :=
  {| world := world m; trace := trace m; heap := heap m;
     messages := ms; self := self m |}.

Definition set_self (b : B) (m : Machine) : Machine :=
  {| world := world m; trace := trace m; heap := heap m;
     messages := messages m; self := b |}.

Definition emit (ev : Event) (m : Machine) : Machine :=
  set_trace (trace m ++ [ev]) m.

(** An external call: the world answers, the call is recorded, and an error
    answer is raised as an exception. *)
Definition external {A} (f : World E -> World E * (Exn + A))
    (ev : Exn + A -> Event) : M A :=
  fun m =>
    let '(w, r) := f (world m) in
    (emit (ev r) (set_world w m),
     match r with inl e => Raise e | inr a => Return a end).

Definition get_self : M B := fun m => (m, Return (self m)).

Definition modify_self (f : B -> B) : M unit :=
  fun m => (set_self (f (self m)) m, Return tt).

(** [print(text)], for the text of a text block; the write is taken to
    succeed. *)
Definition print (text : string) : M unit :=
  fun m => (emit (EvPrint text) m, Return tt).

(** The warning that the maximum of iterations was reached. *)
Definition warn : M unit := fun m => (emit EvWarning m, Return tt).

(** [print(f"\nError: {str(e)}")] *)
Definition print_error (e : Exn) : M unit :=
  fun m => (emit (EvError e) m, Return tt).

(** The [__aexit__] of an entered context, with the pending exception; that
    it raised is a value here, for the caller decides what it means. *)
Definition aexit (res : Resource) (pending : option Exn) : M (Exn + bool) :=
  fun m =>
    let '(w, r) := exit_context E (world m) res pending in
    (emit (EvExit res pending r) (set_world w m), Return r).

(** [async with enter as x: body x]: the context is exited when the body is
    left, normally or by an exception; an exception of the body is raised
    again unless the exit suppresses it, and an exception of the exit takes
    its place. *)
Definition async_with {R} (enter : M R) (res : R -> Resource)
    (body : R -> M unit) : M unit :=
  fun m =>
    match enter m with
    | (m1, Return x) =>
        match body x m1 with
        | (m2, Return _) =>
            match aexit (res x) None m2 with
            | (m3, Return (inl e')) => (m3, Raise e')
            | (m3, _) => (m3, Return tt)
            end
        | (m2, Raise e) =>
            match aexit (res x) (Some e) m2 with
            | (m3, Return (inl e')) => (m3, Raise e')
            | (m3, Return (inr true)) => (m3, Return tt)
            | (m3, _) => (m3, Raise e)
            end
        | (m2, OutOfFuel) => (m2, OutOfFuel)
        end
    | (m1, Raise e) => (m1, Raise e)
    | (m1, OutOfFuel) => (m1, OutOfFuel)
    end.

(** A new list object with the given elements; its location is returned. *)
Definition new_list (l : list ContentBlock) : M loc :=
  fun m => (set_heap (heap m ++ [l]) m, Return (length (heap m))).

(** [l.append(b)] on the list object at [l]. *)
Definition list_append (l : loc) (b : ContentBlock) : M unit :=
  fun m => (set_heap (alter (fun bs => bs ++ [b]) l (heap m)) m, Return tt).

(** [messages = ms] *)
Definition assign_messages (ms : list Message) : M unit :=
  fun m => (set_messages ms m, Return tt).

(** [messages.extend(ms)]; [messages.append(x)] is [extend_messages [x]]. *)
Definition extend_messages (ms : list Message) : M unit :=
  fun m => (set_messages (messages m ++ ms) m, Return tt).

(** Reading a message through the heap. *)
Definition render1 (h : list (list ContentBlock)) (x : Message) : Rendered :=
  match x with
  | UserMessage c => RUser c
  | AssistantMessage l => RAssistant (default [] (h !! l))
  | ToolResultMessage i c => RToolResult i c
  end.

Definition render (m : Machine) : list Rendered :=
  map (render1 (heap m)) (messages m).

(** [self.anthropic.messages.create(..., tools=tools, messages=messages)];
    the value is [response.content]. *)
Definition anthropic_messages_create (tools : list ToolDefinition)
  : M (list ContentBlock) :=
  fun m =>
    external (fun w => messages_create E w tools (render m))
             (EvCreate tools (render m)) m.

(** [session.call_tool(tname, arguments=args)] *)
Definition session_call_tool (s : Session) (tname args : string)
  : M CallToolResult :=
  external (fun w => call_tool E w s tname args) (EvCallTool s tname args).

End Machine.

Arguments Machine : clear implicits.
Arguments M : clear implicits.

Global Instance M_ret {E B} : MRet (M E B) := fun A => @ret E B A.
Global Instance M_bind {E B} : MBind (M E B) := fun A C k c => @bind E B A C c k.

Section Loops.
Context {E : Outside} {B : Type}.

(** [for x in xs: body], threading the local variables [v] the body assigns. *)
Fixpoint for_in {A V} (xs : list A) (body : A -> V -> M E B V) (v : V)
  : M E B V :=
  match xs with
  | [] => mret v
  | x :: xs' => v' ← body x v; for_in xs' body v'
  end.

(** [for x in xs: body] where the body may [return] from the enclosing
    function: [Some r] is a return of [r], [None] falls through. *)
Fixpoint for_in_return {A R} (xs : list A) (body : A -> M E B (option R))
  : M E B (option R) :=
  match xs with
  | [] => mret None
  | x :: xs' =>
      r ← body x;
      match r with
      | Some v => mret (Some v)
      | None => for_in_return xs' body
      end
  end.

End Loops.

(** ** [chatbot_mcp_multi.py] *)

Module ChatbotMcpMulti.

(** [class MCPChatBot]: the fields [__init__] sets, but for the API client.
    [exit_stack] holds the contexts entered through the [AsyncExitStack], the
    last one entered first. *)
Record MCPChatBot := {
  sessions : list Session;
  exit_stack : list Resource;
  available_tools : list ToolDefinition;
  tool_to_session : gmap string Session;
}.

(** [MCPChatBot()] *)
Definition __init__ : MCPChatBot :=
  {| sessions := []; exit_stack := []; available_tools := [];
     tool_to_session := ∅ |}.

Section Program.
Context {E : Outside}.

Local Abbreviation M := (M E MCPChatBot).

(** [self.sessions.append(session)] *)
Definition sessions_append (session : Session) : M unit :=
  modify_self (fun b =>
    {| sessions := sessions b ++ [session];
       exit_stack := exit_stack b;
       available_tools := available_tools b;
       tool_to_session := tool_to_session b |}).

(** The exit stack with one more context on it. *)
Definition push (res : Resource) (b : MCPChatBot) : MCPChatBot :=
  {| sessions := sessions b;
     exit_stack := res :: exit_stack b;
     available_tools := available_tools b;
     tool_to_session := tool_to_session b |}.

(** [self.exit_stack.enter_async_context(cm)]: the context is entered and,
    when that succeeded, its exit is pushed on the stack. *)
Definition enter_async_context {R} (enter : M R) (res : R -> Resource)
  : M R :=
  x ← enter;
  modify_self (push (res x));;
  mret x.

(** The body of [for tool in tools] in [connect_to_server]. *)
Definition register (session : Session) (tool : Tool) (b : MCPChatBot)
  : MCPChatBot :=
  {| sessions := sessions b;
     exit_stack := exit_stack b;
     available_tools := available_tools b ++ [definition_of tool];
     tool_to_session := <[tool_name tool := session]> (tool_to_session b) |}.

Definition connect_to_server (server_name server_config : string) : M unit :=
  try_except
    (stdio_transport ←
       enter_async_context
         (external (fun w => stdio_client E w server_config)
                   (EvStdioClient server_config))
         TransportCtx;
     session ←
       enter_async_context
         (external (fun w => client_session E w stdio_transport)
                   (EvClientSession stdio_transport))
         SessionCtx;
     external (fun w => initialize E w session) (EvInitialize session);;
     sessions_append session;;
     tools ← external (fun w => list_tools E w session) (EvListTools session);
     for_in tools (fun tool _ => modify_self (register session tool)) tt)
    (fun e => raise e).

(** [for server_name, server_config in servers.items()] *)
Definition for_servers (servers : list (string * string)) : M unit :=
  for_in servers
    (fun '(server_name, server_config) _ =>
       connect_to_server server_name server_config) tt.

Definition connect_to_servers : M unit :=
  try_except
    (servers ← external (read_config E) EvReadConfig;
     for_servers servers)
    (fun e => raise e).

Definition _get_claude_response : M (list ContentBlock) :=
  b ← get_self;
  anthropic_messages_create (available_tools b).

(** [self.tool_to_session[tool_name]] *)
Definition lookup_session (tool_name : string) : M Session :=
  b ← get_self;
  match tool_to_session b !! tool_name with
  | Some session => mret session
  | None => raise (KeyError tool_name)
  end.

(** [_handle_tool_call(tool_content, messages)], for the tool-use block
    [ToolUseBlock id tname input]. *)
Definition _handle_tool_call (id tname input : string) : M unit :=
  let tool_name := tname in
  let tool_args := input in
  session ← lookup_session tool_name;
  result ← session_call_tool session tool_name tool_args;
  extend_messages [ToolResultMessage id (result_content result)].

(** The body of [for content in response.content], on the local variable
    [process_query]; [assistant_content] is the location of the list built
    in this round. *)
Definition for_content (response_content : list ContentBlock)
    (assistant_content : loc) (content : ContentBlock) (process_query : bool)
  : M bool :=
  match content with
  | TextBlock text =>
      print text;;
      list_append assistant_content content;;
      if (length response_content =? 1)%nat then mret false else mret process_query
  | ToolUseBlock id tname input =>
      list_append assistant_content content;;
      extend_messages [AssistantMessage assistant_content];;
      _handle_tool_call id tname input;;
      match response_content with
      | [TextBlock text0] => print text0;; mret false
      | _ => mret process_query
      end
  | OtherBlock => mret process_query
  end.

(** One pass through the body of [while process_query]. *)
Definition round (process_query : bool) : M bool :=
  response_content ← _get_claude_response;
  assistant_content ← new_list [];
  for_in response_content (for_content response_content assistant_content)
         process_query.

(** [while process_query: ...]; the loop has no bound of its own, so the
    model takes fuel and answers [OutOfFuel] when it is used up with the loop
    still running. *)
Fixpoint while_process_query (fuel : nat) (process_query : bool) : M unit :=
  if process_query then
    match fuel with
    | 0 => out_of_fuel
    | S fuel' =>
        process_query' ← round process_query;
        while_process_query fuel' process_query'
    end
  else mret tt.

Definition process_query (fuel : nat) (query : string) : M unit :=
  assign_messages [UserMessage query];;
  while_process_query fuel true.

(** [while True: ...] of [chat_loop]; the value of the [try] statement is
    whether the loop is left by [break].  [fuel] bounds the number of lines
    read and [turn_fuel] the rounds of each turn. *)
Fixpoint chat_loop (fuel turn_fuel : nat) : M unit :=
  match fuel with
  | 0 => out_of_fuel
  | S fuel' =>
      try_except
        (line ← external (input E) EvInput;
         let query := strip E line in
         if String.eqb (lower E query) "quit" then mret true
         else (process_query turn_fuel query;; mret false))
        (fun e => print_error e;; mret false)
      ≫= fun stop : bool =>
      if stop then mret tt else chat_loop fuel' turn_fuel
  end.

(** The callbacks of an [AsyncExitStack] are called last-in first-out, each
    with the exception pending at that point; a callback that raises makes its
    exception the pending one, a callback that answers true clears it.  The
    value is the exception left pending. *)
Fixpoint unwind (stack : list Resource) (pending : option Exn)
  : M (option Exn) :=
  match stack with
  | [] => mret pending
  | res :: stack' =>
      r ← aexit res pending;
      match r with
      | inl e => unwind stack' (Some e)
      | inr true => unwind stack' None
      | inr false => unwind stack' pending
      end
  end.

(** [cleanup]: [await self.exit_stack.aclose()], which empties the stack and
    raises the exception left pending, if any. *)
Definition cleanup : M unit :=
  b ← get_self;
  modify_self (fun b =>
    {| sessions := sessions b; exit_stack := [];
       available_tools := available_tools b;
       tool_to_session := tool_to_session b |});;
  pending ← unwind (exit_stack b) None;
  match pending with
  | Some e => raise e
  | None => mret tt
  end.

Definition main (fuel turn_fuel : nat) : M unit :=
  modify_self (fun _ => __init__);;
  try_finally
    (connect_to_servers;; chat_loop fuel turn_fuel)
    cleanup.

End Program.
End ChatbotMcpMulti.

(** ** [chatbot_mcp_tools.py] *)

Module ChatbotMcpTools.

(** [class MCP_ChatBot]; [session] is [None] until a server is connected. *)
Record MCP_ChatBot := {
  session : option Session;
  available_tools : list ToolDefinition;
}.

(** [MCP_ChatBot()] *)
Definition __init__ : MCP_ChatBot :=
  {| session := None; available_tools := [] |}.

Definition max_iterations : nat := 10.

Section Program.
Context {E : Outside}.

Local Abbreviation M := (M E MCP_ChatBot).

Definition _get_claude_response : M (list ContentBlock) :=
  try_except
    (b ← get_self;
     anthropic_messages_create (available_tools b))
    (fun e => raise e).

(** [self.session.call_tool(tname, arguments=input)] *)
Definition self_session_call_tool (tname input : string)
  : M CallToolResult :=
  b ← get_self;
  match session b with
  | Some s => session_call_tool s tname input
  | None => raise AttributeError
  end.

(** The body of [for content in response.content]: [Some r] is [return r]. *)
Definition for_content (response_content : list ContentBlock)
    (content : ContentBlock) : M (option bool) :=
  match content with
  | TextBlock text =>
      print text;;
      if (length response_content =? 1)%nat then mret (Some false) else mret None
  | ToolUseBlock id tname input =>
      try_except
        (result ← self_session_call_tool tname input;
         l ← new_list [content];
         extend_messages
           [AssistantMessage l;
            ToolResultMessage id (result_content result)];;
         mret (Some true))
        (fun e => raise e)
  | OtherBlock => mret None
  end.

Definition _process_content_blocks (response_content : list ContentBlock)
  : M bool :=
  r ← for_in_return response_content (for_content response_content);
  match r with
  | Some v => mret v
  | None => mret false
  end.

(** The two calls of one pass through the body of the [while] loop; the value
    is [should_continue]. *)
Definition round : M bool :=
  response_content ← _get_claude_response;
  _process_content_blocks response_content.

(** [while iteration <= max_iterations: ...]; the value is [iteration] when
    the loop is left, by its condition or by [break]. *)
Fixpoint while_iteration (fuel : nat) (iteration : nat) : M nat :=
  if (iteration <=? max_iterations)%nat then
    match fuel with
    | 0 => out_of_fuel
    | S fuel' =>
        should_continue ← round;
        if negb should_continue then mret iteration
        else while_iteration fuel' (iteration + 1)
    end
  else mret iteration.

Definition process_query (fuel : nat) (query : string) : M unit :=
  assign_messages [UserMessage query];;
  try_except
    (iteration ← while_iteration fuel 1;
     if (max_iterations <? iteration)%nat then warn else mret tt)
    (fun e => raise e).

(** [while True: ...] of [chat_loop]; the value of the [try] statement is
    whether the loop is left by [break].  [fuel] bounds the number of lines
    read and [turn_fuel] is the fuel of each turn. *)
Fixpoint chat_loop (fuel turn_fuel : nat) : M unit :=
  match fuel with
  | 0 => out_of_fuel
  | S fuel' =>
      try_except
        (line ← external (input E) EvInput;
         let query := strip E line in
         if String.eqb (lower E query) "quit" then mret true
         else (process_query turn_fuel query;; mret false))
        (fun e => print_error e;; mret false)
      ≫= fun stop : bool =>
      if stop then mret tt else chat_loop fuel' turn_fuel
  end.

(** The server the single-server client launches: [uv run
    research_mcp_server.py]. *)
Definition server_params : string := "uv run research_mcp_server.py".

Definition connect_to_server_and_run (fuel turn_fuel : nat) : M unit :=
  async_with
    (external (fun w => stdio_client E w server_params)
              (EvStdioClient server_params))
    TransportCtx
    (fun stdio_transport =>
       async_with
         (external (fun w => client_session E w stdio_transport)
                   (EvClientSession stdio_transport))
         SessionCtx
         (fun session' =>
            modify_self (fun b =>
              {| session := Some session';
                 available_tools := available_tools b |});;
            external (fun w => initialize E w session')
                     (EvInitialize session');;
            tools ← external (fun w => list_tools E w session')
                             (EvListTools session');
            modify_self (fun b =>
              {| session := session b;
                 available_tools := map definition_of tools |});;
            chat_loop fuel turn_fuel)).

Definition main (fuel turn_fuel : nat) : M unit :=
  modify_self (fun _ => __init__);;
  connect_to_server_and_run fuel turn_fuel.

End Program.
End ChatbotMcpTools.

(** ** Reading traces, responses and transcripts *)

(** The tool invocations of a trace, in order: tool name and arguments. *)
Definition dispatched (t : list Event) : list (string * string) :=
  omap (fun ev => match ev with
                  | EvCallTool _ n a _ => Some (n, a)
                  | _ => None
                  end) t.

(** The contents of the results the tool invocations returned, whatever
    their error flag. *)
Definition returned (t : list Event) : list string :=
  omap (fun ev => match ev with
                  | EvCallTool _ _ _ (inr c) => Some (result_content c)
                  | _ => None
                  end) t.

(** The exception of a tool invocation that raised. *)
Definition failure (ev : Event) : option Exn :=
  match ev with
  | EvCallTool _ _ _ (inl e) => Some e
  | _ => None
  end.

(** The number of model invocations of a trace. *)
Definition model_calls (t : list Event) : nat :=
  length (omap (fun ev => match ev with
                          | EvCreate _ _ _ => Some tt
                          | _ => None
                          end) t).

(** The server configurations a connection was attempted for, in order. *)
Definition opened (t : list Event) : list string :=
  omap (fun ev => match ev with
                  | EvStdioClient c _ => Some c
                  | _ => None
                  end) t.

(** The tool catalogs the servers answered, as (tool name, session) pairs in
    the order they were received. *)
Definition registrations (t : list Event) : list (string * Session) :=
  flat_map (fun ev => match ev with
                      | EvListTools s (inr tools) =>
                          map (fun tool => (tool_name tool, s)) tools
                      | _ => []
                      end) t.

(** The session of the last pair for [tname] in a list of registrations. *)
Fixpoint last_registration (tname : string) (regs : list (string * Session))
  : option Session :=
  match regs with
  | [] => None
  | (n, s) :: regs' =>
      match last_registration tname regs' with
      | Some s' => Some s'
      | None => if String.eqb n tname then Some s else None
      end
  end.

(** The tool-use blocks of a response: id, tool name, input. *)
Definition tool_uses (bs : list ContentBlock)
  : list (string * string * string) :=
  omap (fun b => match b with
                 | ToolUseBlock i n a => Some (i, n, a)
                 | _ => None
                 end) bs.

(** The texts of the text blocks of a response. *)
Definition texts (bs : list ContentBlock) : list string :=
  omap (fun b => match b with TextBlock t => Some t | _ => None end) bs.

(** The tool-result messages of a transcript: tool_use id and content. *)
Definition tool_results (ms : list Message) : list (string * string) :=
  omap (fun x => match x with
                 | ToolResultMessage i c => Some (i, c)
                 | _ => None
                 end) ms.

(** The texts displayed, in order. *)
Definition displayed (t : list Event) : list string :=
  omap (fun ev => match ev with EvPrint text => Some text | _ => None end) t.

(** The response is exactly one text block. *)
Definition single_text (bs : list ContentBlock) : bool :=
  match bs with
  | [TextBlock _] => true
  | _ => false
  end.

(** The blocks of a response the multi-server client keeps in
    [assistant_content]: the text and the tool-use blocks. *)
Definition kept (bs : list ContentBlock) : list ContentBlock :=
  filter (fun b => is_text b || is_tool_use b = true) bs.

(** The tools the servers listed, in the order they were received. *)
Definition listed (t : list Event) : list Tool :=
  flat_map (fun ev => match ev with
                      | EvListTools _ (inr tools) => tools
                      | _ => []
                      end) t.

(** The transcripts sent to the model, in order. *)
Definition requests (t : list Event) : list (list Rendered) :=
  omap (fun ev => match ev with
                  | EvCreate _ msgs _ => Some msgs
                  | _ => None
                  end) t.

(** The sessions whose tool catalog was asked for, in order. *)
Definition queried (t : list Event) : list Session :=
  omap (fun ev => match ev with
                  | EvListTools s _ => Some s
                  | _ => None
                  end) t.

(** No tool invocation of the trace raised. *)
Definition no_failure (t : list Event) : Prop :=
  Forall (fun ev => failure ev = None) t.

(** What a run added to the trace and to the transcript keeps tool results
    and tool invocations aligned: the tool-result messages carry the contents
    of the results the invocations returned, in order, and an invocation
    that raised is the last event, its exception being the outcome of the
    run. *)
Definition faithful {A} (new : list Event) (newm : list Message)
    (r : Result A) : Prop :=
  map snd (tool_results newm) = returned new /\
  (no_failure new \/
   exists pre ev e,
     new = pre ++ [ev] /\ no_failure pre /\ failure ev = Some e /\
     r = Raise e).

(** The contexts entered with success, in order. *)
Definition entered (t : list Event) : list Resource :=
  omap (fun ev => match ev with
                  | EvStdioClient _ (inr tr) => Some (TransportCtx tr)
                  | EvClientSession _ (inr s) => Some (SessionCtx s)
                  | _ => None
                  end) t.

(** The contexts exited, in order. *)
Definition exited (t : list Event) : list Resource :=
  omap (fun ev => match ev with
                  | EvExit res _ _ => Some res
                  | _ => None
                  end) t.

(** The errors displayed by the chat loop, in order. *)
Definition reported (t : list Event) : list Exn :=
  omap (fun ev => match ev with EvError e => Some e | _ => None end) t.

(** The lines read, with the failures to read. *)
Definition lines (t : list Event) : list (Exn + string) :=
  omap (fun ev => match ev with EvInput r => Some r | _ => None end) t.

(** The events of a chat loop: those of its turns, the lines read and the
    errors displayed. *)
Definition chat_event {B} (turn_event : B -> Event -> Prop) (b : B)
    (ev : Event) : Prop :=
  match ev with
  | EvInput _ => True
  | EvError _ => True
  | _ => turn_event b ev
  end.

(** The tool invocations that returned a result with the error flag set:
    tool name and content. *)
Definition flagged (t : list Event) : list (string * string) :=
  omap (fun ev => match ev with
                  | EvCallTool _ n _ (inr c) =>
                      if isError c then Some (n, result_content c) else None
                  | _ => None
                  end) t.

(** Whenever the model answered a request of the run with a response that
    [Q] holds of, [R] holds of that response, of the events that followed the
    answer and of the outcome of the run. *)
Definition settles {A} (Q : list ContentBlock -> Prop)
    (R : list ContentBlock -> list Event -> Result A -> Prop)
    (new : list Event) (r : Result A) : Prop :=
  forall pre tools msgs resp post,
    new = pre ++ EvCreate tools msgs (inr resp) :: post ->
    Q resp -> R resp post r.

(** The event is the exit of a context. *)
Definition is_exit (ev : Event) : Prop :=
  match ev with EvExit _ _ _ => True | _ => False end.

(** Every assistant message refers to an allocated list. *)
Definition well_formed {E B} (m : Machine E B) : Prop :=
  Forall (fun x => match x with
                   | AssistantMessage l => l < length (heap m)
                   | _ => True
                   end) (messages m).

(** ** Auxiliary definitions for the proofs *)

Module Multi := ChatbotMcpMulti.
Module Single := ChatbotMcpTools.

Section Auxiliary.
Context {E : Outside}.

(** The state in which the multi-server client makes the tool call of a
    tool-use block: the block is in the list at [l] and the assistant message
    is in the transcript. *)
Definition announced (l : loc) (b : ContentBlock)
    (m : Machine E Multi.MCPChatBot) : Machine E Multi.MCPChatBot :=
  set_messages (messages m ++ [AssistantMessage l])
    (set_heap (alter (fun bs => bs ++ [b]) l (heap m)) m).

(** What follows the tool call in the multi-server client (the last three
    lines of the loop body). *)
Definition after_call (resp : list ContentBlock) (v : bool)
  : M E Multi.MCPChatBot bool :=
  match resp with
  | [TextBlock text0] => print text0;; mret false
  | _ => mret v
  end.

(** A run keeps tool results and tool invocations aligned, from any state. *)
Definition keeps {B A} (c : M E B A) : Prop :=
  forall m, exists new newm,
    trace (c m).1 = trace m ++ new /\
    messages (c m).1 = messages m ++ newm /\
    faithful new newm (c m).2.

(** [n] rounds of the single-server client in a row that all ask to
    continue, and the state they lead to. *)
Fixpoint continuing (n : nat) (m : Machine E Single.MCP_ChatBot)
  : option (Machine E Single.MCP_ChatBot) :=
  match n with
  | 0 => Some m
  | S n' =>
      match Single.round m with
      | (m1, Return true) => continuing n' m1
      | _ => None
      end
  end.

(** The client after the tools of one catalog are registered. *)
Definition registered (s : Session) (tools : list Tool)
    (b : Multi.MCPChatBot) : Multi.MCPChatBot :=
  foldl (fun b tool => Multi.register s tool b) b tools.

(** The ways a connection goes: what it adds to the trace and what it leaves
    of the client. *)
Inductive connection (cfg : string) (b : Multi.MCPChatBot)
  : list Event -> Multi.MCPChatBot -> Result unit -> Prop :=
| conn_no_transport e :
    connection cfg b [EvStdioClient cfg (inl e)] b (Raise e)
| conn_no_session t e :
    connection cfg b
      [EvStdioClient cfg (inr t); EvClientSession t (inl e)]
      (Multi.push (TransportCtx t) b) (Raise e)
| conn_no_initialize t s e :
    connection cfg b
      [EvStdioClient cfg (inr t); EvClientSession t (inr s);
       EvInitialize s (inl e)]
      (Multi.push (SessionCtx s) (Multi.push (TransportCtx t) b)) (Raise e)
| conn_no_catalog t s e :
    connection cfg b
      [EvStdioClient cfg (inr t); EvClientSession t (inr s);
       EvInitialize s (inr tt); EvListTools s (inl e)]
      {| Multi.sessions := Multi.sessions b ++ [s];
         Multi.exit_stack := SessionCtx s :: TransportCtx t
                             :: Multi.exit_stack b;
         Multi.available_tools := Multi.available_tools b;
         Multi.tool_to_session := Multi.tool_to_session b |}
      (Raise e)
| conn_done t s tools :
    connection cfg b
      [EvStdioClient cfg (inr t); EvClientSession t (inr s);
       EvInitialize s (inr tt); EvListTools s (inr tools)]
      (registered s tools
         {| Multi.sessions := Multi.sessions b ++ [s];
            Multi.exit_stack := SessionCtx s :: TransportCtx t
                                :: Multi.exit_stack b;
            Multi.available_tools := Multi.available_tools b;
            Multi.tool_to_session := Multi.tool_to_session b |})
      (Return tt).

(** The registry agrees with what the servers answered: a tool name is bound
    to the session of the last catalog that listed it, every session the
    registry refers to is in [self.sessions], and [self.sessions] holds the
    sessions in the order their catalogs were asked for. *)
Definition registry_consistent (m : Machine E Multi.MCPChatBot) : Prop :=
  (forall tname,
     Multi.tool_to_session (self m) !! tname
     = last_registration tname (registrations (trace m))) /\
  (forall tname s,
     Multi.tool_to_session (self m) !! tname = Some s ->
     In s (Multi.sessions (self m))) /\
  Multi.sessions (self m) = queried (trace m).

(** A run leaves the client object as it was and adds to the trace only
    events that [P] allows for that client. *)
Definition confined {B A} (P : B -> Event -> Prop) (c : M E B A) : Prop :=
  forall m, exists new,
    trace (c m).1 = trace m ++ new /\
    self (c m).1 = self m /\
    Forall (P (self m)) new.

(** The events of a turn of the multi-server client [b]: a request to the
    model carries the catalog of [b], a tool invocation goes to the session
    the registry of [b] binds the tool name to, and texts are displayed. *)
Definition multi_turn_event (b : Multi.MCPChatBot) (ev : Event) : Prop :=
  match ev with
  | EvCreate tools _ _ => tools = Multi.available_tools b
  | EvCallTool s tname _ _ => Multi.tool_to_session b !! tname = Some s
  | EvPrint _ => True
  | _ => False
  end.

(** The events of a turn of the single-server client [b]: a request to the
    model carries the catalog of [b], a tool invocation goes to the session
    of [b], texts are displayed and the warning may be shown. *)
Definition single_turn_event (b : Single.MCP_ChatBot) (ev : Event) : Prop :=
  match ev with
  | EvCreate tools _ _ => tools = Single.available_tools b
  | EvCallTool s _ _ _ => Single.session b = Some s
  | EvPrint _ => True
  | EvWarning => True
  | _ => False
  end.

(** The events of the processing of a response by the multi-server client
    [b]: tool invocations through the registry of [b], and displays. *)
Definition multi_block_event (b : Multi.MCPChatBot) (ev : Event) : Prop :=
  match ev with
  | EvCallTool s tname _ _ => Multi.tool_to_session b !! tname = Some s
  | EvPrint _ => True
  | _ => False
  end.

(** The events of the processing of a response by the single-server client
    [b]: tool invocations on the session of [b], and displays. *)
Definition single_block_event (b : Single.MCP_ChatBot) (ev : Event) : Prop :=
  match ev with
  | EvCallTool s _ _ _ => Single.session b = Some s
  | EvPrint _ => True
  | _ => False
  end.

(** The transcript of the single-server client for the query [query] and
    the tool calls [calls] (id, name, input and returned content of each): the
    query, then for each call an assistant message holding its tool-use block
    alone and the tool result with its id. *)
Definition single_transcript (query : string)
    (calls : list (string * string * string * string)) : list Rendered :=
  RUser query ::
  flat_map (fun u => [RAssistant [ToolUseBlock u.1.1.1 u.1.1.2 u.1.2];
                      RToolResult u.1.1.1 u.2]) calls.

(** A run keeps a property of the state. *)
Definition preserves {B A} (I : Machine E B -> Prop) (c : M E B A) : Prop :=
  forall m, I m -> I (c m).1.

(** The transcript is that of the query and some calls. *)
Definition shaped (query : string) (m : Machine E Single.MCP_ChatBot)
  : Prop :=
  well_formed m /\ exists calls, render m = single_transcript query calls.

(** A run pushes on the exit stack the contexts it enters, and exits none. *)
Definition acquires {A} (c : M E Multi.MCPChatBot A) : Prop :=
  forall m, exists new,
    trace (c m).1 = trace m ++ new /\
    Multi.exit_stack (self (c m).1)
    = rev (entered new) ++ Multi.exit_stack (self m) /\
    exited new = [].

(** A run enters and exits no context. *)
Definition quiet {B A} (c : M E B A) : Prop :=
  forall m, exists new,
    trace (c m).1 = trace m ++ new /\ entered new = [] /\ exited new = [].

(** A run that ends has exited the contexts it entered, the last one
    first. *)
Definition balanced {B A} (c : M E B A) : Prop :=
  forall m, (c m).2 <> OutOfFuel ->
    exists new,
      trace (c m).1 = trace m ++ new /\ exited new = rev (entered new).

(** The catalog holds an entry for every tool listed, in order. *)
Definition catalog_consistent (m : Machine E Multi.MCPChatBot) : Prop :=
  Multi.available_tools (self m) = map definition_of (listed (trace m)).

(** A client that has just been constructed, in the world [w]. *)
Definition fresh (w : World E) : Machine E Multi.MCPChatBot :=
  {| world := w; trace := []; heap := []; messages := [];
     self := Multi.__init__ |}.

End Auxiliary.

(** ** A concrete outside, for examples

    The model answers its [n]-th request with [model n]; the configuration
    file holds [config]; a server whose configuration is ["bad"] cannot be
    launched; the first session offers [search] and [fetch], the others
    [search]; a tool call whose arguments are ["boom"] raises, one whose
    arguments are ["oops"] or whose tool is neither [search] nor [fetch]
    returns a result with the error flag set, and every other tool call
    returns a result without it; no context fails to exit; every line read is
    ["quit"].  The world counts the requests made to the model and the
    transports opened. *)

Module Scenario.

Definition search : Tool :=
  {| tool_name := "search"; tool_description := "web search";
     tool_inputSchema := "{}" |}.

Definition fetch : Tool :=
  {| tool_name := "fetch"; tool_description := "fetch a page";
     tool_inputSchema := "{}" |}.

Definition outside (model : nat -> Exn + list ContentBlock)
    (config : Exn + list (string * string)) : Outside :=
  {| World := nat * nat;
     read_config := fun w => (w, config);
     stdio_client := fun w cfg =>
       if String.eqb cfg "bad" then (w, inl (Error "cannot launch"))
       else ((w.1, S w.2), inr w.2);
     client_session := fun w t => (w, inr t);
     exit_context := fun w res pending => (w, inr false);
     input := fun w => (w, inr "quit");
     strip := fun s => s;
     lower := fun s => s;
     initialize := fun w s => (w, inr tt);
     list_tools := fun w s =>
       (w, inr (if Nat.eqb s 0 then [search; fetch] else [search]));
     messages_create := fun w tools msgs => ((S w.1, w.2), model w.1);
     call_tool := fun w s tname args =>
       (w, if String.eqb args "boom" then inl (Error "tool failed")
           else if String.eqb args "oops" then
             inr {| result_content := String.append "error in " tname;
                    isError := true |}
           else if String.eqb tname "search" || String.eqb tname "fetch" then
             inr {| result_content := String.append "result of " tname;
                    isError := false |}
           else
             inr {| result_content := String.append "Unknown tool: " tname;
                    isError := true |}) |}.

(** Two servers. *)
Definition two_servers : list (string * string) :=
  [("first", "cmd first"); ("second", "cmd second")].

(** The multi-server client after [connect_to_servers], ready for a query. *)
Definition connected (model : nat -> Exn + list ContentBlock)
  : Machine (outside model (inr two_servers)) Multi.MCPChatBot :=
  (Multi.connect_to_servers (fresh (E := outside model (inr two_servers))
                                   (0, 0))).1.

(** The single-server client, connected to session [0]. *)
Definition single (model : nat -> Exn + list ContentBlock)
  : Machine (outside model (inr two_servers)) Single.MCP_ChatBot :=
  {| world := ((0, 1) : World (outside model (inr two_servers)));
     trace := []; heap := []; messages := [];
     self := {| Single.session := Some 0;
                Single.available_tools :=
                  [ {| name := "search"; description := "web search";
                       input_schema := "{}" |};
                    {| name := "fetch"; description := "fetch a page";
                       input_schema := "{}" |} ] |} |}.

(** Responses. *)
Definition use_A : ContentBlock := ToolUseBlock "A" "search" "x".
Definition use_B : ContentBlock := ToolUseBlock "B" "fetch" "y".
Definition use_broken : ContentBlock := ToolUseBlock "C" "fetch" "boom".
Definition use_unknown : ContentBlock := ToolUseBlock "D" "nowhere" "u".
Definition use_flagged : ContentBlock := ToolUseBlock "F" "fetch" "oops".

(** The model answers with the given responses, one per request, and with a
    single text block once they are used up. *)
Definition script (rs : list (list ContentBlock)) (n : nat)
  : Exn + list ContentBlock :=
  inr (default [TextBlock "done"] (rs !! n)).

(** The model asks for [search] on every request. *)
Definition insistent (n : nat) : Exn + list ContentBlock := inr [use_A].

(** The multi-server client in the middle of a round: the query is in the
    transcript, the model has answered and [assistant_content] is the new
    list at location [0]. *)
Definition asked (model : nat -> Exn + list ContentBlock) (query : string)
  : Machine (outside model (inr two_servers)) Multi.MCPChatBot :=
  (new_list []
     (Multi._get_claude_response
        (set_messages [UserMessage query] (connected model))).1).1.

(** The outside [E0] where reading a line is answered by [answer]. *)
Definition with_input (E0 : Outside)
    (answer : World E0 -> World E0 * (Exn + string)) : Outside :=
  {| World := World E0;
     read_config := read_config E0;
     stdio_client := stdio_client E0;
     client_session := client_session E0;
     exit_context := exit_context E0;
     input := answer;
     strip := strip E0;
     lower := lower E0;
     initialize := initialize E0;
     list_tools := list_tools E0;
     messages_create := messages_create E0;
     call_tool := call_tool E0 |}.

(** A user who types [line] every time, a terminal that is closed, and a
    user who presses Ctrl-C at the prompt. *)
Definition typing (model : nat -> Exn + list ContentBlock) (line : string)
  : Outside :=
  with_input (outside model (inr two_servers)) (fun w => (w, inr line)).

Definition closed_terminal (model : nat -> Exn + list ContentBlock)
  : Outside :=
  with_input (outside model (inr two_servers))
             (fun w => (w, inl (Error "EOF when reading a line"))).

Definition interrupting (model : nat -> Exn + list ContentBlock)
  : Outside :=
  with_input (outside model (inr two_servers))
             (fun w => (w, inl KeyboardInterrupt)).

(** Servers that can be launched and initialised but do not answer when
    asked for their tools. *)
Definition mute (model : nat -> Exn + list ContentBlock) : Outside :=
  let E0 := outside model (inr two_servers) in
  {| World := World E0;
     read_config := read_config E0;
     stdio_client := stdio_client E0;
     client_session := client_session E0;
     exit_context := exit_context E0;
     input := input E0;
     strip := strip E0;
     lower := lower E0;
     initialize := initialize E0;
     list_tools := fun w s => (w, inl (Error "no answer"));
     messages_create := messages_create E0;
     call_tool := call_tool E0 |}.
(** The clients of [connected] and [single], in another outside with the
    same worlds. *)
Definition multi_in (E1 : Outside) (w : World E1)
  : Machine E1 Multi.MCPChatBot :=
  {| world := w; trace := []; heap := []; messages := [];
     self := self (connected insistent) |}.

Definition single_in (E1 : Outside) (w : World E1)
  : Machine E1 Single.MCP_ChatBot :=
  {| world := w; trace := []; heap := []; messages := [];
     self := self (single insistent) |}.

End Scenario.

(** ** Facts about the monad and the loops *)

Section MonadFacts.
Context {E : Outside} {B : Type}.
Implicit Types m : Machine E B.

Lemma run_bind {A C} (c : M E B A) (k : A -> M E B C) m :
  (c ≫= k) m =
  match c m with
  | (m', Return a) => k a m'
  | (m', Raise e) => (m', Raise e)
  | (m', OutOfFuel) => (m', OutOfFuel)
  end.
Proof. reflexivity. Qed.

Lemma run_ret {A} (a : A) m : (mret a : M E B A) m = (m, Return a).
Proof. reflexivity. Qed.

(** A handler that only re-raises leaves the body as it is. *)
Lemma try_reraise {A} (c : M E B A) m :
  try_except c (fun e => raise e) m = c m.
Proof.
  unfold try_except, raise.
  destruct (c m) as [m' [a|e|]]; [| destruct (is_Exception e) |];
    reflexivity.
Qed.

Lemma for_in_app {A V} (xs ys : list A) (body : A -> V -> M E B V) v m :
  for_in (xs ++ ys) body v m =
  match for_in xs body v m with
  | (m', Return v') => for_in ys body v' m'
  | (m', Raise e) => (m', Raise e)
  | (m', OutOfFuel) => (m', OutOfFuel)
  end.
Proof.
  revert v m. induction xs as [|x xs IH]; intros v m; [reflexivity|].
  cbn [app for_in]. rewrite !run_bind.
  destruct (body x v m) as [m1 [v1|e|]]; [apply IH|reflexivity..].
Qed.

Lemma for_in_return_app {A R} (xs ys : list A)
    (body : A -> M E B (option R)) m :
  for_in_return (xs ++ ys) body m =
  match for_in_return xs body m with
  | (m', Return None) => for_in_return ys body m'
  | other => other
  end.
Proof.
  revert m. induction xs as [|x xs IH]; intros m; [reflexivity|].
  cbn [app for_in_return]. rewrite !run_bind.
  destruct (body x m) as [m1 [[r|]|e|]]; [reflexivity|apply IH|reflexivity..].
Qed.

End MonadFacts.

(** ** One round of the multi-server client *)


Section MultiRound.
Context {E : Outside}.
Implicit Types m : Machine E Multi.MCPChatBot.

Lemma multi_handle_tool_call_run i n a m :
  Multi._handle_tool_call i n a m =
  match Multi.tool_to_session (self m) !! n with
  | None => (m, Raise (KeyError n))
  | Some s =>
      match call_tool E (world m) s n a with
      | (w, inl e) =>
          (emit (EvCallTool s n a (inl e)) (set_world w m), Raise e)
      | (w, inr c) =>
          (set_messages
             (messages m ++ [ToolResultMessage i (result_content c)])
             (emit (EvCallTool s n a (inr c)) (set_world w m)), Return tt)
      end
  end.
Proof.
  unfold Multi._handle_tool_call, Multi.lookup_session, session_call_tool,
    external, get_self, extend_messages.
  rewrite !run_bind. cbn.
  destruct (Multi.tool_to_session (self m) !! n) as [s|]; [|reflexivity].
  cbn. rewrite !run_bind.
  destruct (call_tool E (world m) s n a) as [w [e|c]]; reflexivity.
Qed.

Lemma multi_for_content_text resp l t v m :
  Multi.for_content resp l (TextBlock t) v m =
  (set_heap (alter (fun bs => bs ++ [TextBlock t]) l (heap m))
     (emit (EvPrint t) m),
   Return (if (length resp =? 1)%nat then false else v)).
Proof.
  unfold Multi.for_content, print, list_append. rewrite !run_bind. cbn.
  destruct (length resp =? 1)%nat; reflexivity.
Qed.

Lemma multi_for_content_tool_use resp l i n a v m :
  Multi.for_content resp l (ToolUseBlock i n a) v m =
  match Multi._handle_tool_call i n a (announced l (ToolUseBlock i n a) m) with
  | (m1, Return _) => after_call resp v m1
  | (m1, Raise e) => (m1, Raise e)
  | (m1, OutOfFuel) => (m1, OutOfFuel)
  end.
Proof.
  unfold Multi.for_content, list_append, extend_messages, after_call.
  rewrite !run_bind. reflexivity.
Qed.

Lemma after_call_run resp v m :
  exists t1 v1,
    after_call resp v m = (set_trace (trace m ++ t1) m, Return v1) /\
    dispatched t1 = [] /\ returned t1 = [] /\ model_calls t1 = 0.
Proof.
  destruct m as [w t h ms b].
  destruct resp as [|[t0| |] [|]];
    try (exists [], v; cbn; rewrite app_nil_r; repeat split; reflexivity).
  exists [EvPrint t0], false. repeat split; reflexivity.
Qed.

Lemma multi_for_content_spec resp l bs v m m' v' :
  for_in bs (Multi.for_content resp l) v m = (m', Return v') ->
  exists new newm,
    trace m' = trace m ++ new /\
    messages m' = messages m ++ newm /\
    self m' = self m /\
    dispatched new = map (fun u => (u.1.2, u.2)) (tool_uses bs) /\
    map fst (tool_results newm) = map (fun u => u.1.1) (tool_uses bs) /\
    map snd (tool_results newm) = returned new.
Proof.
  revert v m. induction bs as [|b bs IH]; intros v m H.
  - cbn in H. inversion H; subst. exists [], [].
    rewrite !app_nil_r. repeat split; reflexivity.
  - cbn [for_in] in H. rewrite run_bind in H.
    destruct b as [t|i n a|].
    + rewrite multi_for_content_text in H.
      apply IH in H as (new & newm & Ht & Hm & Hs & Hd & Hi & Hc).
      exists (EvPrint t :: new), newm. cbn in *.
      rewrite Ht, Hm, Hs, <- app_assoc. repeat split; assumption.
    + rewrite multi_for_content_tool_use, multi_handle_tool_call_run in H.
      cbn in H.
      destruct (Multi.tool_to_session (self m) !! n) as [s|]; [|discriminate].
      destruct (call_tool E (world m) s n a) as [w [e|c]]; [discriminate|].
      match type of H with context [after_call resp v ?m1] =>
        destruct (after_call_run resp v m1) as (t1 & v1 & Ha & Hd1 & Hs1 & _)
      end.
      rewrite Ha in H.
      apply IH in H as (new & newm & Ht & Hm & Hs & Hd & Hi & Hc).
      cbn in Ht, Hm, Hs.
      exists (EvCallTool s n a (inr c) :: t1 ++ new),
             (AssistantMessage l :: ToolResultMessage i (result_content c) :: newm).
      rewrite Ht, Hm, Hs, <- !app_assoc.
      repeat split; try reflexivity.
      * change (dispatched ([EvCallTool s n a (inr c)] ++ t1 ++ new) =
                (n, a) :: map (fun u => (u.1.2, u.2)) (tool_uses bs)).
        unfold dispatched in *. rewrite !omap_app, Hd1, Hd. reflexivity.
      * change (i :: map fst (tool_results newm) =
                i :: map (fun u => u.1.1) (tool_uses bs)).
        rewrite Hi. reflexivity.
      * change (result_content c :: map snd (tool_results newm) =
                returned ([EvCallTool s n a (inr c)] ++ t1 ++ new)).
        unfold returned in *. rewrite !omap_app, Hs1, Hc. reflexivity.
    + cbn in H. apply IH in H. exact H.
Qed.


Lemma multi_round_run v m :
  Multi.round v m =
  let tools := Multi.available_tools (self m) in
  match messages_create E (world m) tools (render m) with
  | (w, inl e) =>
      (emit (EvCreate tools (render m) (inl e)) (set_world w m), Raise e)
  | (w, inr resp) =>
      for_in resp (Multi.for_content resp (length (heap m))) v
        (set_heap (heap m ++ [[]])
           (emit (EvCreate tools (render m) (inr resp)) (set_world w m)))
  end.
Proof.
  unfold Multi.round, Multi._get_claude_response, anthropic_messages_create,
    external, get_self, new_list.
  rewrite !run_bind. cbn.
  destruct (messages_create E _ _ _) as [w [e|resp]]; reflexivity.
Qed.

Lemma multi_for_prefix resp l pre v m :
  (length resp =? 1)%nat = false ->
  Forall (fun b => is_tool_use b = false) pre ->
  exists h,
    for_in pre (Multi.for_content resp l) v m =
    (set_heap h (set_trace (trace m ++ map EvPrint (texts pre)) m),
     Return v) /\
    length h = length (heap m) /\
    forall l', l' <> l -> h !! l' = heap m !! l'.
Proof.
  intros Hlen Hpre. revert m.
  induction Hpre as [|b pre Hb _ IH]; intros m.
  - exists (heap m). destruct m as [w t h ms b]. cbn.
    rewrite app_nil_r. auto.
  - destruct b as [t| |]; try discriminate; cbn [for_in]; rewrite run_bind.
    + rewrite multi_for_content_text, Hlen.
      match goal with |- context [for_in pre _ v ?m1] =>
        destruct (IH m1) as (h & Hrun & Hl & Hh) end.
      exists h. rewrite Hrun. cbn in *. split; [|split].
      * unfold set_heap, set_trace; cbn. rewrite <- app_assoc. reflexivity.
      * rewrite Hl. apply length_alter.
      * intros l' Hne. rewrite Hh by exact Hne.
        apply list_lookup_alter_ne. congruence.
    + cbn. apply IH.
Qed.

Lemma render_frame (m m' : Machine E Multi.MCPChatBot) :
  well_formed m ->
  messages m' = messages m ->
  (forall l, l < length (heap m) -> heap m' !! l = heap m !! l) ->
  render m' = render m.
Proof.
  unfold well_formed, render. intros Hwf -> Hh.
  induction Hwf as [|x ms Hx _ IH]; [reflexivity|].
  cbn. rewrite IH. f_equal.
  destruct x as [c|l|i c]; cbn; [reflexivity| |reflexivity].
  rewrite Hh by exact Hx. reflexivity.
Qed.

End MultiRound.

(** C9.  In the multi-server client, a round whose response is two or more
    blocks, all text, displays the texts, appends nothing to the transcript
    and does not end the loop: the next round invokes the model with the
    same transcript. *)
Theorem text_only_response_repeats (E : Outside)
    (m : Machine E Multi.MCPChatBot) (fuel : nat) (w : World E)
    (resp : list ContentBlock) :
  well_formed m ->
  2 <= length resp ->
  Forall (fun b => is_text b = true) resp ->
  messages_create E (world m) (Multi.available_tools (self m)) (render m)
    = (w, inr resp) ->
  exists m',
    Multi.round true m = (m', Return true) /\
    Multi.while_process_query (S fuel) true m =
      Multi.while_process_query fuel true m' /\
    trace m' = trace m ++
      EvCreate (Multi.available_tools (self m)) (render m) (inr resp)
      :: map EvPrint (texts resp) /\
    messages m' = messages m /\
    render m' = render m /\
    self m' = self m /\
    well_formed m'.
Proof.
  intros Hwf Hlen Hts Hcreate.
  assert ((length resp =? 1)%nat = false) as Hne by (apply Nat.eqb_neq; lia).
  pose proof (multi_round_run true m) as Hround. cbn zeta in Hround.
  rewrite Hcreate in Hround.
  match type of Hround with context [for_in resp ?body true ?m1] =>
    destruct (multi_for_prefix resp (length (heap m)) resp true m1 Hne)
      as (h & Hrun & Hl & Hh);
      [eapply Forall_impl; [exact Hts|]; intros [| |]; cbn; congruence|]
  end.
  rewrite Hrun in Hround. cbn in Hl, Hh.
  eexists. split; [exact Hround|].
  split; [cbn [Multi.while_process_query]; rewrite run_bind, Hround; reflexivity|].
  split; [cbn; rewrite <- app_assoc; reflexivity|].
  split; [reflexivity|].
  assert (forall l, l < length (heap m) -> h !! l = heap m !! l) as Hframe.
  { intros l Hlt. rewrite Hh by lia. apply lookup_app_l. exact Hlt. }
  split; [apply render_frame; [exact Hwf|reflexivity|exact Hframe]|].
  split; [reflexivity|].
  unfold well_formed in *. cbn.
  eapply Forall_impl; [exact Hwf|].
  intros [c|l|i c]; cbn; auto. rewrite Hl, length_app. cbn. lia.
Qed.

(** C1, as amended.  In the multi-server client, a round that does not raise
    (every tool name of the response is registered and every tool call
    returns) dispatches one tool invocation per tool-use block of the
    response, in the order of the blocks and with the name and input of each
    block, and appends one tool-result message per tool-use block, in the
    same order, each with the id of its block and the content its invocation
    returned. *)
Theorem multi_dispatches_every_tool_use (E : Outside)
    (m m' : Machine E Multi.MCPChatBot) (w : World E)
    (resp : list ContentBlock) (v : bool) :
  messages_create E (world m) (Multi.available_tools (self m)) (render m)
    = (w, inr resp) ->
  Multi.round true m = (m', Return v) ->
  exists new newm,
    trace m' = trace m ++
      EvCreate (Multi.available_tools (self m)) (render m) (inr resp) :: new /\
    messages m' = messages m ++ newm /\
    dispatched new = map (fun u => (u.1.2, u.2)) (tool_uses resp) /\
    map fst (tool_results newm) = map (fun u => u.1.1) (tool_uses resp) /\
    map snd (tool_results newm) = returned new.
Proof.
  intros Hcreate Hround.
  rewrite multi_round_run in Hround. cbn zeta in Hround.
  rewrite Hcreate in Hround.
  apply multi_for_content_spec in Hround
    as (new & newm & Ht & Hm & _ & Hd & Hi & Hc).
  exists new, newm. cbn in Ht, Hm.
  rewrite Ht, Hm, <- app_assoc. auto.
Qed.

(** ** One round of the single-server client *)


Section SingleRound.
Context {E : Outside}.
Implicit Types m : Machine E Single.MCP_ChatBot.

Lemma single_for_content_text resp t m :
  Single.for_content resp (TextBlock t) m =
  (emit (EvPrint t) m,
   Return (if (length resp =? 1)%nat then Some false else None)).
Proof.
  unfold Single.for_content, print. rewrite run_bind.
  destruct (length resp =? 1)%nat; reflexivity.
Qed.

Lemma single_for_content_tool_use resp i n a m :
  Single.for_content resp (ToolUseBlock i n a) m =
  match Single.session (self m) with
  | None => (m, Raise AttributeError)
  | Some s =>
      match call_tool E (world m) s n a with
      | (w, inl e) =>
          (emit (EvCallTool s n a (inl e)) (set_world w m), Raise e)
      | (w, inr c) =>
          (set_messages
             (messages m ++
                [AssistantMessage (length (heap m));
                 ToolResultMessage i (result_content c)])
             (set_heap (heap m ++ [[ToolUseBlock i n a]])
                (emit (EvCallTool s n a (inr c)) (set_world w m))),
           Return (Some true))
      end
  end.
Proof.
  unfold Single.for_content. rewrite try_reraise.
  unfold Single.self_session_call_tool, session_call_tool, external,
    get_self, new_list, extend_messages.
  rewrite !run_bind. cbn.
  destruct (Single.session (self m)) as [s|]; [|reflexivity].
  cbn. destruct (call_tool E (world m) s n a) as [w [e|c]]; reflexivity.
Qed.

Lemma single_for_prefix resp pre m :
  Forall (fun b => is_tool_use b = false) pre ->
  (length resp =? 1)%nat = false ->
  for_in_return pre (Single.for_content resp) m =
  (set_trace (trace m ++ map EvPrint (texts pre)) m, Return None).
Proof.
  intros Hpre Hlen. revert m.
  induction Hpre as [|b pre Hb _ IH]; intros m.
  - destruct m as [w t h ms b]. cbn. rewrite app_nil_r. reflexivity.
  - destruct b as [t| |]; try discriminate; cbn [for_in_return];
      rewrite run_bind.
    + rewrite single_for_content_text, Hlen, IH. cbn.
      unfold set_trace; cbn. rewrite <- app_assoc. reflexivity.
    + cbn. rewrite IH. reflexivity.
Qed.

Lemma single_for_content_at_most_one resp bs m :
  exists new,
    trace (for_in_return bs (Single.for_content resp) m).1 = trace m ++ new /\
    length (dispatched new) <= 1 /\
    ((for_in_return bs (Single.for_content resp) m).2 = Return None ->
     dispatched new = []) /\
    model_calls new = 0 /\
    ~ In EvWarning new /\
    (for_in_return bs (Single.for_content resp) m).2 <> OutOfFuel.
Proof.
  revert m. induction bs as [|b bs IH]; intros m.
  - exists []. cbn. rewrite app_nil_r. repeat split; auto.
  - cbn [for_in_return]. rewrite run_bind. destruct b as [t|i n a|].
    + rewrite single_for_content_text.
      destruct (length resp =? 1)%nat.
      * exists [EvPrint t]. cbn.
        repeat split; try discriminate; auto. intros [H|[]]; discriminate.
      * destruct (IH (emit (EvPrint t) m))
          as (new & Ht & Hle & Hnone & Hmc & Hw & Hf).
        exists (EvPrint t :: new). rewrite Ht. cbn. rewrite <- app_assoc.
        repeat split; auto. intros [H|H]; [discriminate|auto].
    + rewrite single_for_content_tool_use.
      destruct (Single.session (self m)) as [s|].
      * destruct (call_tool E (world m) s n a) as [w [e|c]].
        -- exists [EvCallTool s n a (inl e)]. cbn.
           repeat split; try discriminate; auto. intros [H|[]]; discriminate.
        -- exists [EvCallTool s n a (inr c)]. cbn.
           repeat split; try discriminate; auto. intros [H|[]]; discriminate.
      * exists []. cbn. rewrite app_nil_r.
        repeat split; try discriminate; auto.
    + cbn. apply IH.
Qed.

Lemma single_process_content_blocks_run resp m :
  Single._process_content_blocks resp m =
  match for_in_return resp (Single.for_content resp) m with
  | (m', Return (Some v)) => (m', Return v)
  | (m', Return None) => (m', Return false)
  | (m', Raise e) => (m', Raise e)
  | (m', OutOfFuel) => (m', OutOfFuel)
  end.
Proof.
  unfold Single._process_content_blocks. rewrite run_bind.
  destruct (for_in_return _ _ _) as [m' [[v|]|e|]]; reflexivity.
Qed.

End SingleRound.

(** C10.  In the single-server client, the processing of a response
    dispatches at most one tool invocation; and when the first tool-use
    block of the response is called with success, the processing returns
    [True] at once: what is displayed is the texts before that block, what
    is appended is the assistant message with that block alone and its tool
    result, and the blocks after it leave no trace. *)
Theorem single_stops_at_first_tool_use (E : Outside)
    (m : Machine E Single.MCP_ChatBot) (resp : list ContentBlock) :
  (exists new,
     trace (Single._process_content_blocks resp m).1 = trace m ++ new /\
     length (dispatched new) <= 1) /\
  (forall pre i n a post s w c,
     resp = pre ++ ToolUseBlock i n a :: post ->
     Forall (fun b => is_tool_use b = false) pre ->
     Single.session (self m) = Some s ->
     call_tool E (world m) s n a = (w, inr c) ->
     Single._process_content_blocks resp m =
     ({| world := w;
         trace := trace m ++ map EvPrint (texts pre) ++
                  [EvCallTool s n a (inr c)];
         heap := heap m ++ [[ToolUseBlock i n a]];
         messages := messages m ++
                     [AssistantMessage (length (heap m));
                      ToolResultMessage i (result_content c)];
         self := self m |}, Return true)).
Proof.
  split.
  - destruct (single_for_content_at_most_one resp resp m)
      as (new & Ht & Hle & _).
    exists new. split; [|exact Hle].
    rewrite single_process_content_blocks_run.
    destruct (for_in_return _ _ _) as [m' [[v|]|e|]]; exact Ht.
  - intros pre i n a post s w c -> Hpre Hs Hcall.
    rewrite single_process_content_blocks_run, for_in_return_app.
    destruct pre as [|b pre].
    + cbn [for_in_return app]. rewrite !run_ret, run_bind.
      rewrite single_for_content_tool_use, Hs, Hcall.
      cbn. reflexivity.
    + rewrite single_for_prefix; [|exact Hpre|].
      2:{ apply Nat.eqb_neq. cbn. rewrite length_app. cbn. lia. }
      cbn [for_in_return]. rewrite run_bind.
      rewrite single_for_content_tool_use. cbn [self set_trace world].
      rewrite Hs, Hcall.
      generalize (map EvPrint (texts (b :: pre))). intros ps.
      cbn. rewrite app_assoc. reflexivity.
Qed.

(** ** A response of one text block *)


Section SingleText.
Context {E : Outside}.

Lemma multi_round_single_text (m : Machine E Multi.MCPChatBot) w t v :
  messages_create E (world m) (Multi.available_tools (self m))
                  (render m) = (w, inr [TextBlock t]) ->
  exists m',
    Multi.round v m = (m', Return false) /\
    trace m' = trace m ++
      [EvCreate (Multi.available_tools (self m)) (render m)
                (inr [TextBlock t]); EvPrint t] /\
    messages m' = messages m.
Proof.
  intros H. eexists. split.
  - unfold Multi.round, Multi._get_claude_response,
      anthropic_messages_create, external, get_self.
    rewrite !run_bind. rewrite H. cbn. reflexivity.
  - cbn. split; [|reflexivity]. rewrite <- app_assoc. reflexivity.
Qed.

Lemma single_round_single_text (m : Machine E Single.MCP_ChatBot) w t :
  messages_create E (world m) (Single.available_tools (self m))
                  (render m) = (w, inr [TextBlock t]) ->
  exists m',
    Single.round m = (m', Return false) /\
    trace m' = trace m ++
      [EvCreate (Single.available_tools (self m)) (render m)
                (inr [TextBlock t]); EvPrint t] /\
    messages m' = messages m.
Proof.
  intros H. eexists. split.
  - unfold Single.round, Single._get_claude_response.
    rewrite run_bind, try_reraise.
    unfold anthropic_messages_create, external, get_self.
    rewrite !run_bind. rewrite H. cbn. reflexivity.
  - cbn. split; [|reflexivity]. rewrite <- app_assoc. reflexivity.
Qed.

End SingleText.

(** ** Tool results stay aligned with tool invocations *)

Section Keeps.
Context {E : Outside} {B : Type}.
Implicit Types m : Machine E B.

Lemma no_failure_app (t1 t2 : list Event) :
  no_failure t1 -> no_failure t2 -> no_failure (t1 ++ t2).
Proof. unfold no_failure. intros H1 H2. apply Forall_app. auto. Qed.

Lemma faithful_returned {A} new newm (a : A) :
  faithful new newm (Return a) -> no_failure new.
Proof.
  intros [_ [H|(pre & ev & e & _ & _ & _ & H)]]; [exact H|discriminate].
Qed.

Lemma faithful_seq {A C} new1 newm1 (a : A) new2 newm2 (r : Result C) :
  faithful new1 newm1 (Return a) ->
  faithful new2 newm2 r ->
  faithful (new1 ++ new2) (newm1 ++ newm2) r.
Proof.
  intros H1 H2. pose proof (faithful_returned _ _ _ H1) as Hnf.
  destruct H1 as [Hc1 _], H2 as [Hc2 Hf2]. split.
  - unfold tool_results, returned in *.
    rewrite !omap_app, map_app, Hc1, Hc2. reflexivity.
  - destruct Hf2 as [H|(pre & ev & e & -> & Hpre & Hev & ->)].
    + left. apply no_failure_app; assumption.
    + right. exists (new1 ++ pre), ev, e. rewrite app_assoc.
      repeat split; auto. apply no_failure_app; assumption.
Qed.

(** A run that calls no tool and appends no tool result. *)
Lemma faithful_silent {A} new newm (r : Result A) :
  returned new = [] -> no_failure new -> tool_results newm = [] ->
  faithful new newm r.
Proof. intros Hs Hn Hm. split; [rewrite Hs, Hm; reflexivity|left; exact Hn]. Qed.

Lemma keeps_silent {A} (c : M E B A) :
  (forall m, exists new newm,
      trace (c m).1 = trace m ++ new /\
      messages (c m).1 = messages m ++ newm /\
      returned new = [] /\ no_failure new /\ tool_results newm = []) ->
  keeps c.
Proof.
  intros H m. destruct (H m) as (new & newm & Ht & Hm & Hs & Hn & Hr).
  exists new, newm. auto using faithful_silent.
Qed.

Lemma keeps_unchanged {A} (c : M E B A) :
  (forall m, trace (c m).1 = trace m /\ messages (c m).1 = messages m) ->
  keeps c.
Proof.
  intros H. apply keeps_silent. intros m. destruct (H m) as [Ht Hm].
  exists [], []. rewrite !app_nil_r. repeat split; auto. constructor.
Qed.

Lemma keeps_ret {A} (a : A) : keeps (mret a : M E B A).
Proof. apply keeps_unchanged. intros m. split; reflexivity. Qed.

Lemma keeps_raise {A} e : keeps (raise e : M E B A).
Proof. apply keeps_unchanged. intros m. split; reflexivity. Qed.

Lemma keeps_out_of_fuel {A} : keeps (out_of_fuel : M E B A).
Proof. apply keeps_unchanged. intros m. split; reflexivity. Qed.

Lemma keeps_get_self : keeps (get_self : M E B B).
Proof. apply keeps_unchanged. intros m. split; reflexivity. Qed.

Lemma keeps_new_list l : keeps (new_list l : M E B loc).
Proof. apply keeps_unchanged. intros m. split; reflexivity. Qed.

Lemma keeps_list_append l b : keeps (list_append l b : M E B unit).
Proof. apply keeps_unchanged. intros m. split; reflexivity. Qed.

Lemma keeps_print t : keeps (print t : M E B unit).
Proof.
  apply keeps_silent. intros m. exists [EvPrint t], [].
  rewrite app_nil_r. repeat split; auto. repeat constructor.
Qed.

Lemma keeps_warn : keeps (warn : M E B unit).
Proof.
  apply keeps_silent. intros m. exists [EvWarning], [].
  rewrite app_nil_r. repeat split; auto. repeat constructor.
Qed.

Lemma keeps_announce l :
  keeps (extend_messages [AssistantMessage l] : M E B unit).
Proof.
  apply keeps_silent. intros m. exists [], [AssistantMessage l].
  rewrite app_nil_r. repeat split; auto. constructor.
Qed.

Lemma keeps_create tools : keeps (anthropic_messages_create tools : M E B _).
Proof.
  apply keeps_silent. intros m.
  unfold anthropic_messages_create, external.
  destruct (messages_create E (world m) tools (render m)) as [w r].
  exists [EvCreate tools (render m) r], []. cbn.
  rewrite app_nil_r. repeat split; auto. repeat constructor.
Qed.

Lemma keeps_bind {A C} (c : M E B A) (k : A -> M E B C) :
  keeps c -> (forall a, keeps (k a)) -> keeps (c ≫= k).
Proof.
  intros Hc Hk m. rewrite run_bind.
  destruct (Hc m) as (new1 & newm1 & Ht1 & Hm1 & Hf1).
  destruct (c m) as [m1 [a|e|]]; cbn in Ht1, Hm1, Hf1.
  - destruct (Hk a m1) as (new2 & newm2 & Ht2 & Hm2 & Hf2).
    exists (new1 ++ new2), (newm1 ++ newm2).
    rewrite Ht2, Hm2, Ht1, Hm1, <- !app_assoc.
    split; [reflexivity|]. split; [reflexivity|].
    eapply faithful_seq; eassumption.
  - exists new1, newm1. cbn. split; [exact Ht1|]. split; [exact Hm1|].
    destruct Hf1 as [Hc1 Hf1]. split; [exact Hc1|].
    destruct Hf1 as [H|(pre & ev & e' & -> & Hpre & Hev & Hr)];
      [left; exact H|right].
    exists pre, ev, e'. inversion Hr; subst. auto.
  - exists new1, newm1. cbn. split; [exact Ht1|]. split; [exact Hm1|].
    destruct Hf1 as [Hc1 Hf1]. split; [exact Hc1|].
    destruct Hf1 as [H|(pre & ev & e' & -> & Hpre & Hev & Hr)];
      [left; exact H|discriminate].
Qed.

Lemma keeps_try_reraise {A} (c : M E B A) :
  keeps c -> keeps (try_except c (fun e => raise e)).
Proof. intros Hc m. rewrite try_reraise. apply Hc. Qed.

Lemma keeps_for_in {A V} (xs : list A) (body : A -> V -> M E B V) v :
  (forall x v, keeps (body x v)) -> keeps (for_in xs body v).
Proof.
  intros Hb. revert v. induction xs as [|x xs IH]; intros v.
  - apply keeps_ret.
  - cbn [for_in]. apply keeps_bind; [apply Hb|apply IH].
Qed.

Lemma keeps_for_in_return {A R} (xs : list A)
    (body : A -> M E B (option R)) :
  (forall x, keeps (body x)) -> keeps (for_in_return xs body).
Proof.
  intros Hb. induction xs as [|x xs IH].
  - apply keeps_ret.
  - cbn [for_in_return]. apply keeps_bind; [apply Hb|].
    intros [r|]; [apply keeps_ret|apply IH].
Qed.

(** A tool invocation followed by the tool-result message for it. *)
Lemma keeps_call_then_result {A} s n a (k : CallToolResult -> M E B A) i :
  (forall c m, exists mid,
      trace (k c m).1 = trace m /\
      messages (k c m).1
      = messages m ++ mid ++ [ToolResultMessage i (result_content c)] /\
      tool_results mid = [] /\
      exists v, (k c m).2 = Return v) ->
  keeps (session_call_tool s n a ≫= k).
Proof.
  intros Hk m. rewrite run_bind. unfold session_call_tool, external.
  destruct (call_tool E (world m) s n a) as [w [e|c]].
  - exists [EvCallTool s n a (inl e)], []. cbn. rewrite app_nil_r.
    repeat split; auto. right. exists [], (EvCallTool s n a (inl e)), e.
    repeat split; auto. constructor.
  - match goal with |- context [k c ?m1] =>
      destruct (Hk c m1) as (mid & Ht & Hm & Hmid & v & Hv) end.
    exists [EvCallTool s n a (inr c)],
           (mid ++ [ToolResultMessage i (result_content c)]).
    rewrite Ht, Hm. cbn [messages trace emit set_trace set_world].
    repeat split; auto.
    + unfold tool_results in *. rewrite omap_app, Hmid. reflexivity.
    + left. repeat constructor.
Qed.

End Keeps.

Section KeepsPrograms.
Context {E : Outside}.

Lemma keeps_multi_handle_tool_call i n a :
  keeps (Multi._handle_tool_call (E := E) i n a).
Proof.
  unfold Multi._handle_tool_call, Multi.lookup_session.
  intros m. rewrite !run_bind. cbn [get_self].
  destruct (Multi.tool_to_session (self m) !! n) as [s|].
  - apply (keeps_call_then_result s n a _ i). intros c m1.
    exists []. cbn. repeat split; eauto.
  - exists [], []. cbn. rewrite !app_nil_r. repeat split; auto.
    left. constructor.
Qed.

Lemma keeps_multi_for_content resp l b v :
  keeps (Multi.for_content (E := E) resp l b v).
Proof.
  destruct b as [t|i n a|]; cbn [Multi.for_content].
  - apply keeps_bind; [apply keeps_print|intros _].
    apply keeps_bind; [apply keeps_list_append|intros _].
    destruct (length resp =? 1)%nat; apply keeps_ret.
  - apply keeps_bind; [apply keeps_list_append|intros _].
    apply keeps_bind; [apply keeps_announce|intros _].
    apply keeps_bind; [apply keeps_multi_handle_tool_call|intros _].
    destruct resp as [|[t0| |] [|]]; try apply keeps_ret.
    apply keeps_bind; [apply keeps_print|intros ?; apply keeps_ret].
  - apply keeps_ret.
Qed.

Lemma keeps_multi_round v : keeps (Multi.round (E := E) v).
Proof.
  unfold Multi.round, Multi._get_claude_response.
  apply keeps_bind.
  - apply keeps_bind; [apply keeps_get_self|intros b; apply keeps_create].
  - intros resp. apply keeps_bind; [apply keeps_new_list|intros l].
    apply keeps_for_in. intros b v'. apply keeps_multi_for_content.
Qed.

Lemma keeps_multi_while fuel v :
  keeps (Multi.while_process_query (E := E) fuel v).
Proof.
  revert v. induction fuel as [|fuel IH]; intros [|]; cbn;
    try apply keeps_ret; try apply keeps_out_of_fuel.
  apply keeps_bind; [apply keeps_multi_round|intros v; apply IH].
Qed.

Lemma keeps_single_for_content resp b :
  keeps (Single.for_content (E := E) resp b).
Proof.
  destruct b as [t|i n a|]; cbn [Single.for_content].
  - apply keeps_bind; [apply keeps_print|intros _].
    destruct (length resp =? 1)%nat; apply keeps_ret.
  - apply keeps_try_reraise. unfold Single.self_session_call_tool.
    intros m. rewrite !run_bind. cbn [get_self].
    destruct (Single.session (self m)) as [s|].
    + apply (keeps_call_then_result s n a _ i). intros c m1.
      exists [AssistantMessage (length (heap m1))]. cbn.
      repeat split; eauto.
    + exists [], []. cbn. rewrite !app_nil_r. repeat split; auto.
      left. constructor.
  - apply keeps_ret.
Qed.

Lemma keeps_single_round : keeps (Single.round (E := E)).
Proof.
  unfold Single.round, Single._get_claude_response,
    Single._process_content_blocks.
  apply keeps_bind.
  - apply keeps_try_reraise.
    apply keeps_bind; [apply keeps_get_self|intros b; apply keeps_create].
  - intros resp. apply keeps_bind.
    + apply keeps_for_in_return. intros b. apply keeps_single_for_content.
    + intros [v|]; apply keeps_ret.
Qed.

Lemma keeps_single_while fuel i :
  keeps (Single.while_iteration (E := E) fuel i).
Proof.
  revert i. induction fuel as [|fuel IH]; intros i; cbn;
    destruct (i <=? Single.max_iterations)%nat;
    try apply keeps_ret; try apply keeps_out_of_fuel.
  apply keeps_bind; [apply keeps_single_round|intros v].
  destruct v; cbn; [apply IH|apply keeps_ret].
Qed.

End KeepsPrograms.

Lemma flagged_returned (t : list Event) n c :
  In (n, c) (flagged t) -> In c (returned t).
Proof.
  induction t as [|ev t IH]; [intros []|].
  destruct ev as [| | | | | | | | |s n' a' [e|r]| |]; try exact IH.
  cbn. destruct (isError r); cbn.
  - intros [H|H]; [left; congruence|right; exact (IH H)].
  - intros H. right. exact (IH H).
Qed.

(** C5, as amended.  In both clients, over a whole turn, the tool-result
    messages of the transcript carry exactly the contents of the results the
    tool invocations returned, in order, whatever the error flag of a result;
    so an invocation that raised has no tool-result message, and an
    invocation that raised is the last event of the turn, whose outcome is
    the exception that invocation raised; and the content of a result that
    was returned with its error flag set is in a tool-result message. *)
Theorem failed_tool_call_aborts_turn (E : Outside) (fuel : nat)
    (query : string) :
  (forall m : Machine E Multi.MCPChatBot,
     exists new,
       trace (Multi.process_query fuel query m).1 = trace m ++ new /\
       faithful new (messages (Multi.process_query fuel query m).1)
                (Multi.process_query fuel query m).2 /\
       forall n c,
         In (n, c) (flagged new) ->
         In c (map snd (tool_results
                          (messages (Multi.process_query fuel query m).1)))) /\
  (forall m : Machine E Single.MCP_ChatBot,
     exists new,
       trace (Single.process_query fuel query m).1 = trace m ++ new /\
       faithful new (messages (Single.process_query fuel query m).1)
                (Single.process_query fuel query m).2 /\
       forall n c,
         In (n, c) (flagged new) ->
         In c (map snd (tool_results
                          (messages (Single.process_query fuel query m).1)))).
Proof.
  split; intros m.
  - unfold Multi.process_query. rewrite run_bind. cbn [assign_messages].
    destruct (keeps_multi_while fuel true (set_messages [UserMessage query] m))
      as (new & newm & Ht & Hm & Hf).
    exists new. split; [exact Ht|]. rewrite Hm.
    destruct Hf as [Hc Hf]. split; [split; [exact Hc|exact Hf]|].
    intros n c H. apply flagged_returned in H.
    change (In c (map snd (tool_results newm))). rewrite Hc. exact H.
  - unfold Single.process_query. rewrite run_bind. cbn [assign_messages].
    rewrite try_reraise.
    assert (keeps (iteration ← Single.while_iteration (E := E) fuel 1;
                   if (Single.max_iterations <? iteration)%nat
                   then warn else mret tt)) as Hk.
    { apply keeps_bind; [apply keeps_single_while|intros j].
      destruct (Single.max_iterations <? j)%nat;
        [apply keeps_warn|apply keeps_ret]. }
    destruct (Hk (set_messages [UserMessage query] m))
      as (new & newm & Ht & Hm & Hf).
    exists new. split; [exact Ht|]. rewrite Hm.
    destruct Hf as [Hc Hf]. split; [split; [exact Hc|exact Hf]|].
    intros n c H. apply flagged_returned in H.
    change (In c (map snd (tool_results newm))). rewrite Hc. exact H.
Qed.


(** ** The iteration ceiling of the single-server client *)

Lemma model_calls_app (t1 t2 : list Event) :
  model_calls (t1 ++ t2) = model_calls t1 + model_calls t2.
Proof. unfold model_calls. rewrite omap_app, length_app. reflexivity. Qed.

(** Arithmetic on the iteration counter, with the ceiling unfolded. *)
Ltac ceiling_lia := unfold Single.max_iterations in *; cbn in *; lia.

Section Ceiling.
Context {E : Outside}.
Implicit Types m : Machine E Single.MCP_ChatBot.

Lemma single_round_run m :
  Single.round m =
  let tools := Single.available_tools (self m) in
  match messages_create E (world m) tools (render m) with
  | (w, inl e) =>
      (emit (EvCreate tools (render m) (inl e)) (set_world w m), Raise e)
  | (w, inr resp) =>
      Single._process_content_blocks resp
        (emit (EvCreate tools (render m) (inr resp)) (set_world w m))
  end.
Proof.
  unfold Single.round, Single._get_claude_response.
  rewrite run_bind, try_reraise.
  unfold anthropic_messages_create, external, get_self.
  rewrite !run_bind. cbn.
  destruct (messages_create E _ _ _) as [w [e|resp]]; reflexivity.
Qed.

Lemma single_round_trace m :
  exists new,
    trace (Single.round m).1 = trace m ++ new /\
    model_calls new = 1 /\
    ~ In EvWarning new /\
    (Single.round m).2 <> OutOfFuel.
Proof.
  rewrite single_round_run. cbn zeta.
  destruct (messages_create E _ _ _) as [w [e|resp]].
  - eexists [_]. cbn. repeat split; auto; try discriminate.
    intros [H|[]]; discriminate.
  - rewrite single_process_content_blocks_run.
    match goal with |- context [for_in_return resp _ ?m1] =>
      destruct (single_for_content_at_most_one resp resp m1)
        as (new & Ht & _ & _ & Hmc & Hw & Hf) end.
    exists (EvCreate (Single.available_tools (self m)) (render m) (inr resp)
            :: new).
    destruct (for_in_return _ _ _) as [m' [[v|]|e|]]; cbn in *;
      rewrite Ht, <- app_assoc;
      (split; [reflexivity|]); (split; [rewrite <- Hmc; reflexivity|]);
      (split; [intros [H|H]; [discriminate|auto]|]); congruence.
Qed.

Lemma single_while_bound fuel i m :
  Single.max_iterations + 1 - i <= fuel ->
  exists new,
    trace (Single.while_iteration fuel i m).1 = trace m ++ new /\
    model_calls new <= Single.max_iterations + 1 - i /\
    ~ In EvWarning new /\
    (Single.while_iteration fuel i m).2 <> OutOfFuel /\
    (forall j, (Single.while_iteration fuel i m).2 = Return j ->
               Single.max_iterations < j ->
               model_calls new = Single.max_iterations + 1 - i).
Proof.
  revert i m. induction fuel as [|fuel IH]; intros i m Hfuel.
  - assert ((i <=? Single.max_iterations)%nat = false) as Hi
      by (apply Nat.leb_gt; ceiling_lia).
    cbn. rewrite Hi. exists []. cbn. rewrite app_nil_r.
    split; [reflexivity|]. split; [change (model_calls []) with 0; ceiling_lia|].
    split; [intros []|].
    split; [discriminate|]. intros j _ _. apply Nat.leb_gt in Hi.
    change (model_calls []) with 0. ceiling_lia.
  - cbn [Single.while_iteration].
    destruct (i <=? Single.max_iterations)%nat eqn:Hi.
    + apply Nat.leb_le in Hi. rewrite run_bind.
      destruct (single_round_trace m) as (new1 & Ht1 & Hmc1 & Hw1 & Hf1).
      destruct (Single.round m) as [m1 [[|]|e|]]; cbn in Ht1, Hf1.
      * cbn [negb].
        destruct (IH (i + 1) m1) as (new2 & Ht2 & Hmc2 & Hw2 & Hf2 & Hj2);
          [ceiling_lia|].
        exists (new1 ++ new2). rewrite Ht2, Ht1, <- app_assoc.
        split; [reflexivity|]. rewrite model_calls_app, Hmc1.
        split; [ceiling_lia|]. split; [rewrite in_app_iff; tauto|].
        split; [exact Hf2|]. intros j Hj Hlt.
        rewrite (Hj2 j Hj Hlt). ceiling_lia.
      * exists new1. cbn. split; [exact Ht1|]. split; [ceiling_lia|].
        split; [exact Hw1|]. split; [discriminate|].
        intros j Hj Hlt. inversion Hj; subst. ceiling_lia.
      * exists new1. cbn. split; [exact Ht1|]. split; [ceiling_lia|].
        split; [exact Hw1|]. split; [discriminate|].
        intros j Hj. discriminate.
      * congruence.
    + apply Nat.leb_gt in Hi. exists []. cbn. rewrite app_nil_r.
      split; [reflexivity|]. split; [change (model_calls []) with 0; ceiling_lia|].
      split; [intros []|].
      split; [discriminate|]. intros j _ _.
      change (model_calls []) with 0. ceiling_lia.
Qed.

Lemma continuing_while n m m' fuel i :
  continuing n m = Some m' ->
  n <= fuel ->
  i + n = Single.max_iterations + 1 ->
  Single.while_iteration fuel i m = (m', Return (Single.max_iterations + 1)).
Proof.
  revert m fuel i. induction n as [|n IH]; intros m fuel i Hc Hfuel Hi.
  - cbn in Hc. inversion Hc; subst m'.
    assert ((i <=? Single.max_iterations)%nat = false) as Hle
      by (apply Nat.leb_gt; ceiling_lia).
    replace (Single.max_iterations + 1) with i by ceiling_lia.
    destruct fuel; cbn; rewrite Hle; reflexivity.
  - destruct fuel as [|fuel]; [ceiling_lia|].
    assert ((i <=? Single.max_iterations)%nat = true) as Hle
      by (apply Nat.leb_le; ceiling_lia).
    cbn [Single.while_iteration continuing] in *. rewrite Hle, run_bind.
    destruct (Single.round m) as [m1 [[|]|e|]]; try discriminate.
    cbn [negb]. apply IH; [exact Hc|ceiling_lia|ceiling_lia].
Qed.

Lemma continuing_trace n m m' :
  continuing n m = Some m' ->
  exists new, trace m' = trace m ++ new /\ model_calls new = n.
Proof.
  revert m. induction n as [|n IH]; intros m Hc.
  - cbn in Hc. inversion Hc; subst. exists []. rewrite app_nil_r. auto.
  - cbn [continuing] in Hc.
    destruct (single_round_trace m) as (new1 & Ht1 & Hmc1 & _ & _).
    destruct (Single.round m) as [m1 [[|]|e|]]; try discriminate.
    destruct (IH m1 Hc) as (new2 & Ht2 & Hmc2).
    exists (new1 ++ new2). cbn in Ht1.
    rewrite Ht2, Ht1, <- app_assoc, model_calls_app. split; [reflexivity|ceiling_lia].
Qed.

End Ceiling.

(** C2, as amended.  In the single-server client, with fuel for
    [max_iterations] rounds the turn always ends, the model is invoked at
    most [max_iterations] times, the warning is shown only after
    [max_iterations] invocations and then the turn returns without raising;
    and when [max_iterations] rounds in a row ask to continue, the turn ends
    with the warning, returning normally. *)
Theorem single_round_ceiling (E : Outside)
    (m : Machine E Single.MCP_ChatBot) (fuel : nat) (query : string) :
  Single.max_iterations <= fuel ->
  (Single.process_query fuel query m).2 <> OutOfFuel /\
  (exists new,
     trace (Single.process_query fuel query m).1 = trace m ++ new /\
     model_calls new <= Single.max_iterations /\
     (In EvWarning new ->
      (Single.process_query fuel query m).2 = Return tt /\
      model_calls new = Single.max_iterations)) /\
  (forall m10,
     continuing Single.max_iterations (set_messages [UserMessage query] m)
       = Some m10 ->
     Single.process_query fuel query m = (emit EvWarning m10, Return tt) /\
     exists new10,
       trace m10 = trace m ++ new10 /\
       model_calls new10 = Single.max_iterations).
Proof.
  intros Hfuel.
  unfold Single.process_query. rewrite run_bind. cbn [assign_messages].
  rewrite try_reraise, run_bind.
  set (m0 := set_messages [UserMessage query] m).
  destruct (single_while_bound fuel 1 m0) as (new & Ht & Hmc & Hw & Hf & Hj);
    [ceiling_lia|].
  replace (Single.max_iterations + 1 - 1) with Single.max_iterations in *
    by ceiling_lia.
  split; [|split].
  - destruct (Single.while_iteration fuel 1 m0) as [m1 [j|e|]];
      cbn -[Nat.ltb] in *; [|intros; discriminate|congruence].
    destruct (Single.max_iterations <? j)%nat; discriminate.
  - destruct (Single.while_iteration fuel 1 m0) as [m1 [j|e|]];
      cbn -[Nat.ltb] in *.
    + destruct (Single.max_iterations <? j)%nat eqn:Hlt.
      * exists (new ++ [EvWarning]). cbn. rewrite Ht, <- app_assoc.
        split; [reflexivity|]. rewrite model_calls_app. cbn.
        apply Nat.ltb_lt in Hlt. rewrite (Hj j eq_refl Hlt).
        split; [ceiling_lia|]. intros _. split; [reflexivity|ceiling_lia].
      * exists new. cbn. split; [exact Ht|]. split; [exact Hmc|].
        intros H. contradiction.
    + exists new. split; [exact Ht|]. split; [exact Hmc|].
      intros H. contradiction.
    + exists new. split; [exact Ht|]. split; [exact Hmc|].
      intros H. contradiction.
  - intros m10 Hc.
    rewrite (continuing_while _ _ _ fuel 1 Hc Hfuel) by ceiling_lia.
    split; [reflexivity|].
    destruct (continuing_trace _ _ _ Hc) as (new10 & Ht10 & Hmc10).
    exists new10. auto.
Qed.


(** ** The multi-server loop on a model that always asks for a tool *)

Section Insistent.
Import Scenario.

Let E := outside insistent (inr two_servers).

Lemma insistent_round (m : Machine E Multi.MCPChatBot) s :
  Multi.tool_to_session (self m) !! "search" = Some s ->
  exists m',
    Multi.round true m = (m', Return true) /\
    self m' = self m /\
    model_calls (trace m') = S (model_calls (trace m)).
Proof.
  intros Hs. rewrite multi_round_run. cbn zeta.
  change (messages_create E (world m) (Multi.available_tools (self m))
            (render m))
    with (((S (world m).1, (world m).2), inr [use_A]) :
            World E * (Exn + list ContentBlock)).
  cbn [for_in]. unfold use_A.
  rewrite run_bind, multi_for_content_tool_use, multi_handle_tool_call_run.
  cbn [announced self set_messages set_heap emit set_trace set_world].
  rewrite Hs. cbn. eexists. split; [reflexivity|]. split; [reflexivity|].
  cbn [trace set_messages emit set_trace set_world announced set_heap].
  rewrite !model_calls_app. cbn. lia.
Qed.

Lemma insistent_loop fuel (m : Machine E Multi.MCPChatBot) s :
  Multi.tool_to_session (self m) !! "search" = Some s ->
  (Multi.while_process_query fuel true m).2 = OutOfFuel /\
  model_calls (trace (Multi.while_process_query fuel true m).1)
  = model_calls (trace m) + fuel.
Proof.
  revert m. induction fuel as [|fuel IH]; intros m Hs.
  - cbn. split; [reflexivity|lia].
  - cbn [Multi.while_process_query]. rewrite run_bind.
    destruct (insistent_round m s Hs) as (m' & -> & Hself & Hmc).
    rewrite <- Hself in Hs. destruct (IH m' Hs) as [Hr Hc].
    split; [exact Hr|]. rewrite Hc, Hmc. lia.
Qed.

Lemma insistent_turn fuel query (m : Machine E Multi.MCPChatBot) s :
  Multi.tool_to_session (self m) !! "search" = Some s ->
  (Multi.process_query fuel query m).2 = OutOfFuel /\
  model_calls (trace (Multi.process_query fuel query m).1)
  = model_calls (trace m) + fuel.
Proof.
  intros Hs. unfold Multi.process_query. rewrite run_bind.
  cbn [assign_messages].
  apply (insistent_loop fuel (set_messages [UserMessage query] m) s Hs).
Qed.

End Insistent.

(** C2 fails as stated on the multi-server client, which has no round
    ceiling: with a model that asks for a tool on every request the loop has
    made eleven invocations, without a warning, and is still running; and no
    number bounds the invocations it makes. *)
Lemma multi_has_no_round_ceiling :
  let run fuel :=
    Multi.process_query fuel "q" (Scenario.connected Scenario.insistent) in
  ((run 11).2 = OutOfFuel /\
   model_calls (trace (run 11).1) = 11 /\
   ~ In EvWarning (trace (run 11).1)) /\
  ~ exists max, forall fuel, model_calls (trace (run fuel).1) <= max.
Proof.
  intros run. split.
  - split; [vm_compute; reflexivity|]. split; [vm_compute; reflexivity|].
    vm_compute. intros H.
    repeat (destruct H as [H|H]; [discriminate|]). exact H.
  - assert (Multi.tool_to_session
              (self (Scenario.connected Scenario.insistent)) !! "search"
            = Some 1) as Hs by (vm_compute; reflexivity).
    subst run. cbv beta.
    generalize dependent (Scenario.connected Scenario.insistent).
    intros m0 Hs [max Hmax]. specialize (Hmax (S max)).
    destruct (insistent_turn (S max) "q" m0 1 Hs) as [_ Hc].
    rewrite Hc in Hmax. clear Hc Hs.
    generalize dependent (model_calls (trace m0)). intros k Hk. lia.
Qed.


(** ** Connecting to the servers *)

Lemma opened_app (t1 t2 : list Event) :
  opened (t1 ++ t2) = opened t1 ++ opened t2.
Proof. apply omap_app. Qed.

Lemma queried_app (t1 t2 : list Event) :
  queried (t1 ++ t2) = queried t1 ++ queried t2.
Proof. apply omap_app. Qed.

Lemma registrations_app (t1 t2 : list Event) :
  registrations (t1 ++ t2) = registrations t1 ++ registrations t2.
Proof. apply flat_map_app. Qed.

Lemma last_registration_app tname regs1 regs2 :
  last_registration tname (regs1 ++ regs2) =
  match last_registration tname regs2 with
  | Some s => Some s
  | None => last_registration tname regs1
  end.
Proof.
  induction regs1 as [|[n s] regs1 IH]; cbn.
  - destruct (last_registration tname regs2); reflexivity.
  - rewrite IH. destruct (last_registration tname regs2); reflexivity.
Qed.

Section Connect.
Context {E : Outside}.
Implicit Types m : Machine E Multi.MCPChatBot.

Lemma for_tools_run s tools m :
  for_in tools (fun tool (_ : unit) => modify_self (Multi.register s tool))
         tt m
  = (set_self (registered s tools (self m)) m, Return tt).
Proof.
  revert m. induction tools as [|tool tools IH]; intros m.
  - destruct m; reflexivity.
  - cbn [for_in]. rewrite run_bind. cbn [modify_self].
    rewrite IH. reflexivity.
Qed.

Lemma registered_lookup s tools b tname :
  Multi.tool_to_session (registered s tools b) !! tname =
  match last_registration tname (map (fun tool => (tool_name tool, s)) tools)
  with
  | Some s' => Some s'
  | None => Multi.tool_to_session b !! tname
  end.
Proof.
  revert b. induction tools as [|tool tools IH]; intros b; [reflexivity|].
  cbn [registered foldl map last_registration].
  fold (registered s tools (Multi.register s tool b)). rewrite IH.
  destruct (last_registration tname _); [reflexivity|].
  cbn [Multi.register Multi.tool_to_session].
  destruct (String.eqb_spec (tool_name tool) tname) as [->|Hne].
  - apply lookup_insert_eq.
  - apply lookup_insert_ne. exact Hne.
Qed.

Lemma registered_sessions s tools b :
  Multi.sessions (registered s tools b) = Multi.sessions b.
Proof.
  revert b. induction tools as [|tool tools IH]; intros b; [reflexivity|].
  cbn [registered foldl]. fold (registered s tools (Multi.register s tool b)).
  rewrite IH. reflexivity.
Qed.

Lemma registered_exit_stack s tools b :
  Multi.exit_stack (registered s tools b) = Multi.exit_stack b.
Proof.
  revert b. induction tools as [|tool tools IH]; intros b; [reflexivity|].
  cbn [registered foldl]. fold (registered s tools (Multi.register s tool b)).
  rewrite IH. reflexivity.
Qed.

Lemma registered_available_tools s tools b :
  Multi.available_tools (registered s tools b) =
  Multi.available_tools b ++ map definition_of tools.
Proof.
  revert b. induction tools as [|tool tools IH]; intros b.
  - cbn. rewrite app_nil_r. reflexivity.
  - cbn [registered foldl]. fold (registered s tools (Multi.register s tool b)).
    rewrite IH. cbn. rewrite <- app_assoc. reflexivity.
Qed.

Lemma last_registration_in tname s' s tools :
  last_registration tname (map (fun tool => (tool_name tool, s)) tools)
  = Some s' -> s' = s.
Proof.
  induction tools as [|tool tools IH]; cbn; [discriminate|].
  destruct (last_registration tname _); [exact IH|].
  destruct (String.eqb _ _); congruence.
Qed.

Lemma external_run {B A} (f : World E -> World E * (Exn + A))
    (ev : Exn + A -> Event) (m : Machine E B) :
  external f ev m =
  match f (world m) with
  | (w, inl e) => (emit (ev (inl e)) (set_world w m), Raise e)
  | (w, inr a) => (emit (ev (inr a)) (set_world w m), Return a)
  end.
Proof. unfold external. destruct (f (world m)) as [w [e|a]]; reflexivity. Qed.

Lemma enter_async_context_run {R} (f : World E -> World E * (Exn + R))
    (ev : Exn + R -> Event) (res : R -> Resource) m :
  Multi.enter_async_context (external f ev) res m =
  match f (world m) with
  | (w, inl e) => (emit (ev (inl e)) (set_world w m), Raise e)
  | (w, inr x) =>
      (set_self (Multi.push (res x) (self m))
         (emit (ev (inr x)) (set_world w m)), Return x)
  end.
Proof.
  unfold Multi.enter_async_context. rewrite run_bind, external_run.
  destruct (f (world m)) as [w [e|x]]; reflexivity.
Qed.

Lemma connect_to_server_cases server_name cfg m :
  exists new,
    trace (Multi.connect_to_server server_name cfg m).1 = trace m ++ new /\
    messages (Multi.connect_to_server server_name cfg m).1 = messages m /\
    heap (Multi.connect_to_server server_name cfg m).1 = heap m /\
    connection cfg (self m) new
      (self (Multi.connect_to_server server_name cfg m).1)
      (Multi.connect_to_server server_name cfg m).2.
Proof.
  unfold Multi.connect_to_server. rewrite try_reraise.
  rewrite run_bind, enter_async_context_run.
  destruct (stdio_client E (world m) cfg) as [w1 [e|t]].
  { eexists. repeat split. constructor. }
  rewrite run_bind, enter_async_context_run.
  cbn [world set_self emit set_trace set_world].
  destruct (client_session E w1 t) as [w2 [e|s]].
  { eexists. cbn. rewrite <- !app_assoc. repeat split. constructor. }
  rewrite run_bind, external_run.
  cbn [world set_self emit set_trace set_world].
  destruct (initialize E w2 s) as [w3 [e|[]]].
  { eexists. cbn. rewrite <- !app_assoc. repeat split. constructor. }
  unfold Multi.sessions_append. rewrite run_bind. cbn [modify_self].
  rewrite run_bind, external_run.
  cbn [world set_self emit set_trace set_world].
  destruct (list_tools E w3 s) as [w4 [e|tools]].
  { eexists. cbn. rewrite <- !app_assoc. repeat split. constructor. }
  rewrite for_tools_run.
  eexists. cbn. rewrite <- !app_assoc. repeat split. constructor.
Qed.

End Connect.

Section Registry.
Context {E : Outside}.
Implicit Types m : Machine E Multi.MCPChatBot.

Lemma connect_to_server_consistent server_name cfg m :
  registry_consistent m ->
  registry_consistent (Multi.connect_to_server server_name cfg m).1.
Proof.
  intros (Hlook & Hin & Hsess).
  destruct (connect_to_server_cases server_name cfg m)
    as (new & Ht & _ & _ & Hc).
  destruct (Multi.connect_to_server server_name cfg m) as [m' r].
  cbn [fst snd] in *. unfold registry_consistent.
  rewrite Ht, registrations_app, queried_app.
  inversion Hc as [e|t e|t s e|t s e|t s tools]; subst; clear Hc;
    cbn [registrations queried flat_map omap app Multi.push
         Multi.tool_to_session Multi.sessions];
    rewrite ?app_nil_r.
  - auto.
  - auto.
  - auto.
  - split; [exact Hlook|]. split; [|rewrite Hsess; reflexivity].
    intros tname s' H. apply in_or_app. left. eauto.
  - split; [|split].
    + intros tname. rewrite registered_lookup, last_registration_app.
      cbn [Multi.tool_to_session]. rewrite Hlook. reflexivity.
    + intros tname s'. rewrite registered_lookup, registered_sessions.
      cbn [Multi.tool_to_session Multi.sessions].
      destruct (last_registration tname _) as [s''|] eqn:Hl.
      * intros H; inversion H; subst.
        apply last_registration_in in Hl as ->.
        apply in_or_app. right. left. reflexivity.
      * intros H. apply in_or_app. left. eauto.
    + rewrite registered_sessions. cbn [Multi.sessions].
      rewrite Hsess. reflexivity.
Qed.

Lemma for_servers_consistent servers m :
  registry_consistent m ->
  registry_consistent (Multi.for_servers servers m).1.
Proof.
  revert m. induction servers as [|[n c] servers IH]; intros m Hm.
  - exact Hm.
  - unfold Multi.for_servers in *. cbn [for_in]. rewrite run_bind.
    pose proof (connect_to_server_consistent n c m Hm) as H1.
    destruct (Multi.connect_to_server n c m) as [m1 [[]|e|]];
      cbn [fst] in *; [apply IH; exact H1|exact H1|exact H1].
Qed.

Lemma connect_to_servers_consistent m :
  registry_consistent m ->
  registry_consistent (Multi.connect_to_servers m).1.
Proof.
  intros Hm. unfold Multi.connect_to_servers.
  rewrite try_reraise, run_bind, external_run.
  destruct (read_config E (world m)) as [w [e|servers]].
  - destruct Hm as (Hlook & Hin & Hsess). unfold registry_consistent. cbn.
    rewrite registrations_app, queried_app. cbn. rewrite !app_nil_r. auto.
  - apply for_servers_consistent.
    destruct Hm as (Hlook & Hin & Hsess). unfold registry_consistent. cbn.
    rewrite registrations_app, queried_app. cbn. rewrite !app_nil_r. auto.
Qed.

Lemma for_servers_opened servers m m' :
  Multi.for_servers servers m = (m', Return tt) ->
  opened (trace m') = opened (trace m) ++ map snd servers.
Proof.
  revert m. induction servers as [|[n c] servers IH]; intros m H.
  - cbn in H. inversion H; subst. cbn. rewrite app_nil_r. reflexivity.
  - unfold Multi.for_servers in *. cbn [for_in] in H. rewrite run_bind in H.
    destruct (connect_to_server_cases n c m) as (new & Ht & _ & _ & Hc).
    destruct (Multi.connect_to_server n c m) as [m1 [[]|e|]];
      cbn [fst snd] in *; try discriminate.
    apply IH in H. rewrite H, Ht, opened_app. cbn [map snd].
    inversion Hc; subst. cbn. rewrite <- app_assoc. reflexivity.
Qed.

Lemma connect_to_server_opened server_name cfg m :
  opened (trace (Multi.connect_to_server server_name cfg m).1)
  = opened (trace m) ++ [cfg].
Proof.
  destruct (connect_to_server_cases server_name cfg m)
    as (new & Ht & _ & _ & Hc).
  rewrite Ht, opened_app. inversion Hc; reflexivity.
Qed.

End Registry.

(** C7.  The registry of a new client is consistent, and connecting to one
    server or to all configured servers keeps it so, whatever the outcome:
    every tool name is bound to one session, that of the last catalog that
    listed the name, catalogs being taken in the order the servers were
    connected; the session is one of [self.sessions]; and [self.sessions]
    holds the sessions in that order. *)
Theorem registry_last_registration_wins (E : Outside) :
  (forall w : World E, registry_consistent (fresh w)) /\
  (forall (m : Machine E Multi.MCPChatBot) server_name server_config,
     registry_consistent m ->
     registry_consistent
       (Multi.connect_to_server server_name server_config m).1) /\
  (forall m : Machine E Multi.MCPChatBot,
     registry_consistent m ->
     registry_consistent (Multi.connect_to_servers m).1).
Proof.
  split; [|split].
  - intros w. split; [|split]; cbn; [intros; apply lookup_empty| |reflexivity].
    intros tname s H. rewrite lookup_empty in H. discriminate.
  - intros m n c. apply connect_to_server_consistent.
  - apply connect_to_servers_consistent.
Qed.

(** C8.  When the servers before an entry of the configuration are connected
    and the connection of that entry fails, [connect_to_servers] raises the
    error of that connection, and the connections attempted are those of the
    entries up to and including it: none is attempted for the entries after
    it. *)
Theorem connection_failure_stops_connecting (E : Outside)
    (m m1 m2 : Machine E Multi.MCPChatBot) (w : World E)
    (pre post : list (string * string)) (server_name server_config : string)
    (e : Exn) :
  let servers := pre ++ (server_name, server_config) :: post in
  read_config E (world m) = (w, inr servers) ->
  Multi.for_servers pre (emit (EvReadConfig (inr servers)) (set_world w m))
    = (m1, Return tt) ->
  Multi.connect_to_server server_name server_config m1 = (m2, Raise e) ->
  Multi.connect_to_servers m = (m2, Raise e) /\
  opened (trace m2) = opened (trace m) ++ map snd pre ++ [server_config].
Proof.
  intros servers Hcfg Hpre Hfail. split.
  - unfold Multi.connect_to_servers.
    rewrite try_reraise, run_bind, external_run, Hcfg.
    unfold Multi.for_servers in *. subst servers.
    rewrite for_in_app, Hpre. cbn [for_in]. rewrite run_bind, Hfail.
    reflexivity.
  - pose proof (connect_to_server_opened server_name server_config m1) as H.
    rewrite Hfail in H. cbn [fst] in H. rewrite H.
    rewrite (for_servers_opened _ _ _ Hpre). cbn.
    rewrite opened_app. cbn. rewrite app_nil_r, <- app_assoc. reflexivity.
Qed.


(** ** The theorems on concrete runs *)

Section Runs.
Import Scenario.

(** C6, where the code departs from it.  In the multi-server client, with a
    response of two tool-use blocks, the assistant message appended for the
    first block reads as holding that block when its tool result is
    appended, and as holding both blocks once the second block is processed:
    the list it refers to is extended in place.  The second assistant
    message refers to the same list, and the model is sent that transcript. *)
Example multi_rewrites_appended_message :
  let resp := [use_A; use_B] in
  let m0 := asked (script [resp]) "q" in
  let after_A := (for_in [use_A] (Multi.for_content resp 0) true m0).1 in
  let after_AB := (for_in resp (Multi.for_content resp 0) true m0).1 in
  messages after_A =
    [UserMessage "q"; AssistantMessage 0;
     ToolResultMessage "A" "result of search"] /\
  render after_A =
    [RUser "q"; RAssistant [use_A]; RToolResult "A" "result of search"] /\
  messages after_AB =
    messages after_A ++
    [AssistantMessage 0; ToolResultMessage "B" "result of fetch"] /\
  render after_AB =
    [RUser "q"; RAssistant [use_A; use_B];
     RToolResult "A" "result of search";
     RAssistant [use_A; use_B]; RToolResult "B" "result of fetch"] /\
  (Multi.round true
     (set_messages [UserMessage "q"] (connected (script [resp])))).1
  = after_AB /\
  requests (trace (Multi.process_query 2 "q" (connected (script [resp]))).1)
  = [[RUser "q"]; render after_AB].
Proof.
  cbv zeta.
  split; [vm_compute; reflexivity|]. split; [vm_compute; reflexivity|].
  split; [vm_compute; reflexivity|]. split; [vm_compute; reflexivity|].
  split; vm_compute; reflexivity.
Qed.

(** C1 fails as stated.  The single-server client, given a response with two
    tool-use blocks, dispatches the first one only and appends one tool
    result, over the whole turn; and the multi-server client, when the first
    of two tool calls fails, dispatches one invocation and appends no tool
    result. *)
Lemma not_every_tool_use_is_dispatched :
  (let run :=
     Single.process_query 11 "q" (single (script [[use_A; use_B]])) in
   run.2 = Return tt /\
   dispatched (trace run.1) = [("search", "x")] /\
   tool_results (messages run.1) = [("A", "result of search")]) /\
  (let run :=
     Multi.process_query 11 "q" (connected (script [[use_broken; use_A]])) in
   run.2 = Raise (Error "tool failed") /\
   dispatched (trace run.1) = [("fetch", "boom")] /\
   tool_results (messages run.1) = []).
Proof.
  cbv zeta.
  split; (split; [vm_compute; reflexivity|]); split; vm_compute; reflexivity.
Qed.

(** C1 on a response with two tool-use blocks. *)
Lemma multi_dispatches_every_tool_use_witness :
  let m := set_messages [UserMessage "q"]
             (connected (script [[use_A; use_B]])) in
  let m' := (Multi.round true m).1 in
  exists new newm,
    trace m' = trace m ++
      EvCreate (Multi.available_tools (self m)) (render m)
               (inr [use_A; use_B]) :: new /\
    messages m' = messages m ++ newm /\
    dispatched new = [("search", "x"); ("fetch", "y")] /\
    map fst (tool_results newm) = ["A"; "B"] /\
    map snd (tool_results newm) = returned new.
Proof.
  intros m m'.
  apply (multi_dispatches_every_tool_use _ m m' (1, 2) [use_A; use_B] true);
    vm_compute; reflexivity.
Defined.

(** C2 on a model that asks for a tool on every request. *)
Lemma single_round_ceiling_witness :
  let run := Single.process_query 10 "q" (single insistent) in
  run.2 <> OutOfFuel /\
  exists new,
    trace run.1 = trace (single insistent) ++ new /\
    model_calls new <= Single.max_iterations /\
    (In EvWarning new ->
     run.2 = Return tt /\ model_calls new = Single.max_iterations).
Proof.
  intros run.
  assert (Single.max_iterations <= 10) as H by (vm_compute; reflexivity).
  destruct (single_round_ceiling _ (single insistent) 10 "q" H)
    as (H1 & H2 & _).
  split; [exact H1|exact H2].
Defined.

(** C7 on two servers that both offer [search]: the second one wins. *)
Lemma registry_last_registration_wins_witness :
  registry_consistent (connected insistent) /\
  Multi.tool_to_session (self (connected insistent)) !! "search" = Some 1.
Proof.
  set (E := outside insistent (inr two_servers)).
  destruct (registry_last_registration_wins E) as (H0 & _ & H2).
  split; [|vm_compute; reflexivity].
  apply (H2 (fresh ((0, 0) : World E))). apply H0.
Defined.

(** C8 on three servers of which the second cannot be launched. *)
Lemma connection_failure_stops_connecting_witness :
  let E := outside insistent
             (inr [("first", "cmd first"); ("second", "bad");
                   ("third", "cmd third")]) in
  let run := Multi.connect_to_servers (fresh ((0, 0) : World E)) in
  run.2 = Raise (Error "cannot launch") /\
  opened (trace run.1) = ["cmd first"; "bad"].
Proof.
  intros E run.
  destruct (connection_failure_stops_connecting E
              (fresh ((0, 0) : World E))
              (Multi.for_servers [("first", "cmd first")]
                 (emit (EvReadConfig
                          (inr [("first", "cmd first"); ("second", "bad");
                                ("third", "cmd third")]))
                    (fresh ((0, 0) : World E)))).1
              run.1 ((0, 0) : World E)
              [("first", "cmd first")] [("third", "cmd third")]
              "second" "bad" (Error "cannot launch")) as [H1 H2];
    try (vm_compute; reflexivity).
  split; [exact (f_equal snd H1)|exact H2].
Defined.

(** C9 on a response of two text blocks. *)
Lemma text_only_response_repeats_witness :
  let resp := [TextBlock "a"; TextBlock "b"] in
  let m := set_messages [UserMessage "q"] (connected (script [resp])) in
  exists m',
    Multi.round true m = (m', Return true) /\ render m' = render m.
Proof.
  intros resp m.
  destruct (text_only_response_repeats _ m 0 (1, 2) resp)
    as (m' & H1 & _ & _ & _ & H2 & _).
  - repeat constructor.
  - cbn. lia.
  - repeat constructor.
  - vm_compute; reflexivity.
  - exists m'. split; assumption.
Defined.

(** C10 on a text block followed by two tool-use blocks. *)
Lemma single_stops_at_first_tool_use_witness :
  let resp := [TextBlock "let me look"; use_A; use_B] in
  let m := set_messages [UserMessage "q"] (single (script [resp])) in
  Single._process_content_blocks resp m =
  ({| world := ((0, 1) : World (outside (script [resp]) (inr two_servers)));
      trace := trace m ++ map EvPrint (texts [TextBlock "let me look"]) ++
               [EvCallTool 0 "search" "x"
                  (inr {| result_content := "result of search";
                          isError := false |})];
      heap := heap m ++ [[use_A]];
      messages := messages m ++
                  [AssistantMessage (length (heap m));
                   ToolResultMessage "A" "result of search"];
      self := self m |}, Return true).
Proof.
  intros resp m.
  destruct (single_stops_at_first_tool_use _ m resp) as [_ H].
  apply (H [TextBlock "let me look"] "A" "search" "x" [use_B] 0
           ((0, 1) : World (outside (script [resp]) (inr two_servers)))
           {| result_content := "result of search"; isError := false |}).
  - reflexivity.
  - repeat constructor.
  - reflexivity.
  - reflexivity.
Defined.

End Runs.


(** ** What a turn is confined to *)

Section Confined.
Context {E : Outside} {B : Type} (P : B -> Event -> Prop).
Implicit Types m : Machine E B.

Lemma confined_unchanged {A} (c : M E B A) :
  (forall m, trace (c m).1 = trace m /\ self (c m).1 = self m) ->
  confined P c.
Proof.
  intros H m. destruct (H m) as [Ht Hs]. exists [].
  rewrite app_nil_r. auto.
Qed.

Lemma confined_ret {A} (a : A) : confined P (mret a : M E B A).
Proof. apply confined_unchanged. intros m. split; reflexivity. Qed.

Lemma confined_raise {A} e : confined P (raise e : M E B A).
Proof. apply confined_unchanged. intros m. split; reflexivity. Qed.

Lemma confined_out_of_fuel {A} : confined P (out_of_fuel : M E B A).
Proof. apply confined_unchanged. intros m. split; reflexivity. Qed.

Lemma confined_get_self : confined P (get_self : M E B B).
Proof. apply confined_unchanged. intros m. split; reflexivity. Qed.

Lemma confined_new_list l : confined P (new_list l : M E B loc).
Proof. apply confined_unchanged. intros m. split; reflexivity. Qed.

Lemma confined_list_append l b : confined P (list_append l b : M E B unit).
Proof. apply confined_unchanged. intros m. split; reflexivity. Qed.

Lemma confined_assign_messages ms :
  confined P (assign_messages ms : M E B unit).
Proof. apply confined_unchanged. intros m. split; reflexivity. Qed.

Lemma confined_extend_messages ms :
  confined P (extend_messages ms : M E B unit).
Proof. apply confined_unchanged. intros m. split; reflexivity. Qed.

Lemma confined_print t :
  (forall b, P b (EvPrint t)) -> confined P (print t : M E B unit).
Proof.
  intros H m. exists [EvPrint t]. repeat split; auto.
Qed.

Lemma confined_warn :
  (forall b, P b EvWarning) -> confined P (warn : M E B unit).
Proof.
  intros H m. exists [EvWarning]. repeat split; auto.
Qed.

Lemma confined_print_error e :
  (forall b, P b (EvError e)) -> confined P (print_error e : M E B unit).
Proof.
  intros H m. exists [EvError e]. repeat split; auto.
Qed.

Lemma confined_external {A} (f : World E -> World E * (Exn + A)) ev :
  (forall b r, P b (ev r)) -> confined P (external f ev : M E B A).
Proof.
  intros H m. unfold external. destruct (f (world m)) as [w r].
  exists [ev r]. repeat split; auto.
Qed.

Lemma confined_bind {A C} (c : M E B A) (k : A -> M E B C) :
  confined P c -> (forall a, confined P (k a)) -> confined P (c ≫= k).
Proof.
  intros Hc Hk m. rewrite run_bind.
  destruct (Hc m) as (new1 & Ht1 & Hs1 & Hp1).
  destruct (c m) as [m1 [a|e|]]; cbn [fst snd] in *.
  - destruct (Hk a m1) as (new2 & Ht2 & Hs2 & Hp2).
    exists (new1 ++ new2). rewrite Ht2, Hs2, Ht1, Hs1, <- app_assoc.
    split; [reflexivity|]. split; [reflexivity|].
    apply Forall_app. rewrite Hs1 in Hp2. auto.
  - exists new1. auto.
  - exists new1. auto.
Qed.

Lemma confined_try_except {A} (c : M E B A) (h : Exn -> M E B A) :
  confined P c -> (forall e, confined P (h e)) ->
  confined P (try_except c h).
Proof.
  intros Hc Hh m. unfold try_except.
  destruct (Hc m) as (new1 & Ht1 & Hs1 & Hp1).
  destruct (c m) as [m1 [a|e|]]; cbn [fst snd] in *.
  - exists new1. auto.
  - destruct (is_Exception e); [|exists new1; auto].
    destruct (Hh e m1) as (new2 & Ht2 & Hs2 & Hp2).
    exists (new1 ++ new2). rewrite Ht2, Hs2, Ht1, Hs1, <- app_assoc.
    split; [reflexivity|]. split; [reflexivity|].
    apply Forall_app. rewrite Hs1 in Hp2. auto.
  - exists new1. auto.
Qed.

Lemma confined_for_in {A V} (xs : list A) (body : A -> V -> M E B V) v :
  (forall x v, confined P (body x v)) -> confined P (for_in xs body v).
Proof.
  intros Hb. revert v. induction xs as [|x xs IH]; intros v.
  - apply confined_ret.
  - cbn [for_in]. apply confined_bind; [apply Hb|apply IH].
Qed.

Lemma confined_for_in_return {A R} (xs : list A)
    (body : A -> M E B (option R)) :
  (forall x, confined P (body x)) -> confined P (for_in_return xs body).
Proof.
  intros Hb. induction xs as [|x xs IH].
  - apply confined_ret.
  - cbn [for_in_return]. apply confined_bind; [apply Hb|].
    intros [r|]; [apply confined_ret|apply IH].
Qed.

(** A request to the model with the catalog [tools b]. *)
Lemma confined_create (tools : B -> list ToolDefinition) :
  (forall b msgs r, P b (EvCreate (tools b) msgs r)) ->
  confined P (b ← get_self; anthropic_messages_create (tools b)
              : M E B (list ContentBlock)).
Proof.
  intros H m. rewrite run_bind. cbn [get_self].
  unfold anthropic_messages_create, external.
  destruct (messages_create E (world m) (tools (self m)) (render m))
    as [w r].
  eexists [_]. repeat split; auto.
Qed.

End Confined.

Section ConfinedTurns.
Context {E : Outside}.

Lemma multi_handle_tool_call_confined i n a :
  confined multi_turn_event (Multi._handle_tool_call (E := E) i n a).
Proof.
  intros m. rewrite multi_handle_tool_call_run.
  destruct (Multi.tool_to_session (self m) !! n) as [s|] eqn:Hs.
  - destruct (call_tool E (world m) s n a) as [w [e|c]];
      eexists [_]; cbn; repeat split; auto.
  - exists []. cbn. rewrite app_nil_r. auto.
Qed.

Lemma multi_for_content_confined resp l b v :
  confined multi_turn_event (Multi.for_content (E := E) resp l b v).
Proof.
  destruct b as [t|i n a|]; cbn [Multi.for_content].
  - apply confined_bind; [apply confined_print; intros; exact I|intros _].
    apply confined_bind; [apply confined_list_append|intros _].
    destruct (length resp =? 1)%nat; apply confined_ret.
  - apply confined_bind; [apply confined_list_append|intros _].
    apply confined_bind; [apply confined_extend_messages|intros _].
    apply confined_bind; [apply multi_handle_tool_call_confined|intros _].
    destruct resp as [|[t0| |] [|]]; try apply confined_ret.
    apply confined_bind; [apply confined_print; intros; exact I|intros _].
    apply confined_ret.
  - apply confined_ret.
Qed.

Lemma multi_round_confined v :
  confined multi_turn_event (Multi.round (E := E) v).
Proof.
  unfold Multi.round, Multi._get_claude_response.
  apply confined_bind.
  - apply (confined_create multi_turn_event Multi.available_tools).
    intros b msgs r. reflexivity.
  - intros resp. apply confined_bind; [apply confined_new_list|intros l].
    apply confined_for_in. intros b v'. apply multi_for_content_confined.
Qed.

Lemma multi_while_confined fuel v :
  confined multi_turn_event (Multi.while_process_query (E := E) fuel v).
Proof.
  revert v. induction fuel as [|fuel IH]; intros [|]; cbn;
    try apply confined_ret; try apply confined_out_of_fuel.
  apply confined_bind; [apply multi_round_confined|intros v; apply IH].
Qed.

Lemma multi_process_query_confined fuel query :
  confined multi_turn_event (Multi.process_query (E := E) fuel query).
Proof.
  unfold Multi.process_query.
  apply confined_bind; [apply confined_assign_messages|intros _].
  apply multi_while_confined.
Qed.

Lemma single_for_content_confined resp b :
  confined single_turn_event (Single.for_content (E := E) resp b).
Proof.
  destruct b as [t|i n a|].
  - cbn [Single.for_content].
    apply confined_bind; [apply confined_print; intros; exact I|intros _].
    destruct (length resp =? 1)%nat; apply confined_ret.
  - intros m. rewrite single_for_content_tool_use.
    destruct (Single.session (self m)) as [s|] eqn:Hs.
    + destruct (call_tool E (world m) s n a) as [w [e|c]];
        eexists [_]; cbn; repeat split; auto.
    + exists []. cbn. rewrite app_nil_r. auto.
  - apply confined_ret.
Qed.

Lemma single_round_confined :
  confined single_turn_event (Single.round (E := E)).
Proof.
  unfold Single.round, Single._get_claude_response,
    Single._process_content_blocks.
  apply confined_bind.
  - apply confined_try_except; [|intros e; apply confined_raise].
    apply (confined_create single_turn_event Single.available_tools).
    intros b msgs r. reflexivity.
  - intros resp. apply confined_bind.
    + apply confined_for_in_return. intros b.
      apply single_for_content_confined.
    + intros [v|]; apply confined_ret.
Qed.

Lemma single_while_confined fuel i :
  confined single_turn_event (Single.while_iteration (E := E) fuel i).
Proof.
  revert i. induction fuel as [|fuel IH]; intros i; cbn;
    destruct (i <=? Single.max_iterations)%nat;
    try apply confined_ret; try apply confined_out_of_fuel.
  apply confined_bind; [apply single_round_confined|intros v].
  destruct v; cbn; [apply IH|apply confined_ret].
Qed.

Lemma single_process_query_confined fuel query :
  confined single_turn_event (Single.process_query (E := E) fuel query).
Proof.
  unfold Single.process_query.
  apply confined_bind; [apply confined_assign_messages|intros _].
  apply confined_try_except; [|intros e; apply confined_raise].
  apply confined_bind; [apply single_while_confined|intros j].
  destruct (Single.max_iterations <? j)%nat;
    [apply confined_warn; intros; exact I|apply confined_ret].
Qed.

End ConfinedTurns.


(** ** Responses without a tool-use block *)

Lemma set_trace_nil {E B} (m : Machine E B) :
  set_trace (trace m ++ []) m = m.
Proof. destruct m. cbn. rewrite app_nil_r. reflexivity. Qed.

Lemma displayed_app (t1 t2 : list Event) :
  displayed (t1 ++ t2) = displayed t1 ++ displayed t2.
Proof. apply omap_app. Qed.

Lemma displayed_prints (ts : list string) :
  displayed (map EvPrint ts) = ts.
Proof.
  induction ts as [|t ts IH]; [reflexivity|].
  change (t :: displayed (map EvPrint ts) = t :: ts). rewrite IH. reflexivity.
Qed.

Lemma model_calls_prints (ts : list string) :
  model_calls (map EvPrint ts) = 0.
Proof. induction ts as [|t ts IH]; [reflexivity|exact IH]. Qed.

Lemma dispatched_prints (ts : list string) :
  dispatched (map EvPrint ts) = [].
Proof. induction ts as [|t ts IH]; [reflexivity|exact IH]. Qed.

Lemma dispatched_app (t1 t2 : list Event) :
  dispatched (t1 ++ t2) = dispatched t1 ++ dispatched t2.
Proof. apply omap_app. Qed.

Section NoToolUse.
Context {E : Outside}.

Lemma single_no_tool_use_blocks (m : Machine E Single.MCP_ChatBot) resp :
  Forall (fun b => is_tool_use b = false) resp ->
  Single._process_content_blocks resp m =
  (set_trace (trace m ++ map EvPrint (texts resp)) m, Return false).
Proof.
  intros Hresp. rewrite single_process_content_blocks_run.
  destruct (length resp =? 1)%nat eqn:Hlen.
  - apply Nat.eqb_eq in Hlen.
    destruct resp as [|b [|b' resp]]; try discriminate.
    cbn [for_in_return]. rewrite run_bind.
    destruct b as [t|i n a|].
    + rewrite single_for_content_text. reflexivity.
    + inversion Hresp; subst. discriminate.
    + cbn. rewrite set_trace_nil. reflexivity.
  - rewrite single_for_prefix by assumption. reflexivity.
Qed.

Lemma multi_no_tool_use_round (m : Machine E Multi.MCPChatBot) w resp v :
  Forall (fun b => is_tool_use b = false) resp ->
  length resp <> 1 ->
  messages_create E (world m) (Multi.available_tools (self m)) (render m)
    = (w, inr resp) ->
  exists m',
    Multi.round v m = (m', Return v) /\
    self m' = self m /\
    messages m' = messages m /\
    trace m' = trace m ++
      EvCreate (Multi.available_tools (self m)) (render m) (inr resp)
      :: map EvPrint (texts resp).
Proof.
  intros Hresp Hlen Hcreate.
  rewrite multi_round_run. cbn zeta. rewrite Hcreate.
  apply Nat.eqb_neq in Hlen.
  match goal with |- context [for_in resp ?body v ?m1] =>
    destruct (multi_for_prefix resp (length (heap m)) resp v m1 Hlen Hresp)
      as (h & Hrun & _) end.
  rewrite Hrun. eexists. split; [reflexivity|]. cbn.
  rewrite <- app_assoc. auto.
Qed.

End NoToolUse.

(** X3.  In the single-server client, a response with no tool-use block (one
    text, several texts, or nothing at all) ends the loop after that round:
    every text is displayed, in order, and the transcript is untouched. *)
Theorem single_ends_turn_without_tool_use (E : Outside)
    (m : Machine E Single.MCP_ChatBot) (fuel iteration : nat) (w : World E)
    (resp : list ContentBlock) :
  iteration <= Single.max_iterations ->
  Forall (fun b => is_tool_use b = false) resp ->
  messages_create E (world m) (Single.available_tools (self m)) (render m)
    = (w, inr resp) ->
  Single.while_iteration (S fuel) iteration m =
  (set_trace
     (trace m ++
      EvCreate (Single.available_tools (self m)) (render m) (inr resp)
      :: map EvPrint (texts resp))
     (set_world w m),
   Return iteration).
Proof.
  intros Hi Hresp Hcreate.
  cbn [Single.while_iteration]. apply Nat.leb_le in Hi. rewrite Hi.
  rewrite run_bind, single_round_run. cbn zeta. rewrite Hcreate.
  rewrite single_no_tool_use_blocks by assumption.
  cbn. rewrite <- app_assoc. reflexivity.
Qed.

(** X4.  With a model that always answers without a tool-use block and with
    a number of blocks other than one (several texts, or none), a turn of the
    multi-server client never ends: whatever the fuel it is used up, with one
    model invocation per unit, no tool invocation, and the transcript still
    holding the query alone. *)
Theorem multi_never_ends_without_tool_use (E : Outside) :
  (forall w tools msgs, exists w' resp,
      messages_create E w tools msgs = (w', inr resp) /\
      Forall (fun b => is_tool_use b = false) resp /\
      length resp <> 1) ->
  forall (fuel : nat) (query : string) (m : Machine E Multi.MCPChatBot),
    (Multi.process_query fuel query m).2 = OutOfFuel /\
    model_calls (trace (Multi.process_query fuel query m).1)
    = model_calls (trace m) + fuel /\
    dispatched (trace (Multi.process_query fuel query m).1)
    = dispatched (trace m) /\
    messages (Multi.process_query fuel query m).1 = [UserMessage query].
Proof.
  intros Hmodel fuel query m.
  unfold Multi.process_query. rewrite run_bind. cbn [assign_messages].
  set (m0 := set_messages [UserMessage query] m).
  change (trace m) with (trace m0).
  change [UserMessage query] with (messages m0).
  generalize m0. clear m m0.
  induction fuel as [|fuel IH]; intros m.
  - cbn. repeat split; auto.
  - cbn [Multi.while_process_query]. rewrite run_bind.
    destruct (Hmodel (world m) (Multi.available_tools (self m)) (render m))
      as (w & resp & Hcreate & Hresp & Hlen).
    destruct (multi_no_tool_use_round m w resp true Hresp Hlen Hcreate)
      as (m' & Hround & Hself & Hmsg & Htrace).
    rewrite Hround.
    destruct (IH m') as (Hr & Hmc & Hd & Hm).
    rewrite Hr, Hmc, Hd, Hm, Hmsg, Htrace.
    split; [reflexivity|]. split; [|split; [|reflexivity]].
    + rewrite (model_calls_app (trace m) (_ :: _)).
      change (model_calls (EvCreate ?a ?b ?c :: ?t))
        with (S (model_calls t)).
      rewrite model_calls_prints. lia.
    + rewrite dispatched_app.
      change (dispatched (EvCreate ?a ?b ?c :: ?t)) with (dispatched t).
      rewrite dispatched_prints, app_nil_r. reflexivity.
Qed.


(** ** What a round of the multi-server client leaves in the transcript *)

Lemma alter_twice {A} (f g : A -> A) (i : nat) (l : list A) :
  alter f i (alter g i l) = alter (fun x => f (g x)) i l.
Proof.
  revert i. induction l as [|x l IH]; intros [|i]; try reflexivity.
  cbn. f_equal. apply IH.
Qed.

Section MultiTranscript.
Context {E : Outside}.
Implicit Types m : Machine E Multi.MCPChatBot.

Lemma after_call_not_single_text resp v m :
  single_text resp = false -> after_call resp v m = (m, Return v).
Proof. destruct resp as [|[t0| |] [|]]; intros H; try reflexivity.
  discriminate. Qed.

Lemma suffix_not_single resp pre b bs :
  single_text resp = false ->
  resp = pre ++ b :: bs ->
  is_text b = true ->
  (length resp =? 1)%nat = false.
Proof.
  intros Hs -> Hb. apply Nat.eqb_neq. intros Hlen.
  rewrite length_app in Hlen. cbn in Hlen.
  destruct pre as [|p pre]; [|cbn in Hlen; lia].
  destruct bs as [|b' bs]; [|cbn in Hlen; lia].
  destruct b; discriminate.
Qed.

Lemma multi_blocks_flag_and_display resp l pre bs v m m' v' :
  single_text resp = false ->
  resp = pre ++ bs ->
  for_in bs (Multi.for_content resp l) v m = (m', Return v') ->
  v' = v /\
  exists new, trace m' = trace m ++ new /\ displayed new = texts bs.
Proof.
  intros Hs. revert pre v m. induction bs as [|b bs IH]; intros pre v m Hr H.
  - cbn in H. inversion H; subst. split; [reflexivity|].
    exists []. rewrite app_nil_r. auto.
  - cbn [for_in] in H. rewrite run_bind in H.
    assert (resp = (pre ++ [b]) ++ bs) as Hr'
      by (rewrite <- app_assoc; exact Hr).
    destruct b as [t|i n a|].
    + rewrite multi_for_content_text in H.
      rewrite (suffix_not_single resp pre (TextBlock t) bs Hs Hr eq_refl) in H.
      destruct (IH _ _ _ Hr' H) as (-> & new & Ht & Hd).
      split; [reflexivity|]. exists (EvPrint t :: new).
      rewrite Ht. split; [cbn; rewrite <- app_assoc; reflexivity|].
      change (t :: displayed new = t :: texts bs). rewrite Hd. reflexivity.
    + rewrite multi_for_content_tool_use, multi_handle_tool_call_run in H.
      cbn [announced self set_messages set_heap world] in H.
      destruct (Multi.tool_to_session (self m) !! n) as [s|]; [|discriminate].
      destruct (call_tool E (world m) s n a) as [w [e|c]]; [discriminate|].
      rewrite after_call_not_single_text in H by exact Hs.
      destruct (IH _ _ _ Hr' H) as (-> & new & Ht & Hd).
      split; [reflexivity|]. exists (EvCallTool s n a (inr c) :: new).
      rewrite Ht. split; [cbn; rewrite <- app_assoc; reflexivity|].
      exact Hd.
    + cbn in H. apply (IH _ _ _ Hr' H).
Qed.

Lemma multi_blocks_transcript resp l bs v m m' v' :
  for_in bs (Multi.for_content resp l) v m = (m', Return v') ->
  exists results,
    messages m' = messages m ++
      flat_map (fun r => [AssistantMessage l; ToolResultMessage r.1 r.2])
               results /\
    map fst results = map (fun u => u.1.1) (tool_uses bs) /\
    heap m' = alter (fun x => x ++ kept bs) l (heap m).
Proof.
  revert v m. induction bs as [|b bs IH]; intros v m H.
  - cbn in H. inversion H; subst. exists []. cbn.
    rewrite app_nil_r. split; [reflexivity|]. split; [reflexivity|].
    symmetry. apply list_alter_id. intros x. apply app_nil_r.
  - cbn [for_in] in H. rewrite run_bind in H.
    destruct b as [t|i n a|].
    + rewrite multi_for_content_text in H.
      apply IH in H as (results & Hm & Hi & Hh).
      exists results. cbn in Hm, Hh. split; [exact Hm|]. split; [exact Hi|].
      rewrite Hh, alter_twice. apply list_alter_ext; [|reflexivity].
      intros x _. cbn. rewrite <- app_assoc. reflexivity.
    + rewrite multi_for_content_tool_use, multi_handle_tool_call_run in H.
      cbn [announced self set_messages set_heap world] in H.
      destruct (Multi.tool_to_session (self m) !! n) as [s|]; [|discriminate].
      destruct (call_tool E (world m) s n a) as [w [e|c]]; [discriminate|].
      match type of H with context [after_call resp v ?m1] =>
        destruct (after_call_run resp v m1) as (t1 & v1 & Ha & _) end.
      rewrite Ha in H.
      apply IH in H as (results & Hm & Hi & Hh).
      exists ((i, result_content c) :: results). cbn in Hm, Hh.
      split; [rewrite Hm, <- !app_assoc; reflexivity|].
      split; [cbn; rewrite Hi; reflexivity|].
      rewrite Hh, alter_twice. apply list_alter_ext; [|reflexivity].
      intros x _. cbn. rewrite <- app_assoc. reflexivity.
    + cbn in H. apply IH in H as (results & Hm & Hi & Hh).
      exists results. auto.
Qed.

End MultiTranscript.

(** X5.  A round of the multi-server client that does not raise ends the
    turn exactly when the response is one text block, and displays the texts
    of the response, in order, and nothing else: the test after the tool call
    (a response of one block that is a text) never holds there. *)
Theorem multi_round_ends_on_single_text (E : Outside)
    (m m' : Machine E Multi.MCPChatBot) (w : World E)
    (resp : list ContentBlock) (v : bool) :
  messages_create E (world m) (Multi.available_tools (self m)) (render m)
    = (w, inr resp) ->
  Multi.round true m = (m', Return v) ->
  v = negb (single_text resp) /\
  exists new,
    trace m' = trace m ++
      EvCreate (Multi.available_tools (self m)) (render m) (inr resp) :: new /\
    displayed new = texts resp.
Proof.
  intros Hcreate Hround.
  destruct (single_text resp) eqn:Hs.
  - destruct resp as [|[t| |] [|]]; try discriminate.
    destruct (multi_round_single_text m w t true Hcreate)
      as (m1 & Hr1 & Ht1 & _).
    rewrite Hr1 in Hround. inversion Hround; subst.
    split; [reflexivity|]. exists [EvPrint t]. auto.
  - rewrite multi_round_run in Hround. cbn zeta in Hround.
    rewrite Hcreate in Hround.
    apply (multi_blocks_flag_and_display resp _ [] resp) in Hround
      as (-> & new & Ht & Hd); [|exact Hs|reflexivity].
    split; [reflexivity|]. exists new. cbn in Ht.
    rewrite Ht, <- app_assoc. auto.
Qed.

(** X6.  After a round of the multi-server client that does not raise, the
    transcript reads as the one before followed, for each tool-use block of
    the response in order, by an assistant message and the tool result with
    the id of the block; and every one of these assistant messages reads as
    all the text and tool-use blocks of the response, whichever block it was
    appended for. *)
Theorem multi_round_transcript (E : Outside)
    (m m' : Machine E Multi.MCPChatBot) (w : World E)
    (resp : list ContentBlock) (v : bool) :
  well_formed m ->
  messages_create E (world m) (Multi.available_tools (self m)) (render m)
    = (w, inr resp) ->
  Multi.round true m = (m', Return v) ->
  exists results,
    map fst results = map (fun u => u.1.1) (tool_uses resp) /\
    render m' = render m ++
      flat_map (fun r => [RAssistant (kept resp); RToolResult r.1 r.2])
               results /\
    well_formed m'.
Proof.
  intros Hwf Hcreate Hround.
  rewrite multi_round_run in Hround. cbn zeta in Hround.
  rewrite Hcreate in Hround.
  apply multi_blocks_transcript in Hround as (results & Hm & Hi & Hh).
  cbn in Hm, Hh.
  assert (heap m' = heap m ++ [kept resp]) as Hheap.
  { rewrite Hh, alter_app_r_alt by lia.
    replace (length (heap m) - length (heap m)) with 0 by lia.
    reflexivity. }
  exists results. split; [exact Hi|].
  assert (forall x, In x (messages m) ->
            render1 (heap m') x = render1 (heap m) x) as Hold.
  { intros x Hx. unfold well_formed in Hwf. rewrite Forall_forall in Hwf.
    destruct x as [c|l|i c]; cbn; try reflexivity.
    rewrite Hheap, lookup_app_l; [reflexivity|].
    apply (Hwf (AssistantMessage l)). apply list_elem_of_In. exact Hx. }
  split.
  - unfold render. rewrite Hm, map_app. f_equal.
    + apply map_ext_in. exact Hold.
    + clear Hi Hm. induction results as [|r results IH]; [reflexivity|].
      cbn [flat_map map app]. rewrite IH. cbn [render1].
      rewrite Hheap, lookup_app_r by lia.
      replace (length (heap m) - length (heap m)) with 0 by lia.
      reflexivity.
  - unfold well_formed in *. rewrite Hm, Hheap, length_app. cbn.
    apply Forall_app. split.
    + eapply Forall_impl; [exact Hwf|]. intros [c|l|i c]; cbn; auto. lia.
    + clear. induction results as [|r results IH]; [constructor|].
      cbn. constructor; [lia|]. constructor; [exact I|exact IH].
Qed.


(** ** Properties of the state that runs keep *)

Section Preserves.
Context {E : Outside} {B : Type} (I : Machine E B -> Prop).

Lemma preserves_ret {A} (a : A) : preserves I (mret a : M E B A).
Proof. intros m H. exact H. Qed.

Lemma preserves_raise {A} e : preserves I (raise e : M E B A).
Proof. intros m H. exact H. Qed.

Lemma preserves_out_of_fuel {A} : preserves I (out_of_fuel : M E B A).
Proof. intros m H. exact H. Qed.

Lemma preserves_bind {A C} (c : M E B A) (k : A -> M E B C) :
  preserves I c -> (forall a, preserves I (k a)) -> preserves I (c ≫= k).
Proof.
  intros Hc Hk m Hm. rewrite run_bind. specialize (Hc m Hm).
  destruct (c m) as [m1 [a|e|]]; cbn [fst] in *; [apply Hk|..]; exact Hc.
Qed.

Lemma preserves_try_except {A} (c : M E B A) (h : Exn -> M E B A) :
  preserves I c -> (forall e, preserves I (h e)) ->
  preserves I (try_except c h).
Proof.
  intros Hc Hh m Hm. unfold try_except. specialize (Hc m Hm).
  destruct (c m) as [m1 [a|e|]]; cbn [fst] in *; [exact Hc| |exact Hc].
  destruct (is_Exception e); [apply Hh|]; exact Hc.
Qed.

Lemma preserves_for_in {A V} (xs : list A) (body : A -> V -> M E B V) v :
  (forall x v, preserves I (body x v)) -> preserves I (for_in xs body v).
Proof.
  intros Hb. revert v. induction xs as [|x xs IH]; intros v.
  - apply preserves_ret.
  - cbn [for_in]. apply preserves_bind; [apply Hb|apply IH].
Qed.

Lemma preserves_for_in_return {A R} (xs : list A)
    (body : A -> M E B (option R)) :
  (forall x, preserves I (body x)) -> preserves I (for_in_return xs body).
Proof.
  intros Hb. induction xs as [|x xs IH].
  - apply preserves_ret.
  - cbn [for_in_return]. apply preserves_bind; [apply Hb|].
    intros [r|]; [apply preserves_ret|apply IH].
Qed.

(** Properties that do not read the world or the trace are kept by what
    only writes those. *)
Hypothesis I_silent :
  forall m w t, I m -> I (set_trace t (set_world w m)).

Lemma preserves_print t : preserves I (print t : M E B unit).
Proof.
  intros m H. apply (I_silent m (world m) (trace m ++ [EvPrint t])) in H.
  destruct m; exact H.
Qed.

Lemma preserves_warn : preserves I (warn : M E B unit).
Proof.
  intros m H. apply (I_silent m (world m) (trace m ++ [EvWarning])) in H.
  destruct m; exact H.
Qed.

Lemma preserves_print_error e : preserves I (print_error e : M E B unit).
Proof.
  intros m H. apply (I_silent m (world m) (trace m ++ [EvError e])) in H.
  destruct m; exact H.
Qed.

Lemma preserves_external {A} (f : World E -> World E * (Exn + A)) ev :
  preserves I (external f ev : M E B A).
Proof.
  intros m H. unfold external. destruct (f (world m)) as [w r].
  apply (I_silent m w (trace m ++ [ev r])) in H. exact H.
Qed.

Lemma preserves_get_self : preserves I (get_self : M E B B).
Proof. intros m H. exact H. Qed.

Lemma preserves_create (tools : B -> list ToolDefinition) :
  preserves I (b ← get_self; anthropic_messages_create (tools b)
               : M E B (list ContentBlock)).
Proof.
  intros m H. rewrite run_bind. cbn [get_self].
  unfold anthropic_messages_create.
  apply (preserves_external _ _ m H).
Qed.

End Preserves.

(** ** The transcript of the single-server client *)

Section SingleTranscript.
Context {E : Outside}.
Implicit Types m : Machine E Single.MCP_ChatBot.

Lemma render_heap_app {B} (m : Machine E B) h' :
  well_formed m ->
  map (render1 (heap m ++ h')) (messages m) = render m.
Proof.
  unfold well_formed, render. intros Hwf.
  induction Hwf as [|x ms Hx _ IH]; [reflexivity|].
  cbn. rewrite IH. f_equal.
  destruct x as [c|l|i c]; cbn; [reflexivity| |reflexivity].
  rewrite lookup_app_l by exact Hx. reflexivity.
Qed.

Lemma shaped_silent query m w t :
  shaped query m -> shaped query (set_trace t (set_world w m)).
Proof. intros H. exact H. Qed.

Lemma single_for_content_shaped query resp b :
  preserves (shaped query) (Single.for_content (E := E) resp b).
Proof.
  destruct b as [t|i n a|].
  - cbn [Single.for_content].
    apply preserves_bind;
      [apply preserves_print; apply shaped_silent|intros _].
    destruct (length resp =? 1)%nat; apply preserves_ret.
  - intros m [Hwf (calls & Hr)]. rewrite single_for_content_tool_use.
    destruct (Single.session (self m)) as [s|]; [|split; eauto].
    destruct (call_tool E (world m) s n a) as [w [e|c]]; [split; eauto|].
    cbn [fst]. split.
    + unfold well_formed in *. cbn. rewrite length_app. cbn.
      apply Forall_app. split.
      * eapply Forall_impl; [exact Hwf|]. intros [?|?|? ?]; cbn; auto. lia.
      * repeat constructor. lia.
    + exists (calls ++ [(i, n, a, result_content c)]).
      unfold render. cbn [messages heap set_messages set_heap emit set_trace
                          set_world].
      rewrite map_app, render_heap_app by exact Hwf. rewrite Hr.
      unfold single_transcript. rewrite flat_map_app. cbn.
      rewrite lookup_app_r by lia.
      replace (length (heap m) - length (heap m)) with 0 by lia.
      cbn. rewrite ?app_nil_r. reflexivity.
  - apply preserves_ret.
Qed.

Lemma single_round_shaped query :
  preserves (shaped query) (Single.round (E := E)).
Proof.
  unfold Single.round, Single._get_claude_response,
    Single._process_content_blocks.
  apply preserves_bind.
  - apply preserves_try_except; [|intros e; apply preserves_raise].
    apply (preserves_create (shaped query) (shaped_silent query)
             Single.available_tools).
  - intros resp. apply preserves_bind.
    + apply preserves_for_in_return. intros b.
      apply single_for_content_shaped.
    + intros [v|]; apply preserves_ret.
Qed.

Lemma single_while_shaped query fuel i :
  preserves (shaped query) (Single.while_iteration (E := E) fuel i).
Proof.
  revert i. induction fuel as [|fuel IH]; intros i; cbn;
    destruct (i <=? Single.max_iterations)%nat;
    try apply preserves_ret; try apply preserves_out_of_fuel.
  apply preserves_bind; [apply single_round_shaped|intros v].
  destruct v; cbn; [apply IH|apply preserves_ret].
Qed.

End SingleTranscript.

(** X7.  Whatever happens in a turn of the single-server client, its
    transcript is the query followed by pairs of an assistant message that
    holds one tool-use block and the tool result with the id of that block:
    text blocks are never recorded. *)
Theorem single_transcript_shape (E : Outside)
    (m : Machine E Single.MCP_ChatBot) (fuel : nat) (query : string) :
  exists calls,
    render (Single.process_query fuel query m).1
    = single_transcript query calls.
Proof.
  unfold Single.process_query. rewrite run_bind. cbn [assign_messages].
  rewrite try_reraise.
  assert (preserves (shaped query)
            (iteration ← Single.while_iteration (E := E) fuel 1;
             if (Single.max_iterations <? iteration)%nat
             then warn else mret tt)) as Hp.
  { apply preserves_bind; [apply single_while_shaped|intros j].
    destruct (Single.max_iterations <? j)%nat;
      [apply preserves_warn; apply shaped_silent|apply preserves_ret]. }
  destruct (Hp (set_messages [UserMessage query] m)) as [_ H].
  - split; [repeat constructor|]. exists []. reflexivity.
  - exact H.
Qed.


(** ** The chat loop *)

Section ChatLoop.
Context {E : Outside}.

Lemma confined_mono {B A} (P Q : B -> Event -> Prop) (c : M E B A) :
  (forall b ev, P b ev -> Q b ev) -> confined P c -> confined Q c.
Proof.
  intros HPQ Hc m. destruct (Hc m) as (new & Ht & Hs & Hp).
  exists new. split; [exact Ht|]. split; [exact Hs|].
  eapply Forall_impl; [exact Hp|]. apply HPQ.
Qed.

Lemma multi_chat_loop_confined fuel turn_fuel :
  confined (chat_event multi_turn_event)
           (Multi.chat_loop (E := E) fuel turn_fuel).
Proof.
  induction fuel as [|fuel IH]; cbn [Multi.chat_loop].
  - apply confined_out_of_fuel.
  - apply confined_bind.
    + apply confined_try_except.
      * apply confined_bind;
          [apply confined_external; intros; exact I|intros line].
        cbn zeta. destruct (String.eqb _ _); [apply confined_ret|].
        apply confined_bind; [|intros _; apply confined_ret].
        eapply confined_mono; [|apply multi_process_query_confined].
        intros b ev H. destruct ev; try exact H; exact I.
      * intros e. apply confined_bind;
          [apply confined_print_error; intros; exact I|intros _].
        apply confined_ret.
    + intros [|]; [apply confined_ret|apply IH].
Qed.

Lemma single_chat_loop_confined fuel turn_fuel :
  confined (chat_event single_turn_event)
           (Single.chat_loop (E := E) fuel turn_fuel).
Proof.
  induction fuel as [|fuel IH]; cbn [Single.chat_loop].
  - apply confined_out_of_fuel.
  - apply confined_bind.
    + apply confined_try_except.
      * apply confined_bind;
          [apply confined_external; intros; exact I|intros line].
        cbn zeta. destruct (String.eqb _ _); [apply confined_ret|].
        apply confined_bind; [|intros _; apply confined_ret].
        eapply confined_mono; [|apply single_process_query_confined].
        intros b ev H. destruct ev; try exact H; exact I.
      * intros e. apply confined_bind;
          [apply confined_print_error; intros; exact I|intros _].
        apply confined_ret.
    + intros [|]; [apply confined_ret|apply IH].
Qed.

End ChatLoop.

(** X8.  The chat loop of either client does not catch an exception that is
    not an instance of [Exception] (a [KeyboardInterrupt] while the line is
    read, a [CancelledError] during a turn): the loop is left with that
    exception at once, and no error line is displayed. *)
Theorem chat_loop_lets_other_exceptions_through (E : Outside)
    (fuel turn_fuel : nat) (e : Exn) :
  is_Exception e = false ->
  (forall (m : Machine E Multi.MCPChatBot) w,
     input E (world m) = (w, inl e) ->
     Multi.chat_loop (S fuel) turn_fuel m
     = (emit (EvInput (inl e)) (set_world w m), Raise e)) /\
  (forall (m m' : Machine E Multi.MCPChatBot) w line,
     input E (world m) = (w, inr line) ->
     lower E (strip E line) <> "quit" ->
     Multi.process_query turn_fuel (strip E line)
       (emit (EvInput (inr line)) (set_world w m)) = (m', Raise e) ->
     Multi.chat_loop (S fuel) turn_fuel m = (m', Raise e)) /\
  (forall (m : Machine E Single.MCP_ChatBot) w,
     input E (world m) = (w, inl e) ->
     Single.chat_loop (S fuel) turn_fuel m
     = (emit (EvInput (inl e)) (set_world w m), Raise e)) /\
  (forall (m m' : Machine E Single.MCP_ChatBot) w line,
     input E (world m) = (w, inr line) ->
     lower E (strip E line) <> "quit" ->
     Single.process_query turn_fuel (strip E line)
       (emit (EvInput (inr line)) (set_world w m)) = (m', Raise e) ->
     Single.chat_loop (S fuel) turn_fuel m = (m', Raise e)).
Proof.
  intros He. split; [|split; [|split]].
  - intros m w Hin.
    cbn [Multi.chat_loop]. rewrite run_bind. unfold try_except.
    rewrite run_bind, external_run, Hin, He. reflexivity.
  - intros m m' w line Hin Hquit Hturn. apply String.eqb_neq in Hquit.
    cbn [Multi.chat_loop]. rewrite run_bind. unfold try_except.
    rewrite run_bind, external_run, Hin. cbn zeta. rewrite Hquit.
    rewrite run_bind, Hturn, He. reflexivity.
  - intros m w Hin.
    cbn [Single.chat_loop]. rewrite run_bind. unfold try_except.
    rewrite run_bind, external_run, Hin, He. reflexivity.
  - intros m m' w line Hin Hquit Hturn. apply String.eqb_neq in Hquit.
    cbn [Single.chat_loop]. rewrite run_bind. unfold try_except.
    rewrite run_bind, external_run, Hin. cbn zeta. rewrite Hquit.
    rewrite run_bind, Hturn, He. reflexivity.
Qed.

(** X9.  When the line read, stripped and lowered, is [quit], the chat loop
    of either client returns at once: no turn is started. *)
Theorem chat_loop_quit (E : Outside) (fuel turn_fuel : nat) (line : string) :
  lower E (strip E line) = "quit" ->
  (forall (m : Machine E Multi.MCPChatBot) w,
     input E (world m) = (w, inr line) ->
     Multi.chat_loop (S fuel) turn_fuel m
     = (emit (EvInput (inr line)) (set_world w m), Return tt)) /\
  (forall (m : Machine E Single.MCP_ChatBot) w,
     input E (world m) = (w, inr line) ->
     Single.chat_loop (S fuel) turn_fuel m
     = (emit (EvInput (inr line)) (set_world w m), Return tt)).
Proof.
  intros Hquit. split; intros m w Hin.
  - cbn [Multi.chat_loop]. rewrite run_bind. unfold try_except.
    rewrite run_bind, external_run, Hin. cbn zeta. rewrite Hquit.
    reflexivity.
  - cbn [Single.chat_loop]. rewrite run_bind. unfold try_except.
    rewrite run_bind, external_run, Hin. cbn zeta. rewrite Hquit.
    reflexivity.
Qed.

(** X10.  When the turn for a line raises an instance of [Exception], the
    chat loop of either client displays the error and goes on reading lines
    from the state the turn left. *)
Theorem failed_turn_is_reported (E : Outside) (fuel turn_fuel : nat)
    (line : string) (e : Exn) :
  is_Exception e = true ->
  lower E (strip E line) <> "quit" ->
  (forall (m m' : Machine E Multi.MCPChatBot) w,
     input E (world m) = (w, inr line) ->
     Multi.process_query turn_fuel (strip E line)
       (emit (EvInput (inr line)) (set_world w m)) = (m', Raise e) ->
     Multi.chat_loop (S fuel) turn_fuel m
     = Multi.chat_loop fuel turn_fuel (emit (EvError e) m')) /\
  (forall (m m' : Machine E Single.MCP_ChatBot) w,
     input E (world m) = (w, inr line) ->
     Single.process_query turn_fuel (strip E line)
       (emit (EvInput (inr line)) (set_world w m)) = (m', Raise e) ->
     Single.chat_loop (S fuel) turn_fuel m
     = Single.chat_loop fuel turn_fuel (emit (EvError e) m')).
Proof.
  intros He Hquit. apply String.eqb_neq in Hquit.
  split; intros m m' w Hin Hturn.
  - cbn [Multi.chat_loop]. rewrite run_bind. unfold try_except.
    rewrite run_bind, external_run, Hin. cbn zeta. rewrite Hquit.
    rewrite run_bind, Hturn, He. reflexivity.
  - cbn [Single.chat_loop]. rewrite run_bind. unfold try_except.
    rewrite run_bind, external_run, Hin. cbn zeta. rewrite Hquit.
    rewrite run_bind, Hturn, He. reflexivity.
Qed.

(** X11.  When no line can be read and reading always raises an instance of
    [Exception] (the [EOFError] at the end of the input), the chat loop of
    either client never ends: each pass displays the error and tries again,
    without a model invocation. *)
Theorem unreadable_input_never_ends (E : Outside) :
  (forall w, exists w' e,
     input E w = (w', inl e) /\ is_Exception e = true) ->
  forall fuel turn_fuel,
    (forall m : Machine E Multi.MCPChatBot,
       (Multi.chat_loop fuel turn_fuel m).2 = OutOfFuel /\
       exists new,
         trace (Multi.chat_loop fuel turn_fuel m).1 = trace m ++ new /\
         length (reported new) = fuel /\ model_calls new = 0) /\
    (forall m : Machine E Single.MCP_ChatBot,
       (Single.chat_loop fuel turn_fuel m).2 = OutOfFuel /\
       exists new,
         trace (Single.chat_loop fuel turn_fuel m).1 = trace m ++ new /\
         length (reported new) = fuel /\ model_calls new = 0).
Proof.
  intros Hin fuel turn_fuel. split.
  - induction fuel as [|fuel IH]; intros m.
    + split; [reflexivity|]. exists []. cbn. rewrite app_nil_r. auto.
    + destruct (Hin (world m)) as (w & e & Hw & He).
      cbn [Multi.chat_loop]. rewrite run_bind. unfold try_except.
      rewrite run_bind, external_run, Hw, He. cbn [bind print_error].
      rewrite run_bind. cbn [print_error]. rewrite run_ret.
      destruct (IH (emit (EvError e) (emit (EvInput (inl e)) (set_world w m))))
        as (Hr & new & Ht & Hrep & Hmc).
      split; [exact Hr|].
      exists (EvInput (inl e) :: EvError e :: new).
      rewrite Ht. cbn. rewrite <- !app_assoc.
      split; [reflexivity|]. split; [|exact Hmc].
      change (S (length (reported new)) = S fuel). rewrite Hrep. reflexivity.
  - induction fuel as [|fuel IH]; intros m.
    + split; [reflexivity|]. exists []. cbn. rewrite app_nil_r. auto.
    + destruct (Hin (world m)) as (w & e & Hw & He).
      cbn [Single.chat_loop]. rewrite run_bind. unfold try_except.
      rewrite run_bind, external_run, Hw, He. cbn [bind print_error].
      rewrite run_bind. cbn [print_error]. rewrite run_ret.
      destruct (IH (emit (EvError e) (emit (EvInput (inl e)) (set_world w m))))
        as (Hr & new & Ht & Hrep & Hmc).
      split; [exact Hr|].
      exists (EvInput (inl e) :: EvError e :: new).
      rewrite Ht. cbn. rewrite <- !app_assoc.
      split; [reflexivity|]. split; [|exact Hmc].
      change (S (length (reported new)) = S fuel). rewrite Hrep. reflexivity.
Qed.


(** ** Entering and exiting contexts *)

Lemma entered_app (t1 t2 : list Event) :
  entered (t1 ++ t2) = entered t1 ++ entered t2.
Proof. apply omap_app. Qed.

Lemma exited_app (t1 t2 : list Event) :
  exited (t1 ++ t2) = exited t1 ++ exited t2.
Proof. apply omap_app. Qed.

Section Teardown.
Context {E : Outside}.
Implicit Types m : Machine E Multi.MCPChatBot.

Lemma acquires_ret {A} (a : A) :
  acquires (mret a : M E Multi.MCPChatBot A).
Proof. intros m. exists []. cbn. rewrite app_nil_r. auto. Qed.

Lemma acquires_bind {A C} (c : M E Multi.MCPChatBot A)
    (k : A -> M E Multi.MCPChatBot C) :
  acquires c -> (forall a, acquires (k a)) -> acquires (c ≫= k).
Proof.
  intros Hc Hk m. rewrite run_bind.
  destruct (Hc m) as (new1 & Ht1 & Hs1 & Hx1).
  destruct (c m) as [m1 [a|e|]]; cbn [fst] in *.
  - destruct (Hk a m1) as (new2 & Ht2 & Hs2 & Hx2).
    exists (new1 ++ new2).
    rewrite Ht2, Hs2, Ht1, Hs1, entered_app, exited_app, Hx1, Hx2,
      rev_app_distr, <- !app_assoc.
    auto.
  - exists new1. auto.
  - exists new1. auto.
Qed.

Lemma acquires_try_reraise {A} (c : M E Multi.MCPChatBot A) :
  acquires c -> acquires (try_except c (fun e => raise e)).
Proof. intros Hc m. rewrite try_reraise. apply Hc. Qed.

Lemma acquires_for_in {A V} (xs : list A)
    (body : A -> V -> M E Multi.MCPChatBot V) v :
  (forall x v, acquires (body x v)) -> acquires (for_in xs body v).
Proof.
  intros Hb. revert v. induction xs as [|x xs IH]; intros v.
  - apply acquires_ret.
  - cbn [for_in]. apply acquires_bind; [apply Hb|apply IH].
Qed.

Lemma registered_stack s tools b :
  Multi.exit_stack (registered s tools b) = Multi.exit_stack b.
Proof. apply registered_exit_stack. Qed.

Lemma acquires_connect_to_server server_name cfg :
  acquires (Multi.connect_to_server (E := E) server_name cfg).
Proof.
  intros m.
  destruct (connect_to_server_cases server_name cfg m)
    as (new & Ht & _ & _ & Hc).
  exists new. split; [exact Ht|].
  destruct (Multi.connect_to_server server_name cfg m) as [m' r].
  cbn [fst snd] in *.
  inversion Hc; subst; rewrite ?registered_exit_stack; cbn; auto.
Qed.

Lemma acquires_connect_to_servers :
  acquires (Multi.connect_to_servers (E := E)).
Proof.
  unfold Multi.connect_to_servers. apply acquires_try_reraise.
  apply acquires_bind.
  - intros m. rewrite external_run.
    destruct (read_config E (world m)) as [w [e|servers]];
      eexists [_]; cbn; auto.
  - intros servers. unfold Multi.for_servers. apply acquires_for_in.
    intros [n c] _. apply acquires_connect_to_server.
Qed.

Lemma chat_events_enter_nothing b new :
  Forall (chat_event multi_turn_event b) new ->
  entered new = [] /\ exited new = [].
Proof.
  intros H. induction H as [|ev new Hev _ [IH1 IH2]]; [auto|].
  destruct ev; cbn in Hev; try contradiction; split; assumption.
Qed.

Lemma acquires_chat_loop fuel turn_fuel :
  acquires (Multi.chat_loop (E := E) fuel turn_fuel).
Proof.
  intros m.
  destruct (multi_chat_loop_confined fuel turn_fuel m)
    as (new & Ht & Hs & Hp).
  apply chat_events_enter_nothing in Hp as [He Hx].
  exists new. rewrite Hs, He, Hx. auto.
Qed.

Lemma unwind_run stack pending m :
  exists new p,
    Multi.unwind stack pending m
    = (set_trace (trace m ++ new)
         (set_world (world (Multi.unwind stack pending m).1) m), Return p) /\
    exited new = stack /\ entered new = [].
Proof.
  revert pending m. induction stack as [|res stack IH]; intros pending m.
  - exists [], pending. cbn. rewrite app_nil_r. destruct m; auto.
  - cbn [Multi.unwind]. rewrite run_bind. unfold aexit.
    destruct (exit_context E (world m) res pending) as [w r].
    set (m1 := emit (EvExit res pending r) (set_world w m)).
    destruct r as [e|[|]];
      match goal with |- context [Multi.unwind stack ?p' m1] =>
        destruct (IH p' m1) as (new & p & Hrun & Hx & He) end;
      eexists (_ :: new), p;
      rewrite Hrun; cbn; rewrite <- app_assoc;
      (split; [reflexivity|]); (split; [rewrite <- Hx; reflexivity|exact He]).
Qed.

Lemma cleanup_run m :
  exists new,
    trace (Multi.cleanup m).1 = trace m ++ new /\
    exited new = Multi.exit_stack (self m) /\
    entered new = [] /\
    Multi.exit_stack (self (Multi.cleanup m).1) = [] /\
    (Multi.cleanup m).2 <> OutOfFuel.
Proof.
  unfold Multi.cleanup. rewrite run_bind. cbn [get_self].
  rewrite run_bind. cbn [modify_self]. rewrite run_bind.
  match goal with |- context [Multi.unwind ?st None ?m1] =>
    destruct (unwind_run st None m1) as (new & p & Hrun & Hx & He) end.
  rewrite Hrun. exists new.
  destruct p as [e|]; cbn; repeat split; auto; discriminate.
Qed.

End Teardown.

(** X12.  When [main] of the multi-server client ends, by returning or by
    raising, every context that was entered for a server has been exited
    once, the last one entered first, and the exit stack is empty. *)
Theorem main_exits_every_context (E : Outside) (fuel turn_fuel : nat)
    (m : Machine E Multi.MCPChatBot) :
  (Multi.main fuel turn_fuel m).2 <> OutOfFuel ->
  exists new,
    trace (Multi.main fuel turn_fuel m).1 = trace m ++ new /\
    exited new = rev (entered new) /\
    Multi.exit_stack (self (Multi.main fuel turn_fuel m).1) = [].
Proof.
  unfold Multi.main. rewrite run_bind. cbn [modify_self].
  set (m0 := set_self Multi.__init__ m).
  assert (acquires (Multi.connect_to_servers (E := E);;
                    Multi.chat_loop fuel turn_fuel)) as Hb.
  { apply acquires_bind; [apply acquires_connect_to_servers|intros _].
    apply acquires_chat_loop. }
  destruct (Hb m0) as (new1 & Ht1 & Hs1 & Hx1).
  unfold try_finally.
  destruct ((Multi.connect_to_servers;; Multi.chat_loop fuel turn_fuel) m0)
    as [m1 r1].
  cbn [fst snd] in *. rewrite app_nil_r in Hs1.
  destruct (cleanup_run m1) as (new2 & Ht2 & Hx2 & He2 & Hs2 & Hf2).
  assert (trace (Multi.cleanup m1).1 = trace m ++ (new1 ++ new2) /\
          exited (new1 ++ new2) = rev (entered (new1 ++ new2))) as [Ht Hx].
  { rewrite Ht2, Ht1, entered_app, exited_app, Hx1, Hx2, He2, Hs1,
      app_nil_r, <- app_assoc. auto. }
  destruct r1 as [[]|e|]; [| |intros H; contradiction];
    destruct (Multi.cleanup m1) as [m2 [[]|e2|]]; cbn [fst snd] in *;
    intros _; try contradiction; exists (new1 ++ new2); auto.
Qed.


Section Balanced.
Context {E : Outside} {B : Type}.
Implicit Types m : Machine E B.

Lemma quiet_balanced {A} (c : M E B A) : quiet c -> balanced c.
Proof.
  intros Hc m _. destruct (Hc m) as (new & Ht & He & Hx).
  exists new. rewrite He, Hx. auto.
Qed.

Lemma quiet_unchanged {A} (c : M E B A) :
  (forall m, trace (c m).1 = trace m) -> quiet c.
Proof. intros H m. exists []. rewrite H, app_nil_r. auto. Qed.

Lemma quiet_bind {A C} (c : M E B A) (k : A -> M E B C) :
  quiet c -> (forall a, quiet (k a)) -> quiet (c ≫= k).
Proof.
  intros Hc Hk m. rewrite run_bind.
  destruct (Hc m) as (new1 & Ht1 & He1 & Hx1).
  destruct (c m) as [m1 [a|e|]]; cbn [fst] in *.
  - destruct (Hk a m1) as (new2 & Ht2 & He2 & Hx2).
    exists (new1 ++ new2).
    rewrite Ht2, Ht1, entered_app, exited_app, He1, He2, Hx1, Hx2,
      <- app_assoc. auto.
  - exists new1. auto.
  - exists new1. auto.
Qed.

Lemma quiet_external {A} (f : World E -> World E * (Exn + A)) ev :
  (forall r, entered [ev r] = [] /\ exited [ev r] = []) ->
  quiet (external f ev : M E B A).
Proof.
  intros H m. unfold external. destruct (f (world m)) as [w r].
  exists [ev r]. destruct (H r). auto.
Qed.

Lemma balanced_async_with {R} (f : World E -> World E * (Exn + R)) ev
    (res : R -> Resource) (body : R -> M E B unit) :
  (forall e, entered [ev (inl e)] = []) ->
  (forall x, entered [ev (inr x)] = [res x]) ->
  (forall r, exited [ev r] = []) ->
  (forall x, balanced (body x)) ->
  balanced (async_with (external f ev) res body).
Proof.
  intros Hfail Hok Hx Hbody m. unfold async_with.
  rewrite external_run.
  destruct (f (world m)) as [w [e|x]].
  - intros _. exists [ev (inl e)]. cbn [fst]. rewrite Hfail, Hx. auto.
  - set (m1 := emit (ev (inr x)) (set_world w m)).
    specialize (Hbody x m1).
    destruct (body x m1) as [m2 [[]|e|]]; cbn [fst snd] in *;
      [| |intros H; contradiction];
      (destruct Hbody as (newb & Htb & Hxb); [discriminate|]);
      unfold aexit;
      match goal with |- context [exit_context E (world m2) ?r ?p] =>
        destruct (exit_context E (world m2) r p) as [w3 [e3|[|]]] end;
      intros _; eexists (ev (inr x) :: newb ++ [_]);
      cbn [fst trace emit set_trace set_world]; rewrite Htb;
      (split; [subst m1; cbn; rewrite <- !app_assoc; reflexivity|]);
      change (ev (inr x) :: newb ++ ?l) with ([ev (inr x)] ++ newb ++ l);
      rewrite !entered_app, !exited_app, Hok, Hx, Hxb, !rev_app_distr;
      reflexivity.
Qed.

End Balanced.

Section SingleRun.
Context {E : Outside}.

Lemma single_chat_events_enter_nothing b new :
  Forall (chat_event single_turn_event b) new ->
  entered new = [] /\ exited new = [].
Proof.
  intros H. induction H as [|ev new Hev _ [IH1 IH2]]; [auto|].
  destruct ev; cbn in Hev; try contradiction; split; assumption.
Qed.

Lemma quiet_single_chat_loop fuel turn_fuel :
  quiet (Single.chat_loop (E := E) fuel turn_fuel).
Proof.
  intros m.
  destruct (single_chat_loop_confined fuel turn_fuel m)
    as (new & Ht & _ & Hp).
  apply single_chat_events_enter_nothing in Hp as [He Hx].
  exists new. auto.
Qed.

End SingleRun.

(** X13.  When [main] of the single-server client ends, by returning or by
    raising, the contexts it entered have been exited once each, the session
    before the transport. *)
Theorem single_run_exits_every_context (E : Outside) (fuel turn_fuel : nat)
    (m : Machine E Single.MCP_ChatBot) :
  (Single.main fuel turn_fuel m).2 <> OutOfFuel ->
  exists new,
    trace (Single.main fuel turn_fuel m).1 = trace m ++ new /\
    exited new = rev (entered new).
Proof.
  unfold Single.main. rewrite run_bind. cbn [modify_self].
  change (trace m) with (trace (set_self Single.__init__ m)).
  generalize (set_self Single.__init__ m). clear m.
  change (balanced (Single.connect_to_server_and_run (E := E) fuel turn_fuel)).
  unfold Single.connect_to_server_and_run.
  apply balanced_async_with; try reflexivity.
  intros tr. apply balanced_async_with; try reflexivity.
  intros s. apply quiet_balanced.
  apply quiet_bind; [apply quiet_unchanged; reflexivity|intros _].
  apply quiet_bind; [apply quiet_external; intros r; auto|intros _].
  apply quiet_bind; [apply quiet_external; intros r; auto|intros tools].
  apply quiet_bind; [apply quiet_unchanged; reflexivity|intros _].
  apply quiet_single_chat_loop.
Qed.


(** ** What a turn reads of the client *)

(** X1.  A turn of either client leaves the client object as it was, and
    every request it makes to the model carries the tool catalog the client
    had when the turn began. *)
Theorem turn_keeps_client_and_catalog (E : Outside) (fuel : nat)
    (query : string) :
  (forall m : Machine E Multi.MCPChatBot,
     self (Multi.process_query fuel query m).1 = self m /\
     exists new,
       trace (Multi.process_query fuel query m).1 = trace m ++ new /\
       forall tools msgs r,
         In (EvCreate tools msgs r) new ->
         tools = Multi.available_tools (self m)) /\
  (forall m : Machine E Single.MCP_ChatBot,
     self (Single.process_query fuel query m).1 = self m /\
     exists new,
       trace (Single.process_query fuel query m).1 = trace m ++ new /\
       forall tools msgs r,
         In (EvCreate tools msgs r) new ->
         tools = Single.available_tools (self m)).
Proof.
  split; intros m.
  - destruct (multi_process_query_confined fuel query m)
      as (new & Ht & Hs & Hp).
    split; [exact Hs|]. exists new. split; [exact Ht|].
    intros tools msgs r Hin. rewrite Forall_forall in Hp.
    apply (Hp (EvCreate tools msgs r)). apply list_elem_of_In. exact Hin.
  - destruct (single_process_query_confined fuel query m)
      as (new & Ht & Hs & Hp).
    split; [exact Hs|]. exists new. split; [exact Ht|].
    intros tools msgs r Hin. rewrite Forall_forall in Hp.
    apply (Hp (EvCreate tools msgs r)). apply list_elem_of_In. exact Hin.
Qed.

(** X2.  Every tool invocation of a turn goes where the client says: in the
    multi-server client to the session the registry binds the tool name to,
    in the single-server client to its one session. *)
Theorem tool_calls_follow_registry (E : Outside) (fuel : nat)
    (query : string) :
  (forall m : Machine E Multi.MCPChatBot,
     exists new,
       trace (Multi.process_query fuel query m).1 = trace m ++ new /\
       forall s tname args r,
         In (EvCallTool s tname args r) new ->
         Multi.tool_to_session (self m) !! tname = Some s) /\
  (forall m : Machine E Single.MCP_ChatBot,
     exists new,
       trace (Single.process_query fuel query m).1 = trace m ++ new /\
       forall s tname args r,
         In (EvCallTool s tname args r) new ->
         Single.session (self m) = Some s).
Proof.
  split; intros m.
  - destruct (multi_process_query_confined fuel query m)
      as (new & Ht & Hs & Hp).
    exists new. split; [exact Ht|].
    intros s n a r Hin. rewrite Forall_forall in Hp.
    apply (Hp (EvCallTool s n a r)). apply list_elem_of_In. exact Hin.
  - destruct (single_process_query_confined fuel query m)
      as (new & Ht & Hs & Hp).
    exists new. split; [exact Ht|].
    intros s n a r Hin. rewrite Forall_forall in Hp.
    apply (Hp (EvCallTool s n a r)). apply list_elem_of_In. exact Hin.
Qed.

(** ** The catalog and the connections *)

Lemma listed_app (t1 t2 : list Event) :
  listed (t1 ++ t2) = listed t1 ++ listed t2.
Proof. apply flat_map_app. Qed.

Lemma registrations_names (t : list Event) :
  map fst (registrations t) = map tool_name (listed t).
Proof.
  induction t as [|ev t IH]; [reflexivity|].
  unfold registrations, listed in *. cbn [flat_map].
  rewrite !map_app, IH. f_equal.
  destruct ev as [ | | | | | | |s r| | | | ]; try reflexivity.
  destruct r as [e|tools]; [reflexivity|]. rewrite map_map. reflexivity.
Qed.

Lemma last_registration_is_Some tname regs :
  is_Some (last_registration tname regs) <-> In tname (map fst regs).
Proof.
  induction regs as [|[n s] regs IH]; cbn.
  - split; [intros [x H]; discriminate|intros []].
  - destruct (last_registration tname regs) as [s'|].
    + split; [intros _; right; apply IH; eauto|eauto].
    + destruct (String.eqb_spec n tname) as [->|Hne].
      * split; [intros _; left; reflexivity|eauto].
      * split; [intros [x H]; discriminate|].
        intros [H|H]; [contradiction|]. apply IH in H as [x H].
        discriminate.
Qed.

Section Catalog.
Context {E : Outside}.
Implicit Types m : Machine E Multi.MCPChatBot.

Lemma connect_to_server_catalog server_name cfg m :
  catalog_consistent m ->
  catalog_consistent (Multi.connect_to_server server_name cfg m).1.
Proof.
  unfold catalog_consistent. intros Hm.
  destruct (connect_to_server_cases server_name cfg m)
    as (new & Ht & _ & _ & Hc).
  destruct (Multi.connect_to_server server_name cfg m) as [m' r].
  cbn [fst snd] in *. rewrite Ht, listed_app, map_app.
  inversion Hc; subst; rewrite ?registered_available_tools; cbn;
    rewrite ?app_nil_r; congruence.
Qed.

Lemma connect_to_servers_catalog m :
  catalog_consistent m ->
  catalog_consistent (Multi.connect_to_servers m).1.
Proof.
  intros Hm. unfold Multi.connect_to_servers.
  rewrite try_reraise, run_bind, external_run.
  assert (forall w r,
            catalog_consistent (emit (EvReadConfig r) (set_world w m)))
    as Hstart.
  { intros w r. unfold catalog_consistent in *. cbn.
    rewrite listed_app. cbn. rewrite app_nil_r. exact Hm. }
  destruct (read_config E (world m)) as [w [e|servers]]; [apply Hstart|].
  generalize (Hstart w (inr servers)).
  generalize (emit (EvReadConfig (inr servers)) (set_world w m)).
  unfold Multi.for_servers.
  induction servers as [|[n c] servers IH]; intros m0 H0; [exact H0|].
  cbn [for_in]. rewrite run_bind.
  pose proof (connect_to_server_catalog n c m0 H0) as H1.
  destruct (Multi.connect_to_server n c m0) as [m1 [[]|e|]];
    cbn [fst] in *; [apply IH; exact H1|exact H1|exact H1].
Qed.

Lemma for_servers_attempts servers m :
  exists k,
    k <= length servers /\
    opened (trace (Multi.for_servers servers m).1)
    = opened (trace m) ++ take k (map snd servers) /\
    ((Multi.for_servers servers m).2 = Return tt -> k = length servers) /\
    (forall e, (Multi.for_servers servers m).2 = Raise e -> 0 < k).
Proof.
  revert m. induction servers as [|[n c] servers IH]; intros m.
  - exists 0. cbn. rewrite app_nil_r.
    repeat split; auto. intros e H. discriminate.
  - unfold Multi.for_servers in *. cbn [for_in]. rewrite run_bind.
    pose proof (connect_to_server_opened n c m) as Ho.
    destruct (Multi.connect_to_server n c m) as [m1 [[]|e|]]; cbn [fst] in *.
    + destruct (IH m1) as (k & Hk & Hop & Hret & Hraise).
      exists (S k). cbn [length map take snd].
      rewrite Hop, Ho, <- app_assoc.
      split; [lia|]. split; [reflexivity|].
      split; [intros H; rewrite (Hret H); reflexivity|intros; lia].
    + exists 1. cbn [length map take snd]. rewrite Ho, take_0.
      split; [lia|]. split; [reflexivity|].
      split; [discriminate|intros; lia].
    + exists 1. cbn [length map take snd]. rewrite Ho, take_0.
      split; [lia|]. split; [reflexivity|].
      split; [discriminate|intros; lia].
Qed.

End Catalog.

(** X14.  After [connect_to_servers] on a new client, whatever its outcome,
    the catalog holds one entry for every tool a server listed, in the order
    they were listed and with repeated names kept, and the names in the
    catalog are the names the registry binds. *)
Theorem catalog_keeps_every_listed_tool (E : Outside) (w : World E) :
  let m' := (Multi.connect_to_servers (fresh w)).1 in
  Multi.available_tools (self m') = map definition_of (listed (trace m')) /\
  forall tname,
    In tname (map name (Multi.available_tools (self m'))) <->
    is_Some (Multi.tool_to_session (self m') !! tname).
Proof.
  intros m'.
  assert (catalog_consistent m') as Hc
    by (apply connect_to_servers_catalog; reflexivity).
  split; [exact Hc|]. intros tname.
  assert (registry_consistent m') as (Hlook & _).
  { apply connect_to_servers_consistent.
    split; [|split]; cbn; [intros; apply lookup_empty| |reflexivity].
    intros n s H. rewrite lookup_empty in H. discriminate. }
  rewrite Hlook, last_registration_is_Some, registrations_names.
  unfold catalog_consistent in Hc. rewrite Hc, map_map. reflexivity.
Qed.

(** X15.  A connection that fails leaves the registry, the catalog and the
    transcript as they were.  [self.sessions] is as it was when the failure
    comes before the session is initialised; when the server is launched and
    initialised and it is the listing of its tools that fails, the new
    session has been appended to [self.sessions], with no tool of its own in
    the registry. *)
Theorem failed_connection_registers_nothing (E : Outside)
    (m m' : Machine E Multi.MCPChatBot) (server_name server_config : string)
    (e : Exn) :
  Multi.connect_to_server server_name server_config m = (m', Raise e) ->
  Multi.tool_to_session (self m') = Multi.tool_to_session (self m) /\
  Multi.available_tools (self m') = Multi.available_tools (self m) /\
  messages m' = messages m /\
  exists new,
    trace m' = trace m ++ new /\
    Multi.sessions (self m')
    = match last new with
      | Some (EvListTools s (inl _)) => Multi.sessions (self m) ++ [s]
      | _ => Multi.sessions (self m)
      end.
Proof.
  intros Hrun.
  destruct (connect_to_server_cases server_name server_config m)
    as (new & Ht & Hm & _ & Hc).
  rewrite Hrun in Ht, Hm, Hc. cbn [fst snd] in *.
  inversion Hc; subst; cbn; repeat split; auto;
    eexists; (split; [exact Ht|]); reflexivity.
Qed.

(** X16.  When the configuration cannot be read, [connect_to_servers] raises
    that error and attempts no connection; when it is read, the connections
    attempted are those of an initial part of the configured servers, in
    order: all of them when it returns, at least one when it raises. *)
Theorem connection_attempts_follow_configuration (E : Outside)
    (m : Machine E Multi.MCPChatBot) (w : World E) :
  (forall e,
     read_config E (world m) = (w, inl e) ->
     Multi.connect_to_servers m
     = (emit (EvReadConfig (inl e)) (set_world w m), Raise e)) /\
  (forall servers,
     read_config E (world m) = (w, inr servers) ->
     exists k,
       k <= length servers /\
       opened (trace (Multi.connect_to_servers m).1)
       = opened (trace m) ++ take k (map snd servers) /\
       ((Multi.connect_to_servers m).2 = Return tt -> k = length servers) /\
       (forall e, (Multi.connect_to_servers m).2 = Raise e -> 0 < k)).
Proof.
  split.
  - intros e Hcfg. unfold Multi.connect_to_servers.
    rewrite try_reraise, run_bind, external_run, Hcfg. reflexivity.
  - intros servers Hcfg. unfold Multi.connect_to_servers.
    rewrite try_reraise, run_bind, external_run, Hcfg.
    destruct (for_servers_attempts servers
                (emit (EvReadConfig (inr servers)) (set_world w m)))
      as (k & Hk & Hop & Hret & Hraise).
    exists k. split; [exact Hk|]. split; [|split; assumption].
    rewrite Hop. cbn. rewrite opened_app. cbn. rewrite app_nil_r.
    reflexivity.
Qed.


(** ** More concrete runs *)

Section MoreRuns.
Import Scenario.

Lemma single_ends_turn_without_tool_use_witness :
  let resp := [TextBlock "a"; TextBlock "b"] in
  let E := outside (script [resp]) (inr two_servers) in
  let m := set_messages [UserMessage "q"] (single (script [resp])) in
  Single.while_iteration 1 1 m =
  (set_trace
     (trace m ++
      EvCreate (Single.available_tools (self m)) (render m) (inr resp)
      :: map EvPrint (texts resp))
     (set_world ((1, 1) : World E) m),
   Return 1).
Proof.
  intros resp E m.
  apply (single_ends_turn_without_tool_use E m 0 1 ((1, 1) : World E) resp).
  - unfold Single.max_iterations. lia.
  - repeat constructor.
  - vm_compute. reflexivity.
Defined.

Lemma multi_never_ends_without_tool_use_witness :
  let model := fun _ : nat =>
    (inr [TextBlock "a"; TextBlock "b"] : Exn + list ContentBlock) in
  (Multi.process_query 5 "q" (connected model)).2 = OutOfFuel.
Proof.
  intros model.
  apply (multi_never_ends_without_tool_use
           (outside model (inr two_servers))).
  intros w tools msgs. exists (S w.1, w.2), [TextBlock "a"; TextBlock "b"].
  split; [reflexivity|]. split; [repeat constructor|cbn; lia].
Defined.

Lemma multi_round_ends_on_single_text_witness :
  let resp := [TextBlock "let me look"; use_A] in
  let E := outside (script [resp]) (inr two_servers) in
  let m := set_messages [UserMessage "q"] (connected (script [resp])) in
  let m' := (Multi.round true m).1 in
  true = negb (single_text resp) /\
  exists new,
    trace m' = trace m ++
      EvCreate (Multi.available_tools (self m)) (render m) (inr resp) :: new /\
    displayed new = texts resp.
Proof.
  intros resp E m m'.
  apply (multi_round_ends_on_single_text E m m' ((1, 2) : World E) resp true);
    vm_compute; reflexivity.
Defined.

Lemma multi_round_transcript_witness :
  let resp := [use_A; use_B] in
  let E := outside (script [resp]) (inr two_servers) in
  let m := set_messages [UserMessage "q"] (connected (script [resp])) in
  let m' := (Multi.round true m).1 in
  exists results,
    map fst results = ["A"; "B"] /\
    render m' = render m ++
      flat_map (fun r => [RAssistant (kept resp); RToolResult r.1 r.2])
               results /\
    well_formed m'.
Proof.
  intros resp E m m'.
  apply (multi_round_transcript E m m' ((1, 2) : World E) resp true).
  - repeat constructor.
  - vm_compute. reflexivity.
  - vm_compute. reflexivity.
Defined.

Lemma chat_loop_quit_witness :
  let E := typing insistent "quit" in
  let m := multi_in E ((0, 2) : World E) in
  Multi.chat_loop 3 1 m
  = (emit (EvInput (inr "quit")) (set_world ((0, 2) : World E) m), Return tt).
Proof.
  intros E m.
  assert (lower E (strip E "quit") = "quit") as H by reflexivity.
  destruct (chat_loop_quit E 2 1 "quit" H) as [HM _].
  apply HM. reflexivity.
Defined.

Lemma chat_loop_lets_other_exceptions_through_witness :
  let E := interrupting insistent in
  let m := multi_in E ((0, 2) : World E) in
  Multi.chat_loop 3 1 m
  = (emit (EvInput (inl KeyboardInterrupt)) (set_world ((0, 2) : World E) m),
     Raise KeyboardInterrupt).
Proof.
  intros E m.
  destruct (chat_loop_lets_other_exceptions_through E 2 1 KeyboardInterrupt
              eq_refl) as [HM _].
  apply HM. reflexivity.
Defined.

Lemma failed_turn_is_reported_witness :
  let E := typing (script [[use_broken]]) "go" in
  let m := multi_in E ((0, 2) : World E) in
  let m' := (Multi.process_query 3 "go"
               (emit (EvInput (inr "go")) m)).1 in
  Multi.chat_loop 2 3 m
  = Multi.chat_loop 1 3 (emit (EvError (Error "tool failed")) m').
Proof.
  intros E m m'.
  assert (lower E (strip E "go") <> "quit") as H by discriminate.
  destruct (failed_turn_is_reported E 1 3 "go" (Error "tool failed")
              eq_refl H)
    as [HM _].
  apply (HM m m' ((0, 2) : World E)).
  - reflexivity.
  - vm_compute. reflexivity.
Defined.

Lemma unreadable_input_never_ends_witness :
  let E := closed_terminal insistent in
  (Multi.chat_loop 4 1 (multi_in E ((0, 2) : World E))).2 = OutOfFuel.
Proof.
  intros E.
  assert (forall w : World E, exists (w' : World E) e,
            input E w = (w', inl e) /\ is_Exception e = true) as H.
  { intros w. exists w, (Error "EOF when reading a line").
    split; reflexivity. }
  destruct (unreadable_input_never_ends E H 4 1) as [HM _].
  apply (HM (multi_in E ((0, 2) : World E))).
Defined.

Lemma main_exits_every_context_witness :
  let E := typing insistent "quit" in
  let run := Multi.main 1 1 (multi_in E ((0, 0) : World E)) in
  exists new,
    trace run.1 = new /\
    exited new = rev (entered new) /\
    Multi.exit_stack (self run.1) = [].
Proof.
  intros E run.
  assert (run.2 <> OutOfFuel) as H by (vm_compute; discriminate).
  destruct (main_exits_every_context E 1 1 (multi_in E ((0, 0) : World E)) H)
    as (new & Ht & Hx & Hs).
  exists new. split; [exact Ht|]. split; [exact Hx|exact Hs].
Defined.

Lemma single_run_exits_every_context_witness :
  let E := typing insistent "quit" in
  let run := Single.main 1 1 (single_in E ((0, 0) : World E)) in
  exists new, trace run.1 = new /\ exited new = rev (entered new).
Proof.
  intros E run.
  assert (run.2 <> OutOfFuel) as H by (vm_compute; discriminate).
  destruct (single_run_exits_every_context E 1 1
              (single_in E ((0, 0) : World E)) H) as (new & Ht & Hx).
  exists new. split; [exact Ht|exact Hx].
Defined.

Lemma turn_keeps_client_and_catalog_witness :
  let m := connected (script [[use_A]]) in
  let run := Multi.process_query 3 "q" m in
  self run.1 = self m /\
  Multi.available_tools (self m) = map definition_of [search; fetch; search].
Proof.
  intros m run.
  destruct (turn_keeps_client_and_catalog
              (outside (script [[use_A]]) (inr two_servers)) 3 "q")
    as [HM _].
  destruct (HM m) as (Hs & new & Ht & Hc).
  split; [exact Hs|].
  assert (exists t1 t2 msgs r,
            trace run.1 = trace m ++ t1 ++
              EvCreate (map definition_of [search; fetch; search]) msgs r
              :: t2) as (t1 & t2 & msgs & r & Hrun).
  { exists [], (skipn 1 (skipn (length (trace m)) (trace run.1))),
      [RUser "q"], (inr [use_A]). vm_compute. reflexivity. }
  fold run in Ht. rewrite Ht in Hrun. apply app_inv_head in Hrun.
  symmetry. apply (Hc _ msgs r). rewrite Hrun.
  apply in_or_app. right. left. reflexivity.
Defined.

Lemma tool_calls_follow_registry_witness :
  let m := connected (script [[use_A]]) in
  Multi.tool_to_session (self m) !! "search" = Some 1.
Proof.
  intros m.
  destruct (tool_calls_follow_registry
              (outside (script [[use_A]]) (inr two_servers)) 3 "q")
    as [HM _].
  destruct (HM m) as (new & Ht & Hc).
  assert (exists t1 t2 r,
            trace (Multi.process_query 3 "q" m).1 = trace m ++ t1 ++
              EvCallTool 1 "search" "x" r :: t2) as (t1 & t2 & r & Hrun).
  { eexists [_], (skipn 2 (skipn (length (trace m))
                             (trace (Multi.process_query 3 "q" m).1))),
      (inr {| result_content := "result of search"; isError := false |}).
    vm_compute. reflexivity. }
  rewrite Ht in Hrun. apply app_inv_head in Hrun.
  apply (Hc 1 "search" "x" r). rewrite Hrun.
  apply in_or_app. right. left. reflexivity.
Defined.

Lemma failed_connection_registers_nothing_witness :
  let E := mute insistent in
  let m := fresh ((0, 0) : World E) in
  let m' := (Multi.connect_to_server "first" "cmd first" m).1 in
  Multi.tool_to_session (self m') = Multi.tool_to_session (self m) /\
  Multi.available_tools (self m') = Multi.available_tools (self m) /\
  messages m' = messages m /\
  Multi.sessions (self m') = Multi.sessions (self m) ++ [0].
Proof.
  intros E m m'.
  destruct (failed_connection_registers_nothing E m m' "first" "cmd first"
              (Error "no answer"))
    as (H1 & H2 & H3 & new & Ht & Hs); [vm_compute; reflexivity|].
  split; [exact H1|]. split; [exact H2|]. split; [exact H3|].
  rewrite Hs. cbn [trace m fresh app] in Ht. rewrite <- Ht.
  vm_compute. reflexivity.
Defined.

Lemma connection_attempts_follow_configuration_witness :
  let E := outside insistent (inr two_servers) in
  let m := fresh ((0, 0) : World E) in
  exists k,
    k <= 2 /\
    opened (trace (Multi.connect_to_servers m).1)
    = opened (trace m) ++ take k (map snd two_servers) /\
    ((Multi.connect_to_servers m).2 = Return tt -> k = 2) /\
    (forall e, (Multi.connect_to_servers m).2 = Raise e -> 0 < k).
Proof.
  intros E m.
  destruct (connection_attempts_follow_configuration E m ((0, 0) : World E))
    as [_ H].
  apply (H two_servers). reflexivity.
Defined.

End MoreRuns.


(** ** The single-server client from connection to chat *)

(** X18.  When the server is launched, the session opened and initialised
    and its tools listed, a run of the single-server client makes these four
    calls, then chats with that session and with the catalog of exactly the
    listed tools, and after the chat does nothing but leave its contexts. *)
Theorem single_run_chats_with_listed_catalog (E : Outside)
    (fuel turn_fuel : nat) (m : Machine E Single.MCP_ChatBot)
    (w1 w2 w3 w4 : World E) (tr : Transport) (s : Session)
    (tools : list Tool) :
  stdio_client E (world m) Single.server_params = (w1, inr tr) ->
  client_session E w1 tr = (w2, inr s) ->
  initialize E w2 s = (w3, inr tt) ->
  list_tools E w3 s = (w4, inr tools) ->
  exists chat exits,
    trace (Single.connect_to_server_and_run fuel turn_fuel m).1
    = trace m ++
      [EvStdioClient Single.server_params (inr tr);
       EvClientSession tr (inr s);
       EvInitialize s (inr tt);
       EvListTools s (inr tools)] ++ chat ++ exits /\
    Forall (chat_event single_turn_event
              {| Single.session := Some s;
                 Single.available_tools := map definition_of tools |}) chat /\
    Forall is_exit exits.
Proof.
  intros H1 H2 H3 H4.
  unfold Single.connect_to_server_and_run, async_with at 1.
  rewrite external_run, H1.
  unfold async_with. rewrite external_run.
  cbn [world emit set_trace set_world]. rewrite H2.
  rewrite run_bind. cbn [modify_self].
  rewrite run_bind, external_run.
  cbn [world emit set_trace set_world set_self]. rewrite H3.
  rewrite run_bind, external_run.
  cbn [world emit set_trace set_world set_self]. rewrite H4.
  rewrite run_bind. cbn [modify_self].
  match goal with |- context [Single.chat_loop fuel turn_fuel ?m4] =>
    destruct (single_chat_loop_confined fuel turn_fuel m4)
      as (chat & Ht & _ & Hp);
    destruct (Single.chat_loop fuel turn_fuel m4) as [m5 r5]
  end.
  cbn [fst self set_self emit set_trace set_world trace
       Single.session Single.available_tools] in Ht, Hp.
  unfold aexit.
  assert (forall (m' : Machine E Single.MCP_ChatBot) exits,
            Forall is_exit exits ->
            trace m' = trace m5 ++ exits ->
            exists chat exits,
              trace m' = trace m ++
                [EvStdioClient Single.server_params (inr tr);
                 EvClientSession tr (inr s);
                 EvInitialize s (inr tt);
                 EvListTools s (inr tools)] ++ chat ++ exits /\
              Forall (chat_event single_turn_event
                        {| Single.session := Some s;
                           Single.available_tools :=
                             map definition_of tools |}) chat /\
              Forall is_exit exits) as Hend.
  { intros m' exits Hex Hm'. exists chat, exits.
    rewrite Hm', Ht, <- !app_assoc. auto. }
  destruct r5 as [[]|e|].
  - destruct (exit_context E (world m5) (SessionCtx s) None)
      as [w6 [e6|b6]]; cbn [world emit set_trace set_world].
    + destruct (exit_context E w6 (TransportCtx tr) (Some e6))
        as [w7 [e7|[|]]];
        (eapply Hend; [|cbn; rewrite <- !app_assoc; reflexivity]);
        repeat constructor.
    + destruct b6;
        destruct (exit_context E w6 (TransportCtx tr) None)
          as [w7 [e7|b7]];
        (eapply Hend; [|cbn; rewrite <- !app_assoc; reflexivity]);
        repeat constructor.
  - destruct (exit_context E (world m5) (SessionCtx s) (Some e))
      as [w6 [e6|[|]]]; cbn [world emit set_trace set_world].
    + destruct (exit_context E w6 (TransportCtx tr) (Some e6))
        as [w7 [e7|[|]]];
        (eapply Hend; [|cbn; rewrite <- !app_assoc; reflexivity]);
        repeat constructor.
    + destruct (exit_context E w6 (TransportCtx tr) None)
        as [w7 [e7|b7]];
        (eapply Hend; [|cbn; rewrite <- !app_assoc; reflexivity]);
        repeat constructor.
    + destruct (exit_context E w6 (TransportCtx tr) (Some e))
        as [w7 [e7|[|]]];
        (eapply Hend; [|cbn; rewrite <- !app_assoc; reflexivity]);
        repeat constructor.
  - apply (Hend _ []); [constructor|cbn; rewrite app_nil_r; reflexivity].
Qed.

Lemma single_run_chats_with_listed_catalog_witness :
  let E := Scenario.with_input
             (Scenario.outside (Scenario.script [[Scenario.use_A]])
                               (inr Scenario.two_servers))
             (fun w => (w, inr (if Nat.eqb w.1 0 then "hello" else "quit"))) in
  let m := Scenario.single_in E ((0, 0) : World E) in
  exists chat exits,
    trace (Single.connect_to_server_and_run 2 3 m).1
    = trace m ++
      [EvStdioClient Single.server_params (inr 0);
       EvClientSession 0 (inr 0);
       EvInitialize 0 (inr tt);
       EvListTools 0 (inr [Scenario.search; Scenario.fetch])] ++
      chat ++ exits /\
    Forall (chat_event single_turn_event
              {| Single.session := Some 0;
                 Single.available_tools :=
                   map definition_of [Scenario.search; Scenario.fetch] |})
           chat /\
    Forall is_exit exits.
Proof.
  intros E m.
  apply (single_run_chats_with_listed_catalog E 2 3 m
           ((0, 1) : World E) ((0, 1) : World E)
           ((0, 1) : World E) ((0, 1) : World E));
    vm_compute; reflexivity.
Defined.

(** ** The rounds of a turn *)

Lemma split_at_create (c : Event) rest new2 pre tools msgs r post :
  model_calls rest = 0 ->
  c :: rest ++ new2 = pre ++ EvCreate tools msgs r :: post ->
  (pre = [] /\ c = EvCreate tools msgs r /\ post = rest ++ new2) \/
  (exists pre2, new2 = pre2 ++ EvCreate tools msgs r :: post).
Proof.
  intros Hrest H. destruct pre as [|x pre]; cbn in H.
  - inversion H. left. auto.
  - right. inversion H as [[Hx H']]. clear H Hx x c.
    revert pre H'. induction rest as [|y rest IH]; intros pre H'.
    + exists pre. exact H'.
    + destruct pre as [|z pre]; cbn in H'.
      * inversion H'; subst. discriminate Hrest.
      * inversion H'; subst.
        assert (model_calls rest = 0) as Hrest'
          by (destruct z; try discriminate Hrest; exact Hrest).
        apply (IH Hrest' pre). assumption.
Qed.

Lemma block_events_no_create {B} (P : B -> Event -> Prop) b rest :
  (forall ev, P b ev -> model_calls [ev] = 0) ->
  Forall (P b) rest -> model_calls rest = 0.
Proof.
  intros HP H. induction H as [|ev rest Hev _ IH]; [reflexivity|].
  change (model_calls ([ev] ++ rest) = 0).
  rewrite model_calls_app, (HP ev Hev), IH. reflexivity.
Qed.

Section MultiBlocks.
Context {E : Outside}.

Lemma multi_handle_tool_call_blocks i n a :
  confined multi_block_event (Multi._handle_tool_call (E := E) i n a).
Proof.
  intros m. rewrite multi_handle_tool_call_run.
  destruct (Multi.tool_to_session (self m) !! n) as [s|] eqn:Hs.
  - destruct (call_tool E (world m) s n a) as [w [e|c]];
      eexists [_]; cbn; repeat split; auto.
  - exists []. cbn. rewrite app_nil_r. auto.
Qed.

Lemma multi_for_content_blocks resp l b v :
  confined multi_block_event (Multi.for_content (E := E) resp l b v).
Proof.
  destruct b as [t|i n a|]; cbn [Multi.for_content].
  - apply confined_bind; [apply confined_print; intros; exact I|intros _].
    apply confined_bind; [apply confined_list_append|intros _].
    destruct (length resp =? 1)%nat; apply confined_ret.
  - apply confined_bind; [apply confined_list_append|intros _].
    apply confined_bind; [apply confined_extend_messages|intros _].
    apply confined_bind; [apply multi_handle_tool_call_blocks|intros _].
    destruct resp as [|[t0| |] [|]]; try apply confined_ret.
    apply confined_bind; [apply confined_print; intros; exact I|intros _].
    apply confined_ret.
  - apply confined_ret.
Qed.

Lemma multi_block_event_no_create (b : Multi.MCPChatBot) ev :
  multi_block_event b ev -> model_calls [ev] = 0.
Proof. destruct ev; cbn; intros H; try reflexivity; destruct H. Qed.

(** A round is the request to the model followed by the processing of the
    blocks of the answer. *)
Lemma multi_round_shape v (m : Machine E Multi.MCPChatBot) :
  exists w r rest,
    messages_create E (world m) (Multi.available_tools (self m)) (render m)
    = (w, r) /\
    trace (Multi.round v m).1 = trace m ++
      EvCreate (Multi.available_tools (self m)) (render m) r :: rest /\
    self (Multi.round v m).1 = self m /\
    model_calls rest = 0 /\
    Forall (multi_block_event (self m)) rest /\
    (forall e, r = inl e -> rest = [] /\ (Multi.round v m).2 = Raise e).
Proof.
  rewrite multi_round_run. cbn zeta.
  destruct (messages_create E (world m) _ _) as [w [e|resp]].
  - exists w, (inl e), []. cbn. repeat split; auto.
    inversion H; subst; reflexivity.
  - match goal with |- context [for_in resp ?f v ?m0] =>
      destruct (confined_for_in multi_block_event resp f v
                  (fun b v' => multi_for_content_blocks resp _ b v') m0)
        as (rest & Ht & Hs & Hp)
    end.
    exists w, (inr resp), rest. rewrite Ht, Hs. cbn.
    rewrite <- app_assoc. repeat split; auto.
    + eapply block_events_no_create; [|exact Hp].
      apply multi_block_event_no_create.
    + discriminate.
    + discriminate.
Qed.

End MultiBlocks.

Section MultiTurn.
Context {E : Outside}.
Variable b : Multi.MCPChatBot.
Variable Q : list ContentBlock -> Prop.
Variable R : list ContentBlock -> list Event -> Result unit -> Prop.

(** What a round does on a response that [Q] holds of: it ends the loop, by
    clearing the flag or by raising, and [R] holds. *)
Hypothesis Hround :
  forall v (m : Machine E Multi.MCPChatBot) w resp,
    self m = b ->
    messages_create E (world m) (Multi.available_tools b) (render m)
    = (w, inr resp) ->
    Q resp ->
    forall rest,
      trace (Multi.round v m).1 = trace m ++
        EvCreate (Multi.available_tools b) (render m) (inr resp) :: rest ->
      ((Multi.round v m).2 = Return false /\ R resp rest (Return tt)) \/
      (exists e, (Multi.round v m).2 = Raise e /\ R resp rest (Raise e)).

Lemma multi_while_settles fuel v (m : Machine E Multi.MCPChatBot) :
  self m = b ->
  exists new,
    trace (Multi.while_process_query fuel v m).1 = trace m ++ new /\
    settles Q R new (Multi.while_process_query fuel v m).2.
Proof.
  revert v m. induction fuel as [|fuel IH]; intros v m Hb.
  - exists []. destruct v; cbn; rewrite app_nil_r; (split; [reflexivity|]);
      intros [|? ?] ? ? ? ? H; discriminate H.
  - destruct v.
    2:{ exists []. cbn. rewrite app_nil_r. split; [reflexivity|].
        intros [|? ?] ? ? ? ? H; discriminate H. }
    cbn [Multi.while_process_query]. rewrite run_bind.
    destruct (multi_round_shape true m)
      as (w & r & rest & Hw & Ht & Hs & Hmc & _ & Herr).
    rewrite Hb in Hw, Ht.
    pose proof (fun resp => Hround true m w resp Hb) as Hr.
    destruct (Multi.round true m) as [m1 [v1|e|]] eqn:Hrun;
      cbn [fst snd] in *.
    + destruct (IH v1 m1) as (new2 & Ht2 & Hset2); [congruence|].
      exists (EvCreate (Multi.available_tools b) (render m) r
              :: rest ++ new2).
      split.
      { rewrite Ht2, Ht, <- app_assoc. reflexivity. }
      intros pre tools msgs resp post Hsplit HQ.
      apply (split_at_create _ _ _ _ _ _ _ _ Hmc) in Hsplit as
          [(_ & Hc & Hpost)|(pre2 & Hnew2)].
      * inversion Hc; subst r tools msgs.
        destruct (Hr resp Hw HQ rest Ht) as [[Hv HR]|(e & He & _)];
          [|discriminate].
        inversion Hv; subst v1.
        assert (new2 = []) as ->.
        { destruct fuel; cbn in Ht2;
            rewrite <- (app_nil_r (trace m1)) in Ht2 at 1;
            apply app_inv_head in Ht2; auto. }
        rewrite app_nil_r in Hpost. subst post.
        destruct fuel; exact HR.
      * exact (Hset2 pre2 tools msgs resp post Hnew2 HQ).
    + exists (EvCreate (Multi.available_tools b) (render m) r :: rest).
      split; [exact Ht|].
      intros pre tools msgs resp post Hsplit HQ.
      rewrite <- (app_nil_r rest) in Hsplit.
      apply (split_at_create _ _ _ _ _ _ _ _ Hmc) in Hsplit as
          [(_ & Hc & Hpost)|(pre2 & Hnew2)].
      * inversion Hc; subst r tools msgs. rewrite app_nil_r in Hpost.
        subst post.
        destruct (Hr resp Hw HQ rest Ht) as [[Hv _]|(e' & He & HR)];
          [discriminate|].
        inversion He; subst e'. exact HR.
      * destruct pre2; discriminate Hnew2.
    + exists (EvCreate (Multi.available_tools b) (render m) r :: rest).
      split; [exact Ht|].
      intros pre tools msgs resp post Hsplit HQ.
      rewrite <- (app_nil_r rest) in Hsplit.
      apply (split_at_create _ _ _ _ _ _ _ _ Hmc) in Hsplit as
          [(_ & Hc & Hpost)|(pre2 & Hnew2)].
      * inversion Hc; subst r tools msgs.
        destruct (Hr resp Hw HQ rest Ht) as [[Hv _]|(e' & He & HR)];
          discriminate.
      * destruct pre2; discriminate Hnew2.
Qed.

Lemma multi_process_query_settles fuel query
    (m : Machine E Multi.MCPChatBot) :
  self m = b ->
  exists new,
    trace (Multi.process_query fuel query m).1 = trace m ++ new /\
    settles Q R new (Multi.process_query fuel query m).2.
Proof.
  intros Hb. unfold Multi.process_query. rewrite run_bind.
  cbn [assign_messages].
  apply (multi_while_settles fuel true (set_messages [UserMessage query] m)).
  exact Hb.
Qed.

End MultiTurn.

Lemma split_before_last (x : Event) new pre tools msgs r post :
  model_calls [x] = 0 ->
  new ++ [x] = pre ++ EvCreate tools msgs r :: post ->
  exists post', post = post' ++ [x] /\
                new = pre ++ EvCreate tools msgs r :: post'.
Proof.
  intros Hx H. destruct post as [|y post' _] using rev_ind.
  - apply app_inj_tail in H as [_ ->]. discriminate Hx.
  - change (new ++ [x] = pre ++ (EvCreate tools msgs r :: post') ++ [y]) in H.
    rewrite app_assoc in H. apply app_inj_tail in H as [-> ->].
    exists post'. auto.
Qed.

Section SingleBlocks.
Context {E : Outside}.

Lemma single_for_content_blocks resp b :
  confined single_block_event (Single.for_content (E := E) resp b).
Proof.
  destruct b as [t|i n a|].
  - cbn [Single.for_content].
    apply confined_bind; [apply confined_print; intros; exact I|intros _].
    destruct (length resp =? 1)%nat; apply confined_ret.
  - intros m. rewrite single_for_content_tool_use.
    destruct (Single.session (self m)) as [s|] eqn:Hs.
    + destruct (call_tool E (world m) s n a) as [w [e|c]];
        eexists [_]; cbn; repeat split; auto.
    + exists []. cbn. rewrite app_nil_r. auto.
  - apply confined_ret.
Qed.

Lemma single_block_event_no_create (b : Single.MCP_ChatBot) ev :
  single_block_event b ev -> model_calls [ev] = 0.
Proof. destruct ev; cbn; intros H; try reflexivity; destruct H. Qed.

Lemma single_for_returns resp bs (m : Machine E Single.MCP_ChatBot) :
  (for_in_return bs (Single.for_content resp) m).2 <> OutOfFuel.
Proof.
  revert m. induction bs as [|b bs IH]; intros m; [discriminate|].
  cbn [for_in_return]. rewrite run_bind.
  destruct b as [t|i n a|].
  - rewrite single_for_content_text.
    destruct (length resp =? 1)%nat; [discriminate|apply IH].
  - rewrite single_for_content_tool_use.
    destruct (Single.session (self m)); [|discriminate].
    destruct (call_tool E _ _ _ _) as [w [e|c]]; discriminate.
  - apply IH.
Qed.

Lemma single_round_shape (m : Machine E Single.MCP_ChatBot) :
  exists w r rest,
    messages_create E (world m) (Single.available_tools (self m)) (render m)
    = (w, r) /\
    trace (Single.round m).1 = trace m ++
      EvCreate (Single.available_tools (self m)) (render m) r :: rest /\
    self (Single.round m).1 = self m /\
    model_calls rest = 0 /\
    Forall (single_block_event (self m)) rest /\
    (Single.round m).2 <> OutOfFuel.
Proof.
  rewrite single_round_run. cbn zeta.
  destruct (messages_create E (world m) _ _) as [w [e|resp]].
  - exists w, (inl e), []. cbn. repeat split; auto; discriminate.
  - rewrite single_process_content_blocks_run.
    match goal with |- context [for_in_return resp ?f ?m0] =>
      destruct (confined_for_in_return single_block_event resp f
                  (fun b => single_for_content_blocks resp b) m0)
        as (rest & Ht & Hs & Hp);
      assert ((for_in_return resp f m0).2 <> OutOfFuel) as Hfuel
    end.
    { apply single_for_returns. }
    exists w, (inr resp), rest.
    destruct (for_in_return _ _ _) as [m1 [[v|]|e|]];
      cbn [fst snd] in *; rewrite Ht, Hs; cbn; rewrite <- app_assoc;
      repeat split; auto;
      try (eapply block_events_no_create; [|exact Hp];
           apply single_block_event_no_create);
      try discriminate.
Qed.

End SingleBlocks.

Section SingleTurn.
Context {E : Outside}.
Variable b : Single.MCP_ChatBot.
Variable Q : list ContentBlock -> Prop.
Variable R : list ContentBlock -> list Event -> Result unit -> Prop.

Hypothesis Hround :
  forall (m : Machine E Single.MCP_ChatBot) w resp,
    self m = b ->
    messages_create E (world m) (Single.available_tools b) (render m)
    = (w, inr resp) ->
    Q resp ->
    forall rest,
      trace (Single.round m).1 = trace m ++
        EvCreate (Single.available_tools b) (render m) (inr resp) :: rest ->
      ((Single.round m).2 = Return false /\ R resp rest (Return tt)) \/
      (exists e, (Single.round m).2 = Raise e /\ R resp rest (Raise e)).

Lemma single_while_settles fuel i (m : Machine E Single.MCP_ChatBot) :
  self m = b ->
  exists new,
    trace (Single.while_iteration fuel i m).1 = trace m ++ new /\
    settles Q
      (fun resp post r =>
         (exists j, r = Return j /\ (Single.max_iterations <? j)%nat = false
                    /\ R resp post (Return tt)) \/
         (exists e, r = Raise e /\ R resp post (Raise e)))
      new (Single.while_iteration fuel i m).2.
Proof.
  revert i m. induction fuel as [|fuel IH]; intros i m Hb.
  - exists []. cbn. destruct (i <=? Single.max_iterations)%nat; cbn;
      rewrite app_nil_r; (split; [reflexivity|]);
      intros [|? ?] ? ? ? ? H; discriminate H.
  - cbn [Single.while_iteration].
    destruct (i <=? Single.max_iterations)%nat eqn:Hi.
    2:{ exists []. cbn. rewrite app_nil_r. split; [reflexivity|].
        intros [|? ?] ? ? ? ? H; discriminate H. }
    rewrite run_bind.
    destruct (single_round_shape m)
      as (w & r & rest & Hw & Ht & Hs & Hmc & _ & Hfuel).
    rewrite Hb in Hw, Ht.
    pose proof (fun resp => Hround m w resp Hb) as Hr.
    destruct (Single.round m) as [m1 [v1|e|]] eqn:Hrun;
      cbn [fst snd] in *; [| |congruence].
    + destruct v1; cbn [negb].
      * destruct (IH (i + 1) m1) as (new2 & Ht2 & Hset2); [congruence|].
        exists (EvCreate (Single.available_tools b) (render m) r
                :: rest ++ new2).
        split.
        { rewrite Ht2, Ht, <- app_assoc. reflexivity. }
        intros pre tools msgs resp post Hsplit HQ.
        apply (split_at_create _ _ _ _ _ _ _ _ Hmc) in Hsplit as
            [(_ & Hc & Hpost)|(pre2 & Hnew2)].
        -- inversion Hc; subst r tools msgs.
           destruct (Hr resp Hw HQ rest Ht) as [[Hv _]|(e & He & _)];
             discriminate.
        -- exact (Hset2 pre2 tools msgs resp post Hnew2 HQ).
      * exists (EvCreate (Single.available_tools b) (render m) r :: rest).
        split; [exact Ht|].
        intros pre tools msgs resp post Hsplit HQ.
        rewrite <- (app_nil_r rest) in Hsplit.
        apply (split_at_create _ _ _ _ _ _ _ _ Hmc) in Hsplit as
            [(_ & Hc & Hpost)|(pre2 & Hnew2)].
        -- inversion Hc; subst r tools msgs. rewrite app_nil_r in Hpost.
           subst post.
           destruct (Hr resp Hw HQ rest Ht) as [[_ HR]|(e & He & _)];
             [|discriminate].
           left. exists i. split; [reflexivity|]. split; [|exact HR].
           apply Nat.ltb_ge. apply Nat.leb_le. exact Hi.
        -- destruct pre2; discriminate Hnew2.
    + exists (EvCreate (Single.available_tools b) (render m) r :: rest).
      split; [exact Ht|].
      intros pre tools msgs resp post Hsplit HQ.
      rewrite <- (app_nil_r rest) in Hsplit.
      apply (split_at_create _ _ _ _ _ _ _ _ Hmc) in Hsplit as
          [(_ & Hc & Hpost)|(pre2 & Hnew2)].
      * inversion Hc; subst r tools msgs. rewrite app_nil_r in Hpost.
        subst post.
        destruct (Hr resp Hw HQ rest Ht) as [[Hv _]|(e' & He & HR)];
          [discriminate|].
        inversion He; subst e'. right. exists e. auto.
      * destruct pre2; discriminate Hnew2.
Qed.

Lemma single_process_query_settles fuel query
    (m : Machine E Single.MCP_ChatBot) :
  self m = b ->
  exists new,
    trace (Single.process_query fuel query m).1 = trace m ++ new /\
    settles Q R new (Single.process_query fuel query m).2.
Proof.
  intros Hb. unfold Single.process_query. rewrite run_bind.
  cbn [assign_messages]. rewrite try_reraise, run_bind.
  destruct (single_while_settles fuel 1 (set_messages [UserMessage query] m)
              Hb) as (new & Ht & Hset).
  destruct (Single.while_iteration fuel 1 _) as [m1 [j|e|]];
    cbn [fst snd] in *.
  - destruct (Single.max_iterations <? j)%nat eqn:Hj.
    + exists (new ++ [EvWarning]). cbn. rewrite Ht, <- app_assoc.
      split; [reflexivity|].
      intros pre tools msgs resp post Hsplit HQ.
      apply split_before_last in Hsplit as (post' & -> & Hnew);
        [|reflexivity].
      destruct (Hset pre tools msgs resp post' Hnew HQ)
        as [(j' & Hj' & Hle & _)|(e & He & _)]; [|discriminate].
      inversion Hj'; subst j'. congruence.
    + exists new. split; [exact Ht|].
      intros pre tools msgs resp post Hsplit HQ.
      destruct (Hset pre tools msgs resp post Hsplit HQ)
        as [(j' & Hj' & Hle & HR)|(e & He & _)]; [exact HR|discriminate].
  - exists new. split; [exact Ht|].
    intros pre tools msgs resp post Hsplit HQ.
    destruct (Hset pre tools msgs resp post Hsplit HQ)
      as [(j' & Hj' & _)|(e' & He & HR)]; [discriminate|].
    inversion He; subst e'. exact HR.
  - exists new. split; [exact Ht|].
    intros pre tools msgs resp post Hsplit HQ.
    destruct (Hset pre tools msgs resp post Hsplit HQ)
      as [(j' & Hj' & _)|(e' & He & _)]; discriminate.
Qed.

End SingleTurn.

(** ** A response of one text block, in a turn *)

(** C3.  In both clients, a turn whose first response is exactly one text
    block displays the text and returns after that one round: the only
    events are the model invocation and the display (no tool is dispatched,
    no warning is shown) and the transcript is the user query alone.  And in
    any turn, whatever the round, a response that is exactly one text block
    is followed by the display of its text and by nothing else, and the turn
    returns normally. *)
Theorem single_text_block_ends_turn (E : Outside) (fuel : nat)
    (query : string) :
  (forall m : Machine E Multi.MCPChatBot,
     (forall w t,
        messages_create E (world m) (Multi.available_tools (self m))
                        [RUser query] = (w, inr [TextBlock t]) ->
        Multi.process_query (S fuel) query m
        = ({| world := w;
              trace := trace m ++
                [EvCreate (Multi.available_tools (self m)) [RUser query]
                          (inr [TextBlock t]);
                 EvPrint t];
              heap := heap m ++ [[TextBlock t]];
              messages := [UserMessage query];
              self := self m |}, Return tt)) /\
     (exists new,
        trace (Multi.process_query fuel query m).1 = trace m ++ new /\
        forall pre tools msgs t post,
          new = pre ++ EvCreate tools msgs (inr [TextBlock t]) :: post ->
          post = [EvPrint t] /\
          (Multi.process_query fuel query m).2 = Return tt)) /\
  (forall m : Machine E Single.MCP_ChatBot,
     (forall w t,
        messages_create E (world m) (Single.available_tools (self m))
                        [RUser query] = (w, inr [TextBlock t]) ->
        Single.process_query (S fuel) query m
        = ({| world := w;
              trace := trace m ++
                [EvCreate (Single.available_tools (self m)) [RUser query]
                          (inr [TextBlock t]);
                 EvPrint t];
              heap := heap m;
              messages := [UserMessage query];
              self := self m |}, Return tt)) /\
     (exists new,
        trace (Single.process_query fuel query m).1 = trace m ++ new /\
        forall pre tools msgs t post,
          new = pre ++ EvCreate tools msgs (inr [TextBlock t]) :: post ->
          post = [EvPrint t] /\
          (Single.process_query fuel query m).2 = Return tt)).
Proof.
  split; intros m; split.
  - intros w t H.
    unfold Multi.process_query. rewrite run_bind. cbn [assign_messages].
    cbn [Multi.while_process_query]. rewrite run_bind, multi_round_run.
    cbn zeta. cbn [world self render messages set_messages heap map render1].
    rewrite H. cbn [for_in]. rewrite !run_bind, multi_for_content_text.
    cbn [length Nat.eqb]. rewrite run_ret.
    unfold set_heap, emit, set_trace, set_world, set_messages.
    cbn [world trace heap messages self].
    rewrite alter_app_r_alt by lia.
    replace (length (heap m) - length (heap m)) with 0 by lia.
    rewrite <- app_assoc. destruct fuel; reflexivity.
  - pose proof (multi_process_query_settles (E := E) (self m)
                  (fun resp => single_text resp = true)
                  (fun resp post r =>
                     post = map EvPrint (texts resp) /\ r = Return tt))
      as L.
    lapply L; [clear L; intros L|]; cycle 1.
    + intros v m0 w resp Hb Hw HQ rest Hrest.
      destruct resp as [|[t| |] [|]]; try discriminate HQ.
      rewrite <- Hb in Hw.
      destruct (multi_round_single_text m0 w t v Hw) as (m' & Hr & Ht' & _).
      rewrite Hr in Hrest |- *. cbn [fst snd] in *.
      rewrite Ht', <- Hb in Hrest. apply app_inv_head in Hrest.
      inversion Hrest; subst rest. left. auto.
    + destruct (L fuel query m eq_refl) as (new & Ht & Hset).
      exists new. split; [exact Ht|].
      intros pre tools msgs t post Hsplit.
      exact (Hset pre tools msgs [TextBlock t] post Hsplit eq_refl).
  - intros w t H.
    unfold Single.process_query. rewrite run_bind. cbn [assign_messages].
    rewrite try_reraise, run_bind.
    cbn [Single.while_iteration].
    change (1 <=? Single.max_iterations)%nat with true. cbn iota.
    rewrite run_bind, single_round_run.
    cbn zeta. cbn [world self render messages set_messages heap map render1].
    rewrite H. rewrite single_process_content_blocks_run.
    cbn [for_in_return]. rewrite run_bind, single_for_content_text.
    cbn [length Nat.eqb]. rewrite run_ret.
    unfold emit, set_trace, set_world, set_messages.
    cbn [world trace heap messages self negb].
    rewrite <- app_assoc. reflexivity.
  - pose proof (single_process_query_settles (E := E) (self m)
                  (fun resp => single_text resp = true)
                  (fun resp post r =>
                     post = map EvPrint (texts resp) /\ r = Return tt))
      as L.
    lapply L; [clear L; intros L|]; cycle 1.
    + intros m0 w resp Hb Hw HQ rest Hrest.
      destruct resp as [|[t| |] [|]]; try discriminate HQ.
      rewrite <- Hb in Hw.
      destruct (single_round_single_text m0 w t Hw) as (m' & Hr & Ht' & _).
      rewrite Hr in Hrest |- *. cbn [fst snd] in *.
      rewrite Ht', <- Hb in Hrest. apply app_inv_head in Hrest.
      inversion Hrest; subst rest. left. auto.
    + destruct (L fuel query m eq_refl) as (new & Ht & Hset).
      exists new. split; [exact Ht|].
      intros pre tools msgs t post Hsplit.
      exact (Hset pre tools msgs [TextBlock t] post Hsplit eq_refl).
Qed.

(** ** A tool-use block whose name is not in the registry *)

Section Unknown.
Context {E : Outside}.
Implicit Types m : Machine E Multi.MCPChatBot.

(** The blocks of a response are not processed past a tool-use block whose
    name is not in the registry. *)
Lemma multi_for_unknown resp l i n a bs v m :
  Multi.tool_to_session (self m) !! n = None ->
  In (ToolUseBlock i n a) bs ->
  exists e, (for_in bs (Multi.for_content resp l) v m).2 = Raise e.
Proof.
  intros Hnone. revert v m Hnone.
  induction bs as [|b bs IH]; intros v m Hnone Hin; [destruct Hin|].
  cbn [for_in]. rewrite run_bind.
  destruct b as [t|i' n' a'|].
  - rewrite multi_for_content_text.
    destruct Hin as [Hin|Hin]; [discriminate|].
    apply IH; [exact Hnone|exact Hin].
  - rewrite multi_for_content_tool_use, multi_handle_tool_call_run.
    cbn [announced self set_messages set_heap world].
    destruct (Multi.tool_to_session (self m) !! n') as [s|] eqn:Hs;
      [|eauto].
    destruct (call_tool E (world m) s n' a') as [w [e|c]]; [eauto|].
    destruct Hin as [Hin|Hin]; [inversion Hin; subst; congruence|].
    match goal with |- context [after_call resp v ?m1] =>
      destruct (after_call_run resp v m1) as (t1 & v1 & Ha1 & _)
    end.
    rewrite Ha1. apply IH; [exact Hnone|exact Hin].
  - cbn [Multi.for_content]. rewrite run_ret.
    destruct Hin as [Hin|Hin]; [discriminate|].
    apply IH; [exact Hnone|exact Hin].
Qed.

End Unknown.

Section UnknownTurn.
Context {E : Outside}.
Implicit Types m : Machine E Multi.MCPChatBot.

Lemma unknown_not_dispatched (b : Multi.MCPChatBot) n a rest :
  Multi.tool_to_session b !! n = None ->
  Forall (multi_block_event b) rest ->
  ~ In (n, a) (dispatched rest).
Proof.
  intros Hnone H. induction H as [|ev rest Hev _ IH]; [intros []|].
  destruct ev; try exact IH.
  cbn in Hev. intros [Heq|Hin]; [|exact (IH Hin)].
  inversion Heq; subst. congruence.
Qed.

(** The loop on a response whose first tool-use block names a tool that is
    not in the registry. *)
Lemma multi_unknown_first_tool_use m i n a fuel w pre post :
  Multi.tool_to_session (self m) !! n = None ->
  Forall (fun b => is_tool_use b = false) pre ->
  messages_create E (world m) (Multi.available_tools (self m)) (render m)
    = (w, inr (pre ++ ToolUseBlock i n a :: post)) ->
  exists m',
    Multi.while_process_query (S fuel) true m = (m', Raise (KeyError n)) /\
    trace m' = trace m ++
      EvCreate (Multi.available_tools (self m)) (render m)
               (inr (pre ++ ToolUseBlock i n a :: post))
      :: map EvPrint (texts pre) /\
    messages m' = messages m ++ [AssistantMessage (length (heap m))].
Proof.
  intros Hnone Hpre Hcreate.
  cbn [Multi.while_process_query]. rewrite run_bind, multi_round_run.
  cbn zeta. rewrite Hcreate, for_in_app.
  set (resp := pre ++ ToolUseBlock i n a :: post).
  set (m0 := set_heap _ _).
  assert (exists m1,
    for_in pre (Multi.for_content resp (length (heap m))) true m0
      = (m1, Return true) /\
    trace m1 = trace m0 ++ map EvPrint (texts pre) /\
    self m1 = self m /\ messages m1 = messages m)
    as (m1 & -> & Ht1 & Hs1 & Hm1).
  { destruct pre as [|b pre'] eqn:Hp.
    - exists m0. cbn. rewrite app_nil_r. auto.
    - rewrite <- Hp in *.
      destruct (multi_for_prefix resp (length (heap m)) pre true m0)
        as (h & Hrun & _); [|exact Hpre|].
      { apply Nat.eqb_neq. subst resp pre. cbn. rewrite length_app. cbn. lia. }
      eexists. split; [exact Hrun|]. repeat split; reflexivity. }
  cbn [for_in]. rewrite run_bind, multi_for_content_tool_use,
    multi_handle_tool_call_run.
  cbn [announced self set_messages set_heap]. rewrite Hs1, Hnone.
  eexists. split; [reflexivity|].
  cbn [trace messages announced set_messages set_heap].
  rewrite Ht1, Hm1. subst m0. cbn. rewrite <- app_assoc. auto.
Qed.

End UnknownTurn.

(** C4, as amended.  In the multi-server client, for every state of the
    registry and every tool name that is not in it, [_handle_tool_call]
    raises the [KeyError] of the failed lookup, calling no tool and appending
    no tool result.  A turn whose first response has such a name in its first
    tool-use block is aborted with that error after the texts before the
    block are displayed, with no tool invocation and no further model
    invocation.  And in any turn, whatever the round and wherever the block
    is in the response, a response with a tool-use block of such a name
    aborts the turn: the turn raises, no model invocation follows that
    response and no tool is invoked under that name. *)
Theorem unknown_tool_aborts_turn (E : Outside)
    (m : Machine E Multi.MCPChatBot) (i n a : string) :
  Multi.tool_to_session (self m) !! n = None ->
  Multi._handle_tool_call i n a m = (m, Raise (KeyError n)) /\
  (forall fuel query w pre post,
     Forall (fun b => is_tool_use b = false) pre ->
     messages_create E (world m) (Multi.available_tools (self m))
                     [RUser query]
       = (w, inr (pre ++ ToolUseBlock i n a :: post)) ->
     exists m',
       Multi.process_query (S fuel) query m = (m', Raise (KeyError n)) /\
       trace m' = trace m ++
         EvCreate (Multi.available_tools (self m)) [RUser query]
                  (inr (pre ++ ToolUseBlock i n a :: post))
         :: map EvPrint (texts pre) /\
       messages m'
       = [UserMessage query; AssistantMessage (length (heap m))]) /\
  (forall fuel query,
     exists new,
       trace (Multi.process_query fuel query m).1 = trace m ++ new /\
       forall before tools msgs resp after,
         new = before ++ EvCreate tools msgs (inr resp) :: after ->
         In (ToolUseBlock i n a) resp ->
         model_calls after = 0 /\
         (forall a', ~ In (n, a') (dispatched after)) /\
         exists e, (Multi.process_query fuel query m).2 = Raise e).
Proof.
  intros Hnone. split; [|split].
  - rewrite multi_handle_tool_call_run, Hnone. reflexivity.
  - intros fuel query w pre post Hpre Hcreate.
    unfold Multi.process_query. rewrite run_bind. cbn [assign_messages].
    apply (multi_unknown_first_tool_use
             (set_messages [UserMessage query] m) i n a fuel w pre post
             Hnone Hpre Hcreate).
  - intros fuel query.
    pose proof (multi_process_query_settles (E := E) (self m)
                  (fun resp => In (ToolUseBlock i n a) resp)
                  (fun resp post r =>
                     model_calls post = 0 /\
                     (forall a', ~ In (n, a') (dispatched post)) /\
                     exists e, r = Raise e))
      as L.
    lapply L; [clear L; intros L|]; cycle 1.
    + intros v m0 w resp Hb Hw HQ rest Hrest.
      destruct (multi_round_shape v m0)
        as (w1 & r1 & rest1 & Hw1 & Ht1 & _ & Hmc & Hev & _).
      rewrite Hb, Hw in Hw1. inversion Hw1; subst w1 r1.
      rewrite Hb, Hrest in Ht1. apply app_inv_head in Ht1.
      inversion Ht1; subst rest1. clear Ht1 Hw1.
      assert (exists e, (Multi.round v m0).2 = Raise e) as (e & Hr).
      { rewrite multi_round_run. cbn zeta. rewrite Hb, Hw.
        apply (multi_for_unknown resp (length (heap m0)) i n a resp v);
          [|exact HQ].
        cbn. rewrite Hb. exact Hnone. }
      right. exists e. split; [exact Hr|]. split; [exact Hmc|].
      split; [|exists e; auto].
      intros a'. apply (unknown_not_dispatched (self m)); [exact Hnone|].
      rewrite <- Hb. exact Hev.
    + destruct (L fuel query m eq_refl) as (new & Ht & Hset).
      exists new. split; [exact Ht|].
      intros before tools msgs resp after Hsplit HQ.
      exact (Hset before tools msgs resp after Hsplit HQ).
Qed.

(** ** Turns on concrete responses *)

Section TurnRuns.
Import Scenario.

(** C3 on the query "What's 2+2?" answered by "4". *)
Lemma single_text_block_ends_turn_witness :
  (exists m',
     Multi.process_query 1 "What's 2+2?" (connected (script [[TextBlock "4"]]))
     = (m', Return tt) /\
     displayed (trace m') = ["4"] /\ dispatched (trace m') = []) /\
  (exists m',
     Single.process_query 1 "What's 2+2?" (single (script [[TextBlock "4"]]))
     = (m', Return tt) /\
     displayed (trace m') = ["4"] /\ dispatched (trace m') = []).
Proof.
  set (E := outside (script [[TextBlock "4"]]) (inr two_servers)).
  destruct (single_text_block_ends_turn E 0 "What's 2+2?") as [HM HS].
  split.
  - destruct (HM (connected (script [[TextBlock "4"]]))) as [H _].
    rewrite (H ((1, 2) : World E) "4") by (vm_compute; reflexivity).
    eexists. split; [reflexivity|].
    split; vm_compute; reflexivity.
  - destruct (HS (single (script [[TextBlock "4"]]))) as [H _].
    rewrite (H ((1, 1) : World E) "4") by (vm_compute; reflexivity).
    eexists. split; [reflexivity|].
    split; vm_compute; reflexivity.
Defined.

(** C4 fails as stated on the single-server client, which keeps no registry
    and resolves nothing: its catalog [available_tools] is all it knows of
    the tools, and a tool-use block whose name is not in it is sent to the
    session like any other; here the server answers that it does not know
    the tool, the answer is appended as a tool result, the model is invoked
    again and the turn goes on to its end. *)
Lemma single_dispatches_unknown_tool :
  let m := single (script [[use_unknown]]) in
  let run := Single.process_query 3 "q" m in
  ~ In "nowhere" (map name (Single.available_tools (self m))) /\
  dispatched (trace run.1) = [("nowhere", "u")] /\
  tool_results (messages run.1) = [("D", "Unknown tool: nowhere")] /\
  model_calls (trace run.1) = 2 /\
  run.2 = Return tt.
Proof.
  intros m run.
  split; [cbn; intros [H|[H|[]]]; discriminate H|].
  split; [vm_compute; reflexivity|].
  split; [vm_compute; reflexivity|].
  split; vm_compute; reflexivity.
Qed.

(** C4 on a response that asks for a tool no server offers. *)
Lemma unknown_tool_aborts_turn_witness :
  let m := connected (script [[TextBlock "hm"; use_unknown; use_A]]) in
  Multi._handle_tool_call "D" "nowhere" "u" m = (m, Raise (KeyError "nowhere"))
  /\ exists m',
       Multi.process_query 1 "q" m = (m', Raise (KeyError "nowhere")) /\
       displayed (trace m') = ["hm"] /\ dispatched (trace m') = [].
Proof.
  intros m.
  assert (Multi.tool_to_session (self m) !! "nowhere" = None) as H
    by (vm_compute; reflexivity).
  destruct (unknown_tool_aborts_turn _ m "D" "nowhere" "u" H)
    as (H1 & H2 & _).
  split; [exact H1|].
  destruct (H2 0 "q" (1, 2) [TextBlock "hm"] [use_A]) as (m' & Hm' & Ht & _).
  - repeat constructor.
  - vm_compute; reflexivity.
  - exists m'. split; [exact Hm'|]. rewrite Ht.
    split; vm_compute; reflexivity.
Defined.

(** C5 on a response whose second tool call raises: the first call has its
    tool result, the second has none and its exception ends the turn, and
    the third block is not reached. *)
Lemma failed_tool_call_aborts_turn_witness :
  let m := connected (script [[use_A; use_broken; use_B]]) in
  let run := Multi.process_query 3 "q" m in
  (exists new,
     trace run.1 = trace m ++ new /\
     faithful new (messages run.1) run.2) /\
  run.2 = Raise (Error "tool failed") /\
  dispatched (trace run.1) = [("search", "x"); ("fetch", "boom")] /\
  tool_results (messages run.1) = [("A", "result of search")].
Proof.
  intros m run.
  destruct (failed_tool_call_aborts_turn
              (outside (script [[use_A; use_broken; use_B]])
                       (inr two_servers)) 3 "q") as [HM _].
  destruct (HM m) as (new & Ht & Hf & _).
  split; [exists new; split; [exact Ht|exact Hf]|].
  split; [vm_compute; reflexivity|].
  split; vm_compute; reflexivity.
Defined.

(** C5 fails as stated.  A tool that fails and says so in its result (the
    error flag of the result is set) is not treated as a failure by either
    client: the content of the result is appended as a tool result, the model
    is invoked again and the turn ends normally. *)
Lemma flagged_tool_result_is_appended :
  (let run := Multi.process_query 3 "q" (connected (script [[use_flagged]])) in
   flagged (trace run.1) = [("fetch", "error in fetch")] /\
   tool_results (messages run.1) = [("F", "error in fetch")] /\
   model_calls (trace run.1) = 2 /\
   run.2 = Return tt) /\
  (let run := Single.process_query 3 "q" (single (script [[use_flagged]])) in
   flagged (trace run.1) = [("fetch", "error in fetch")] /\
   tool_results (messages run.1) = [("F", "error in fetch")] /\
   model_calls (trace run.1) = 2 /\
   run.2 = Return tt).
Proof.
  split; intros run.
  - split; [vm_compute; reflexivity|].
    split; [vm_compute; reflexivity|].
    split; vm_compute; reflexivity.
  - split; [vm_compute; reflexivity|].
    split; [vm_compute; reflexivity|].
    split; vm_compute; reflexivity.
Qed.

End TurnRuns.
